(** * GrTargetCommands: the deferred command recorder of Skia's GPU backend

    A shallow embedding of [src/gpu/GrTargetCommands.cpp].  The recorder
    appends command records to [fCmdBuffer], elides redundant state
    records, folds compatible [DrawPaths] and [DrawBatch] requests into the
    trailing record, and [flush] replays the buffer against the backend.

    Conventions of the embedding.
    - [fCmdBuffer] is a [list Cmd]; a [Cmd*] into it is the index of the
      record ([nat]); [NULL] is [None].  Dereferencing an index that holds
      no record, or a record of another kind, is the failure [None] of the
      option monad (undefined behaviour in the source).
    - [int] is [Z] with two's complement wrap-around ([wrap32]); [char*] and
      [float*] are byte addresses in [Z].
    - Everything that lives outside GrTargetCommands.cpp (the draw buffer
      [iodb], its pools, batches, the pipeline layer, the GPU) is a
      collaborator: an abstract [World] and the operations the file calls
      on it, gathered in the class [Collaborators].
    - [SkASSERT] and [GrColorIsPMAssert] compile to nothing in release
      builds; the embedding follows the release build.  Where an assertion
      guards a dereference, the dereference itself can fail.

    The generated getters of two PDF dictionaries
    ([SkPdfAttributeObjectDictionary_autogen.cpp] and
    [SkPdfDctdecodeFilterDictionary_autogen.cpp]) are embedded after the
    recorder, over an object layer of their own ([NativeObjects]). *)

From Stdlib Require Import ZArith Lia.
From stdpp Require Import base option list numbers strings.

(** ** Machine arithmetic *)

Definition wrap32 (z : Z) : Z := ((z + 2 ^ 31) `mod` 2 ^ 32 - 2 ^ 31)%Z.

(** [a + b] and [a * b] on [int]. *)
Definition int_add (a b : Z) : Z := wrap32 (a + b).
Definition int_mul (a b : Z) : Z := wrap32 (a * b).

Definition INT_MIN : Z := (- 2 ^ 31)%Z.
Definition INT_MAX : Z := (2 ^ 31 - 1)%Z.

(** [&p[i]] for [char* p] and for [float* p] (a float is four bytes). *)
Definition char_at (p i : Z) : Z := (p + i)%Z.
Definition float_at (p i : Z) : Z := (p + 4 * i)%Z.

(** ** Plain data of the Skia headers *)

(** Modelled from the spec: [SkIRect], an integer rectangle given by its
    left, top, right and bottom edges, which [setLTRB] sets in that order. *)
Record SkIRect := { fLeft : Z; fTop : Z; fRight : Z; fBottom : Z }.

Definition setLTRB (l t r b : Z) : SkIRect :=
  {| fLeft := l; fTop := t; fRight := r; fBottom := b |}.

(** Modelled from the spec: [SkIPoint], the destination point of a copy. *)
Record SkIPoint := { fX : Z; fY : Z }.

(** Modelled from the spec: what the recorder uses of a [GrRenderTarget*],
    the object's address and the width and height it reads through
    [width()] and [height()]. *)
Record GrRenderTarget := { rt_addr : Z; rt_width : Z; rt_height : Z }.

(** Modelled from the spec: the enumeration [Cmd::CmdType] of
    GrTargetCommands.h, one kind for each record of the data model; the
    file itself names [kDrawBatch_CmdType], [kDrawPaths_CmdType] and
    [kSetState_CmdType]. *)
Inductive CmdType :=
| kDraw_CmdType | kStencilPath_CmdType | kSetState_CmdType
| kClear_CmdType | kClearStencilClip_CmdType | kCopySurface_CmdType
| kDrawPath_CmdType | kDrawPaths_CmdType | kDrawBatch_CmdType.

#[global] Instance CmdType_eq_dec : EqDecision CmdType.
Proof. solve_decision. Defined.

(** ** Collaborators

    The types and operations GrTargetCommands.cpp uses but does not define.
    Operations that may change objects outside the recorder take and return
    the [World]; [const] queries are pure. *)

Class Collaborators := {
  World : Type;
  GrPrimitiveProcessor : Type;
  GrPipeline : Type;
  PipelineInfo : Type;
  GrPipelineBuilder : Type;
  GrBatchTracker : Type;
  InitBT : Type;
  GrStencilSettings : Type;
  GrStencilOp : Type;
  Face : Type;
  GrScissorState : Type;
  SkMatrix : Type;
  PathIndexType : Type;
  PathTransformType : Type;
  DrawInfo : Type;

  GrStencilSettings_eq_dec :: EqDecision GrStencilSettings;
  GrStencilOp_eq_dec :: EqDecision GrStencilOp;
  PathIndexType_eq_dec :: EqDecision PathIndexType;
  PathTransformType_eq_dec :: EqDecision PathTransformType;

  (** [GrColor_ILLEGAL], the reserved colour of GrColor.h. *)
  GrColor_ILLEGAL : Z;

  (** [kInvert_StencilOp], [GrStencilSettings::kFront_Face] and
      [GrStencilSettings::passOp]. *)
  kInvert_StencilOp : GrStencilOp;
  kFront_Face : Face;
  passOp : GrStencilSettings → Face → GrStencilOp;
  (** [GrPathRange::PathIndexSizeInBytes], [GrPathRendering::PathTransformSize]. *)
  PathIndexSizeInBytes : PathIndexType → Z;
  PathTransformSize : PathTransformType → Z;

  (** [iodb->setupPipeline(pipelineInfo, location)]: the pipeline built at
      [location]. *)
  setupPipeline : World → PipelineInfo → World * GrPipeline;
  mustSkip : GrPipeline → bool;
  getInitBatchTracker : GrPipeline → InitBT;
  isEqual : GrPipeline → GrPipeline → bool;
  willBlendWithDst : PipelineInfo → GrPrimitiveProcessor → bool;

  (** A default-constructed [GrBatchTracker]. *)
  GrBatchTracker_new : GrBatchTracker;
  (** [primProc->initBatchTracker(&tracker, init)]: the tracker written. *)
  initBatchTracker : GrPrimitiveProcessor → InitBT → GrBatchTracker;
  (** [a->canMakeEqual(ta, b, tb)]. *)
  canMakeEqual :
    GrPrimitiveProcessor → GrBatchTracker →
    GrPrimitiveProcessor → GrBatchTracker → bool;
  viewMatrix : GrPrimitiveProcessor → SkMatrix;

  getRenderTarget : GrPipelineBuilder → GrRenderTarget;
  isHWAntialias : GrPipelineBuilder → bool;

  (** [batch->initBatchTracker(init)] on the batch at an address. *)
  batch_initBatchTracker : World → Z → InitBT → World;
  (** [a->combineIfPossible(b)] on the batches at two addresses. *)
  combineIfPossible : World → Z → Z → World * bool;

  (** [iodb->appendIndicesAndTransforms(...)]: the two pool addresses
      written to [savedIndices] and [savedTransforms]. *)
  appendIndicesAndTransforms :
    World → Z → PathIndexType → Z → PathTransformType → Z → World * (Z * Z);
  (** [iodb->recordTraceMarkersIfNecessary(cmd)]: the marker the command
      carries afterwards, given the one it carried. *)
  recordTraceMarkersIfNecessary : World → option Z → World * option Z;
}.

Section Model.
Context `{Collaborators}.

(** ** Command records *)

Record SetState := {
  fPrimitiveProcessor : option GrPrimitiveProcessor;
  fPipeline : GrPipeline;
  fBatchTracker : GrBatchTracker;
}.

Record StencilPath := {
  sp_path : Z;
  sp_fRenderTarget : GrRenderTarget;
  fScissor : GrScissorState;
  fUseHWAA : bool;
  fViewMatrix : SkMatrix;
  fStencil : GrStencilSettings;
}.

Record DrawPath := {
  dp_path : Z;
  dp_fStencilSettings : GrStencilSettings;
}.

Record DrawPaths := {
  pathRange : Z;
  fIndices : Z;
  fIndexType : PathIndexType;
  fTransforms : Z;
  fTransformType : PathTransformType;
  fCount : Z;
  fStencilSettings : GrStencilSettings;
}.

(** The constructor [Clear(renderTarget)] sets the target only; both
    recorders of a [Clear] store [fColor], and [fRect] and [fCanIgnoreRect]
    hold a value once a recorder stores one. *)
Record Clear := {
  cl_renderTarget : GrRenderTarget;
  fColor : Z;
  fRect : option SkIRect;
  fCanIgnoreRect : option bool;
}.

Record ClearStencilClip := {
  csc_renderTarget : GrRenderTarget;
  csc_fRect : SkIRect;
  fInsideClip : bool;
}.

Record CopySurface := {
  cs_dst : Z;
  cs_src : Z;
  fSrcRect : SkIRect;
  fDstPoint : SkIPoint;
}.

Inductive CmdBody :=
| CDraw (info : DrawInfo)
| CStencilPath (c : StencilPath)
| CSetState (c : SetState)
| CClear (c : Clear)
| CClearStencilClip (c : ClearStencilClip)
| CCopySurface (c : CopySurface)
| CDrawPath (c : DrawPath)
| CDrawPaths (c : DrawPaths)
| CDrawBatch (fBatch : Z).

(** A command: its trace marker ([None] when [isTraced()] is false) and its
    payload. *)
Record Cmd := { fMarkerID : option Z; body : CmdBody }.

Definition new_cmd (b : CmdBody) : Cmd := {| fMarkerID := None; body := b |}.

Definition type (c : Cmd) : CmdType :=
  match body c with
  | CDraw _ => kDraw_CmdType
  | CStencilPath _ => kStencilPath_CmdType
  | CSetState _ => kSetState_CmdType
  | CClear _ => kClear_CmdType
  | CClearStencilClip _ => kClearStencilClip_CmdType
  | CCopySurface _ => kCopySurface_CmdType
  | CDrawPath _ => kDrawPath_CmdType
  | CDrawPaths _ => kDrawPaths_CmdType
  | CDrawBatch _ => kDrawBatch_CmdType
  end.

Definition isTraced (c : Cmd) : bool :=
  match fMarkerID c with Some _ => true | None => false end.

(** ** The recorder *)

Record Recorder := {
  fCmdBuffer : list Cmd;
  fPrevState : option nat;
  fDrawBatch : option nat;
}.

Definition with_buffer (st : Recorder) (buf : list Cmd) : Recorder :=
  {| fCmdBuffer := buf; fPrevState := fPrevState st; fDrawBatch := fDrawBatch st |}.

(** [GrNEW_APPEND_TO_RECORDER]: the record goes to the end; its address is
    the old length. *)
Definition push_back (st : Recorder) (c : Cmd) : Recorder :=
  with_buffer st (fCmdBuffer st ++ [c]).

Definition pop_back (st : Recorder) : Recorder :=
  with_buffer st (removelast (fCmdBuffer st)).

(** A write through a [Cmd*]. *)
Definition store (p : nat) (c : Cmd) (st : Recorder) : Recorder :=
  with_buffer st (<[p := c]> (fCmdBuffer st)).

Definition back (st : Recorder) : option Cmd := list.last (fCmdBuffer st).

(** Reading a [SetState*]. *)
Definition deref_SetState (st : Recorder) (p : nat) : option SetState :=
  c ← fCmdBuffer st !! p;
  match body c with CSetState s => Some s | _ => None end.

Definition reset (st : Recorder) : Recorder :=
  {| fCmdBuffer := []; fPrevState := None; fDrawBatch := None |}.

Definition has_primitive (s : SetState) : bool :=
  match fPrimitiveProcessor s with Some _ => true | None => false end.

(** Lines 368-372: the elision test of the primitive-processor overload. *)
Definition prev_equal_prim (prev ss : SetState) : bool :=
  match fPrimitiveProcessor prev, fPrimitiveProcessor ss with
  | Some pp, Some sp =>
      canMakeEqual pp (fBatchTracker prev) sp (fBatchTracker ss)
      && isEqual (fPipeline prev) (fPipeline ss)
  | _, _ => false
  end.

(** Lines 394-395: the elision test of the batch overload. *)
Definition prev_equal_batch (prev ss : SetState) : bool :=
  negb (has_primitive prev) && isEqual (fPipeline prev) (fPipeline ss).

(** Lines 374-377: the candidate at [ss] becomes the previous state. *)
Definition keep_state (w : World) (st : Recorder) (ss : nat)
  : option (World * Recorder * bool) :=
  c ← fCmdBuffer st !! ss;
  let '(w, m) := recordTraceMarkersIfNecessary w (fMarkerID c) in
  let st := store ss {| fMarkerID := m; body := body c |} st in
  Some (w, {| fCmdBuffer := fCmdBuffer st; fPrevState := Some ss;
              fDrawBatch := fDrawBatch st |}, true).

(** [setupPipelineAndShouldDraw(iodb, primProc, pipelineInfo)]. *)
Definition setupPipelineAndShouldDraw (w : World) (st : Recorder)
    (primProc : GrPrimitiveProcessor) (pipelineInfo : PipelineInfo)
  : option (World * Recorder * bool) :=
  let ss := length (fCmdBuffer st) in
  let '(w, pipeline) := setupPipeline w pipelineInfo in
  let st := push_back st (new_cmd (CSetState
              {| fPrimitiveProcessor := Some primProc; fPipeline := pipeline;
                 fBatchTracker := GrBatchTracker_new |})) in
  if mustSkip pipeline then Some (w, pop_back st, false)
  else
    let cand := {| fPrimitiveProcessor := Some primProc; fPipeline := pipeline;
                   fBatchTracker :=
                     initBatchTracker primProc (getInitBatchTracker pipeline) |} in
    let st := store ss (new_cmd (CSetState cand)) st in
    match fPrevState st with
    | Some p =>
        prev ← deref_SetState st p;
        cur ← deref_SetState st ss;
        if prev_equal_prim prev cur then Some (w, pop_back st, true)
        else keep_state w st ss
    | None => keep_state w st ss
    end.

(** [setupPipelineAndShouldDraw(iodb, batch, pipelineInfo)]. *)
Definition setupPipelineAndShouldDraw_batch (w : World) (st : Recorder)
    (batch : Z) (pipelineInfo : PipelineInfo)
  : option (World * Recorder * bool) :=
  let ss := length (fCmdBuffer st) in
  let '(w, pipeline) := setupPipeline w pipelineInfo in
  let st := push_back st (new_cmd (CSetState
              {| fPrimitiveProcessor := None; fPipeline := pipeline;
                 fBatchTracker := GrBatchTracker_new |})) in
  if mustSkip pipeline then Some (w, pop_back st, false)
  else
    let w := batch_initBatchTracker w batch (getInitBatchTracker pipeline) in
    match fPrevState st with
    | Some p =>
        prev ← deref_SetState st p;
        cur ← deref_SetState st ss;
        if prev_equal_batch prev cur then Some (w, pop_back st, true)
        else keep_state w st ss
    | None => keep_state w st ss
    end.

(** [path_fill_type_is_winding]. *)
Definition path_fill_type_is_winding (pathStencilSettings : GrStencilSettings) : bool :=
  let pathFace := kFront_Face in
  let isWinding :=
    negb (bool_decide (kInvert_StencilOp = passOp pathStencilSettings pathFace)) in
  isWinding.

Definition is_null {A} (p : option A) : bool :=
  match p with None => true | Some _ => false end.

(** Reading [fDrawBatch->fBatch]. *)
Definition deref_DrawBatch (st : Recorder) (p : nat) : option Z :=
  c ← fCmdBuffer st !! p;
  match body c with CDrawBatch b => Some b | _ => None end.

(** [fDrawBatch = GrNEW_APPEND_TO_RECORDER(fCmdBuffer, DrawBatch, ...)]. *)
Definition appended_batch (st : Recorder) (batch : Z) : Recorder :=
  {| fCmdBuffer := fCmdBuffer st ++ [new_cmd (CDrawBatch batch)];
     fPrevState := fPrevState st;
     fDrawBatch := Some (length (fCmdBuffer st)) |}.

Definition append_DrawBatch (w : World) (st : Recorder) (batch : Z)
  : option (World * Recorder * option nat) :=
  Some (w, appended_batch st batch, Some (length (fCmdBuffer st))).

(** [recordDrawBatch]. *)
Definition recordDrawBatch (w : World) (st : Recorder)
    (batch : Z) (pipelineInfo : PipelineInfo)
  : option (World * Recorder * option nat) :=
  '(w, st, shouldDraw) ← setupPipelineAndShouldDraw_batch w st batch pipelineInfo;
  if negb shouldDraw then Some (w, st, None)
  else
    b ← back st;
    if negb (bool_decide (kDrawBatch_CmdType = type b)) || is_null (fDrawBatch st)
    then append_DrawBatch w st batch
    else
      d ← fDrawBatch st;
      tracked ← deref_DrawBatch st d;
      (let '(w, combined) := combineIfPossible w tracked batch in
       if negb combined then append_DrawBatch w st batch
       else Some (w, st, Some d)) : option (World * Recorder * option nat).

(** [recordStencilPath]. *)
Definition recordStencilPath (w : World) (st : Recorder)
    (pipelineBuilder : GrPipelineBuilder) (pathProc : GrPrimitiveProcessor)
    (path : Z) (scissorState : GrScissorState) (stencilSettings : GrStencilSettings)
  : option (World * Recorder * option nat) :=
  let sp := length (fCmdBuffer st) in
  let st := push_back st (new_cmd (CStencilPath
              {| sp_path := path;
                 sp_fRenderTarget := getRenderTarget pipelineBuilder;
                 fScissor := scissorState;
                 fUseHWAA := isHWAntialias pipelineBuilder;
                 fViewMatrix := viewMatrix pathProc;
                 fStencil := stencilSettings |})) in
  Some (w, st, Some sp).

(** [recordDrawPath]. *)
Definition recordDrawPath (w : World) (st : Recorder)
    (pathProc : GrPrimitiveProcessor) (path : Z)
    (stencilSettings : GrStencilSettings) (pipelineInfo : PipelineInfo)
  : option (World * Recorder * option nat) :=
  '(w, st, shouldDraw) ← setupPipelineAndShouldDraw w st pathProc pipelineInfo;
  if negb shouldDraw then Some (w, st, None)
  else
    let dp := length (fCmdBuffer st) in
    let st := push_back st (new_cmd (CDrawPath
                {| dp_path := path; dp_fStencilSettings := stencilSettings |})) in
    Some (w, st, Some dp).

(** Lines 118-128: the record the request folds into, if any. *)
Definition fold_target (st : Recorder) (b : Cmd)
    (pathProc : GrPrimitiveProcessor) (pathRange' : Z)
    (indexType : PathIndexType) (transformType : PathTransformType)
    (stencilSettings : GrStencilSettings) (pipelineInfo : PipelineInfo)
    (savedIndices savedTransforms : Z) : option DrawPaths :=
  match body b with
  | CDrawPaths previous =>
      if bool_decide (pathRange' = pathRange previous)
         && bool_decide (indexType = fIndexType previous)
         && bool_decide (transformType = fTransformType previous)
         && bool_decide (stencilSettings = fStencilSettings previous)
         && path_fill_type_is_winding stencilSettings
         && negb (willBlendWithDst pipelineInfo pathProc)
      then
        let indexBytes := PathIndexSizeInBytes indexType in
        let xformSize := PathTransformSize transformType in
        if bool_decide
             (char_at (fIndices previous) (int_mul (fCount previous) indexBytes)
              = savedIndices)
           && (bool_decide (0%Z = xformSize)
               || bool_decide
                    (float_at (fTransforms previous)
                       (int_mul (fCount previous) xformSize)
                     = savedTransforms))
        then Some previous
        else None
      else None
  | _ => None
  end.

(** A write to [fCount]. *)
Definition set_count (previous : DrawPaths) (count : Z) : DrawPaths :=
  {| pathRange := pathRange previous; fIndices := fIndices previous;
     fIndexType := fIndexType previous; fTransforms := fTransforms previous;
     fTransformType := fTransformType previous;
     fCount := count;
     fStencilSettings := fStencilSettings previous |}.

(** [previous->fCount += count]. *)
Definition add_count (previous : DrawPaths) (count : Z) : DrawPaths :=
  set_count previous (int_add (fCount previous) count).

(** [recordDrawPaths]. *)
Definition recordDrawPaths (w : World) (st : Recorder)
    (pathProc : GrPrimitiveProcessor) (pathRange' : Z)
    (indexValues : Z) (indexType : PathIndexType)
    (transformValues : Z) (transformType : PathTransformType)
    (count : Z) (stencilSettings : GrStencilSettings)
    (pipelineInfo : PipelineInfo)
  : option (World * Recorder * option nat) :=
  '(w, st, shouldDraw) ← setupPipelineAndShouldDraw w st pathProc pipelineInfo;
  if negb shouldDraw then Some (w, st, None)
  else
    (let '(w, (savedIndices, savedTransforms)) :=
      appendIndicesAndTransforms w indexValues indexType
        transformValues transformType count in
    b ← back st;
    match fold_target st b pathProc pathRange' indexType transformType
            stencilSettings pipelineInfo savedIndices savedTransforms with
    | Some previous =>
        let tail := length (fCmdBuffer st) - 1 in
        Some (w, store tail {| fMarkerID := fMarkerID b;
                               body := CDrawPaths (add_count previous count) |} st,
              None)
    | None =>
        let dp := length (fCmdBuffer st) in
        let st := push_back st (new_cmd (CDrawPaths
                    {| pathRange := pathRange'; fIndices := savedIndices;
                       fIndexType := indexType; fTransforms := savedTransforms;
                       fTransformType := transformType; fCount := count;
                       fStencilSettings := stencilSettings |})) in
        Some (w, st, Some dp)
    end) : option (World * Recorder * option nat).

(** [recordClear]; [rect] is [None] for a null pointer. *)
Definition recordClear (w : World) (st : Recorder)
    (rect : option SkIRect) (color : Z) (canIgnoreRect : bool)
    (renderTarget : GrRenderTarget)
  : option (World * Recorder * option nat) :=
  let rect :=
    match rect with
    | None => setLTRB 0 0 (rt_width renderTarget) (rt_height renderTarget)
    | Some r => r
    end in
  let clr := length (fCmdBuffer st) in
  let st := push_back st (new_cmd (CClear
              {| cl_renderTarget := renderTarget; fColor := color;
                 fRect := Some rect; fCanIgnoreRect := Some canIgnoreRect |})) in
  Some (w, st, Some clr).

(** [recordClearStencilClip]. *)
Definition recordClearStencilClip (w : World) (st : Recorder)
    (rect : SkIRect) (insideClip : bool) (renderTarget : GrRenderTarget)
  : option (World * Recorder * option nat) :=
  let clr := length (fCmdBuffer st) in
  let st := push_back st (new_cmd (CClearStencilClip
              {| csc_renderTarget := renderTarget; csc_fRect := rect;
                 fInsideClip := insideClip |})) in
  Some (w, st, Some clr).

(** [recordDiscard]. *)
Definition recordDiscard (w : World) (st : Recorder) (renderTarget : GrRenderTarget)
  : option (World * Recorder * option nat) :=
  let clr := length (fCmdBuffer st) in
  let st := push_back st (new_cmd (CClear
              {| cl_renderTarget := renderTarget; fColor := GrColor_ILLEGAL;
                 fRect := None; fCanIgnoreRect := None |})) in
  Some (w, st, Some clr).

(** [recordCopySurface]. *)
Definition recordCopySurface (w : World) (st : Recorder)
    (dst src : Z) (srcRect : SkIRect) (dstPoint : SkIPoint)
  : option (World * Recorder * option nat) :=
  let cs := length (fCmdBuffer st) in
  let st := push_back st (new_cmd (CCopySurface
              {| cs_dst := dst; cs_src := src; fSrcRect := srcRect;
                 fDstPoint := dstPoint |})) in
  Some (w, st, Some cs).

(** ** Flush

    [flush] is modelled by the calls it makes on its collaborators, in
    order.  Calls on the GPU are the [gpu_] events; the others go to the
    draw buffer's pools and to the batch target. *)

Inductive Event :=
| getVertexAllocPool_unmap
| getIndexAllocPool_unmap
| preFlush
| postFlush
| resetNumberOfDraws
| generateGeometry (batch : Z) (pipeline : GrPipeline)
| setNumberOfDraws (batch : Z)
| flushNext (batch : Z)
| gpu_addGpuTraceMarker (markerID : Z)
| gpu_removeGpuTraceMarker (markerID : Z)
| gpu_buildProgramDesc (primProc : GrPrimitiveProcessor)
    (pipeline : GrPipeline) (tracker : GrBatchTracker)
| gpu_draw (state : SetState) (info : DrawInfo)
| gpu_stencilPath (c : StencilPath)
| gpu_drawPath (state : SetState) (c : DrawPath)
| gpu_drawPaths (state : SetState) (c : DrawPaths)
| gpu_discard (renderTarget : GrRenderTarget)
| gpu_clear (rect : option SkIRect) (color : Z) (canIgnoreRect : option bool)
    (renderTarget : GrRenderTarget)
| gpu_clearStencilClip (rect : SkIRect) (insideClip : bool)
    (renderTarget : GrRenderTarget)
| gpu_copySurface (dst src : Z) (srcRect : SkIRect) (dstPoint : SkIPoint).

(** The [execute] methods; [state] is the [const SetState*] argument. *)
Definition execute (c : CmdBody) (state : option SetState) : option (list Event) :=
  match c with
  | CDraw info => s ← state; Some [gpu_draw s info]
  | CStencilPath sp => Some [gpu_stencilPath sp]
  | CDrawPath dp => s ← state; Some [gpu_drawPath s dp]
  | CDrawPaths dp => s ← state; Some [gpu_drawPaths s dp]
  | CDrawBatch b => s ← state; Some [generateGeometry b (fPipeline s)]
  | CSetState ss =>
      match fPrimitiveProcessor ss with
      | Some pp => Some [gpu_buildProgramDesc pp (fPipeline ss) (fBatchTracker ss)]
      | None => Some []
      end
  | CClear clr =>
      if bool_decide (GrColor_ILLEGAL = fColor clr)
      then Some [gpu_discard (cl_renderTarget clr)]
      else Some [gpu_clear (fRect clr) (fColor clr) (fCanIgnoreRect clr)
                   (cl_renderTarget clr)]
  | CClearStencilClip clr =>
      Some [gpu_clearStencilClip (csc_fRect clr) (fInsideClip clr)
              (csc_renderTarget clr)]
  | CCopySurface cs =>
      Some [gpu_copySurface (cs_dst cs) (cs_src cs) (fSrcRect cs) (fDstPoint cs)]
  end.

(** Lines 210-222, compiled under [USE_BITMAP_TEXTBLOBS]: the events of
    the geometry pass and the state it leaves in [currentState]. *)
Fixpoint gen_pass (cmds : list Cmd) (currentState : option SetState)
  : option (list Event * option SetState) :=
  match cmds with
  | [] => Some ([], currentState)
  | c :: rest =>
      match body c with
      | CDrawBatch b =>
          evs ← execute (body c) currentState;
          '(more, final) ← gen_pass rest currentState;
          Some ([resetNumberOfDraws] ++ evs ++ [setNumberOfDraws b] ++ more, final)
      | CSetState ss =>
          evs ← execute (body c) currentState;
          '(more, final) ← gen_pass rest (Some ss);
          Some (evs ++ more, final)
      | _ => gen_pass rest currentState
      end
  end.

Definition open_marker (c : Cmd) : list Event :=
  match fMarkerID c with Some m => [gpu_addGpuTraceMarker m] | None => [] end.

Definition close_marker (c : Cmd) : list Event :=
  match fMarkerID c with Some m => [gpu_removeGpuTraceMarker m] | None => [] end.

(** One iteration of the loop of lines 231-274 on the record [c]: the calls
    made and the value of [currentState] afterwards. *)
Definition visit (textblobs : bool) (c : Cmd) (currentState : option SetState)
  : option (list Event * option SetState) :=
  match body c with
  | CDrawBatch b =>
      Some (open_marker c ++ [flushNext b] ++ close_marker c, currentState)
  | CSetState ss =>
      evs ← (if textblobs
             then (if has_primitive ss then execute (body c) currentState
                   else Some [])
             else execute (body c) currentState);
      Some (open_marker c ++ evs ++ close_marker c, Some ss)
  | _ =>
      evs ← execute (body c) currentState;
      Some (open_marker c ++ evs ++ close_marker c, currentState)
  end.

(** What one iteration of the main loop did: the record under the
    iterator, [currentState] on entry, and the calls made. *)
Record Visit := {
  v_cmd : Cmd;
  v_state : option SetState;
  v_events : list Event;
}.

(** The loop [while (iter.next())] of lines 231-274. *)
Fixpoint main_pass (textblobs : bool) (cmds : list Cmd)
    (currentState : option SetState) : option (list Visit) :=
  match cmds with
  | [] => Some []
  | c :: rest =>
      '(evs, next) ← visit textblobs c currentState;
      vs ← main_pass textblobs rest next;
      Some ({| v_cmd := c; v_state := currentState; v_events := evs |} :: vs)
  end.

(** [flush]: the iterations of the main loop and all calls made, in order.
    [textblobs] tells whether [USE_BITMAP_TEXTBLOBS] is defined. *)
Definition flush (textblobs : bool) (st : Recorder)
  : option (list Visit * list Event) :=
  match fCmdBuffer st with
  | [] => Some ([], [])
  | _ =>
      '(gen, currentState) ←
        (if textblobs then gen_pass (fCmdBuffer st) None else Some ([], None));
      vs ← main_pass textblobs (fCmdBuffer st) currentState;
      Some (vs, gen ++ [getVertexAllocPool_unmap; getIndexAllocPool_unmap; preFlush]
                ++ concat (v_events <$> vs) ++ [postFlush])
  end.

(** ** Requests and reachable recorders *)

Inductive Request :=
| DrawBatchReq (batch : Z) (pipelineInfo : PipelineInfo)
| StencilPathReq (pipelineBuilder : GrPipelineBuilder)
    (pathProc : GrPrimitiveProcessor) (path : Z)
    (scissorState : GrScissorState) (stencilSettings : GrStencilSettings)
| DrawPathReq (pathProc : GrPrimitiveProcessor) (path : Z)
    (stencilSettings : GrStencilSettings) (pipelineInfo : PipelineInfo)
| DrawPathsReq (pathProc : GrPrimitiveProcessor) (pathRange' : Z)
    (indexValues : Z) (indexType : PathIndexType)
    (transformValues : Z) (transformType : PathTransformType)
    (count : Z) (stencilSettings : GrStencilSettings)
    (pipelineInfo : PipelineInfo)
| ClearReq (rect : option SkIRect) (color : Z) (canIgnoreRect : bool)
    (renderTarget : GrRenderTarget)
| ClearStencilClipReq (rect : SkIRect) (insideClip : bool)
    (renderTarget : GrRenderTarget)
| DiscardReq (renderTarget : GrRenderTarget)
| CopySurfaceReq (dst src : Z) (srcRect : SkIRect) (dstPoint : SkIPoint)
| ResetReq
| TraceReq (cmd : nat).

(** The draw buffer tags a command it was handed back:
    [iodb->recordTraceMarkersIfNecessary(cmd)] writes the marker only. *)
Definition trace_cmd (w : World) (st : Recorder) (cmd : nat)
  : option (World * Recorder * option nat) :=
  c ← fCmdBuffer st !! cmd;
  (let '(w, m) := recordTraceMarkersIfNecessary w (fMarkerID c) in
   Some (w, store cmd {| fMarkerID := m; body := body c |} st, None))
  : option (World * Recorder * option nat).

Definition record (w : World) (st : Recorder) (req : Request)
  : option (World * Recorder * option nat) :=
  match req with
  | DrawBatchReq batch pi => recordDrawBatch w st batch pi
  | StencilPathReq pb pp path sc ss => recordStencilPath w st pb pp path sc ss
  | DrawPathReq pp path ss pi => recordDrawPath w st pp path ss pi
  | DrawPathsReq pp pr iv ity tv tty n ss pi =>
      recordDrawPaths w st pp pr iv ity tv tty n ss pi
  | ClearReq r c i rt => recordClear w st r c i rt
  | ClearStencilClipReq r i rt => recordClearStencilClip w st r i rt
  | DiscardReq rt => recordDiscard w st rt
  | CopySurfaceReq d s r p => recordCopySurface w st d s r p
  | ResetReq => Some (w, reset st, None)
  | TraceReq cmd => trace_cmd w st cmd
  end.

(** A fresh recorder, as [reset] leaves it. *)
Definition empty_recorder : Recorder :=
  {| fCmdBuffer := []; fPrevState := None; fDrawBatch := None |}.

(** The recorders reachable from a fresh one. *)
Inductive reachable : Recorder → Prop :=
| reachable_empty : reachable empty_recorder
| reachable_record w st req w' st' r :
    reachable st → record w st req = Some (w', st', r) → reachable st'.

(** [record] a list of requests in order; the commands returned. *)
Fixpoint record_all (w : World) (st : Recorder) (reqs : list Request)
  : option (World * Recorder * list (option nat)) :=
  match reqs with
  | [] => Some (w, st, [])
  | req :: rest =>
      '(w, st, r) ← record w st req;
      '(w, st, rs) ← record_all w st rest;
      Some (w, st, r :: rs)
  end.

(** ** Shape of a buffer

    The invariant of the recorder speaks of the kinds of the records only. *)

Definition is_state (t : CmdType) : bool := bool_decide (t = kSetState_CmdType).

(** The kinds whose [execute] reads the active state. *)
Definition needs_state (t : CmdType) : bool :=
  match t with
  | kDraw_CmdType | kDrawPath_CmdType | kDrawPaths_CmdType
  | kDrawBatch_CmdType => true
  | _ => false
  end.

(** The address of the last record of kind [t]. *)
Fixpoint last_index (t : CmdType) (ts : list CmdType) : option nat :=
  match ts with
  | [] => None
  | u :: rest =>
      match last_index t rest with
      | Some i => Some (S i)
      | None => if bool_decide (u = t) then Some 0 else None
      end
  end.

(** Every record that reads the active state comes after a state record
    ([seen] tells whether one came before [ts]). *)
Fixpoint staged (seen : bool) (ts : list CmdType) : bool :=
  match ts with
  | [] => true
  | t :: rest =>
      if is_state t then staged true rest
      else (negb (needs_state t) || seen) && staged seen rest
  end.

(** No two neighbours are both state records. *)
Fixpoint no_adjacent_states (ts : list CmdType) : bool :=
  match ts with
  | t1 :: rest =>
      match rest with
      | t2 :: _ => negb (is_state t1 && is_state t2) && no_adjacent_states rest
      | [] => true
      end
  | [] => true
  end.

Definition tail_is_state (ts : list CmdType) : bool :=
  match list.last ts with Some t => is_state t | None => false end.

Definition types (st : Recorder) : list CmdType := type <$> fCmdBuffer st.

(** What holds of a recorder also between state resolution and the append
    of the draw: [fPrevState] and [fDrawBatch] point to the last state
    record and the last batch record, every record that reads the active
    state has a state record before it, and no two state records are
    neighbours. *)
Definition wf_open (st : Recorder) : bool :=
  bool_decide (fPrevState st = last_index kSetState_CmdType (types st))
  && bool_decide (fDrawBatch st = last_index kDrawBatch_CmdType (types st))
  && staged false (types st)
  && no_adjacent_states (types st).

(** The invariant of the recorder between two requests: moreover the
    buffer does not end in a state record. *)
Definition wf (st : Recorder) : bool :=
  negb (tail_is_state (types st)) && wf_open st.

Definition as_state (c : Cmd) : option SetState :=
  match body c with CSetState s => Some s | _ => None end.

(** The state records of a buffer, in order. *)
Definition states_of (buf : list Cmd) : list SetState := omap as_state buf.

(** The state record nearest to the end of [buf]: the active state once
    [buf] has been traversed. *)
Fixpoint last_state (buf : list Cmd) : option SetState :=
  match buf with
  | [] => None
  | c :: rest =>
      match last_state rest with
      | Some s => Some s
      | None => as_state c
      end
  end.

(** The candidate state a request resolves, given the pipeline built for
    it: lines 357-366 and 384-392. *)
Definition candidate (w : World) (req : Request) : option SetState :=
  match req with
  | DrawPathReq pp _ _ pi | DrawPathsReq pp _ _ _ _ _ _ _ pi =>
      let pipeline := (setupPipeline w pi).2 in
      Some {| fPrimitiveProcessor := Some pp; fPipeline := pipeline;
              fBatchTracker := initBatchTracker pp (getInitBatchTracker pipeline) |}
  | DrawBatchReq _ pi =>
      Some {| fPrimitiveProcessor := None; fPipeline := (setupPipeline w pi).2;
              fBatchTracker := GrBatchTracker_new |}
  | _ => None
  end.

(** Equality of two state records in the words of the specification: both
    have a primitive, the primitive layer calls them interchangeable given
    their tracking data and the pipelines are equal; or both lack a
    primitive and the pipelines are equal. *)
Definition states_equal (a b : SetState) : bool :=
  match fPrimitiveProcessor a, fPrimitiveProcessor b with
  | Some pa, Some pb =>
      canMakeEqual pa (fBatchTracker a) pb (fBatchTracker b)
      && isEqual (fPipeline a) (fPipeline b)
  | None, None => isEqual (fPipeline a) (fPipeline b)
  | _, _ => false
  end.

(** ** State resolution in one step

    What [setupPipelineAndShouldDraw] amounts to on a recorder whose
    [fPrevState] points to the last state record ([setup_resolve] and
    [setup_batch_resolve] below): the candidate is dropped when the
    pipeline must be skipped or when the active state equals it, and is
    appended otherwise. *)

Definition kept (w : World) (st : Recorder) (cand : SetState)
  : World * Recorder * bool :=
  let '(w, m) := recordTraceMarkersIfNecessary w None in
  (w, {| fCmdBuffer := fCmdBuffer st ++ [{| fMarkerID := m; body := CSetState cand |}];
         fPrevState := Some (length (fCmdBuffer st));
         fDrawBatch := fDrawBatch st |}, true).

Definition resolve (w_skip w_draw : World) (st : Recorder) (cand : SetState)
  : World * Recorder * bool :=
  if mustSkip (fPipeline cand) then (w_skip, st, false)
  else
    match last_state (fCmdBuffer st) with
    | Some prev =>
        if states_equal prev cand then (w_draw, st, true) else kept w_draw st cand
    | None => kept w_draw st cand
    end.

(** ** Folding a run of [DrawPaths] requests

    The conditions under which a request joins the trailing record
    [previous] while [active] is the active state, in the words of the
    specification: same path range, element types and stencil settings,
    winding fill, no blending, a pipeline that is drawn and a state equal
    to the active one, and pool addresses that continue the record's.
    [shares_and_continues] gathers the conditions on the request and the
    pool, [resolves_to] those on the state. *)

Definition shares_and_continues (w : World) (previous : DrawPaths)
    (req : Request) : Prop :=
  match req with
  | DrawPathsReq pp pr iv ity tv tty n ss pi =>
      pr = pathRange previous
      ∧ ity = fIndexType previous
      ∧ tty = fTransformType previous
      ∧ ss = fStencilSettings previous
      ∧ path_fill_type_is_winding ss = true
      ∧ willBlendWithDst pi pp = false
      ∧ let saved :=
          (appendIndicesAndTransforms (setupPipeline w pi).1 iv ity tv tty n).2 in
        saved.1 = char_at (fIndices previous)
                    (int_mul (fCount previous) (PathIndexSizeInBytes ity))
        ∧ (PathTransformSize tty = 0%Z
           ∨ saved.2 = float_at (fTransforms previous)
                         (int_mul (fCount previous) (PathTransformSize tty)))
  | _ => False
  end.

(** The request is drawn and its state equals the active one. *)
Definition resolves_to (w : World) (active : SetState) (req : Request) : Prop :=
  match candidate w req with
  | Some cand =>
      mustSkip (fPipeline cand) = false ∧ states_equal active cand = true
  | None => False
  end.

Definition foldable (w : World) (active : SetState) (previous : DrawPaths)
    (req : Request) : Prop :=
  shares_and_continues w previous req ∧ resolves_to w active req.

Definition request_count (req : Request) : Z :=
  match req with
  | DrawPathsReq _ _ _ _ _ _ n _ _ => n
  | _ => 0%Z
  end.

(** The world once a folded request has stored its indices and transforms. *)
Definition world_after (w : World) (req : Request) : World :=
  match req with
  | DrawPathsReq _ _ iv ity tv tty n _ pi =>
      (appendIndicesAndTransforms (setupPipeline w pi).1 iv ity tv tty n).1
  | _ => w
  end.

Fixpoint foldable_run (w : World) (active : SetState) (previous : DrawPaths)
    (reqs : list Request) : Prop :=
  match reqs with
  | [] => True
  | req :: rest =>
      foldable w active previous req
      ∧ foldable_run (world_after w req) active
          (add_count previous (request_count req)) rest
  end.

(** The sum of the counts of a run, exact and on [int]. *)
Definition total_count (reqs : list Request) : Z :=
  foldr (λ req acc, (request_count req + acc)%Z) 0%Z reqs.

Definition folded_count (count : Z) (reqs : list Request) : Z :=
  foldl (λ acc req, int_add acc (request_count req)) count reqs.

(** Two recorders hold the same state records and track the same one. *)
Definition same_states (st st' : Recorder) : Prop :=
  states_of (fCmdBuffer st') = states_of (fCmdBuffer st)
  ∧ last_state (fCmdBuffer st') = last_state (fCmdBuffer st)
  ∧ fPrevState st' = fPrevState st.

(** ** Counting *)

Fixpoint count_if {A} (P : A → bool) (l : list A) : nat :=
  match l with
  | [] => 0
  | x :: rest => (if P x then 1 else 0) + count_if P rest
  end.

(** The draw calls made on the GPU. *)
Definition is_gpu_draw (e : Event) : bool :=
  match e with
  | gpu_draw _ _ | gpu_stencilPath _ | gpu_drawPath _ _ | gpu_drawPaths _ _ => true
  | _ => false
  end.

Definition is_flushNext (e : Event) : bool :=
  match e with flushNext _ => true | _ => false end.

(** The draw family of the specification, and its members that [flush]
    dispatches to the GPU itself. *)
Definition is_draw_family (c : Cmd) : bool :=
  match type c with
  | kDraw_CmdType | kStencilPath_CmdType | kDrawPath_CmdType
  | kDrawPaths_CmdType | kDrawBatch_CmdType => true
  | _ => false
  end.

Definition is_gpu_drawn (c : Cmd) : bool :=
  match type c with
  | kDraw_CmdType | kStencilPath_CmdType | kDrawPath_CmdType
  | kDrawPaths_CmdType => true
  | _ => false
  end.

Definition is_batch (c : Cmd) : bool := bool_decide (type c = kDrawBatch_CmdType).

(** ** Kinds of requests and of calls *)

(** The kind of record a request asks for. *)
Definition request_kind (req : Request) : option CmdType :=
  match req with
  | DrawBatchReq _ _ => Some kDrawBatch_CmdType
  | StencilPathReq _ _ _ _ _ => Some kStencilPath_CmdType
  | DrawPathReq _ _ _ _ => Some kDrawPath_CmdType
  | DrawPathsReq _ _ _ _ _ _ _ _ _ => Some kDrawPaths_CmdType
  | ClearReq _ _ _ _ | DiscardReq _ => Some kClear_CmdType
  | ClearStencilClipReq _ _ _ => Some kClearStencilClip_CmdType
  | CopySurfaceReq _ _ _ _ => Some kCopySurface_CmdType
  | ResetReq | TraceReq _ => None
  end.

Definition is_add_marker (e : Event) : bool :=
  match e with gpu_addGpuTraceMarker _ => true | _ => false end.

Definition is_remove_marker (e : Event) : bool :=
  match e with gpu_removeGpuTraceMarker _ => true | _ => false end.

Definition is_marker (e : Event) : bool := is_add_marker e || is_remove_marker e.

Definition is_generateGeometry (e : Event) : bool :=
  match e with generateGeometry _ _ => true | _ => false end.

Definition is_buildProgramDesc (e : Event) : bool :=
  match e with gpu_buildProgramDesc _ _ _ => true | _ => false end.

(** The state records that carry a primitive processor. *)
Definition is_primitive_state (c : Cmd) : bool :=
  match as_state c with Some s => has_primitive s | None => false end.

(** The state record a request appends, if any: none when the pipeline is
    skipped or the active state equals the candidate. *)
Definition emitted_state (buf : list Cmd) (cand : SetState) : list SetState :=
  if mustSkip (fPipeline cand)
     || match last_state buf with
        | Some active => states_equal active cand
        | None => false
        end
  then []
  else [cand].

(** The call on the GPU that a request made without a pipeline asks for,
    read off the request: the arguments of [recordStencilPath],
    [recordClear], [recordClearStencilClip], [recordDiscard] and
    [recordCopySurface] as the [execute] methods pass them on. *)
Definition explicit_call (req : Request) : option Event :=
  match req with
  | StencilPathReq pb pp path sc ss =>
      Some (gpu_stencilPath
              {| sp_path := path; sp_fRenderTarget := getRenderTarget pb;
                 fScissor := sc; fUseHWAA := isHWAntialias pb;
                 fViewMatrix := viewMatrix pp; fStencil := ss |})
  | ClearReq r c i rt =>
      Some (if bool_decide (GrColor_ILLEGAL = c) then gpu_discard rt
            else gpu_clear
                   (Some match r with
                         | Some r => r
                         | None => setLTRB 0 0 (rt_width rt) (rt_height rt)
                         end)
                   c (Some i) rt)
  | ClearStencilClipReq r i rt => Some (gpu_clearStencilClip r i rt)
  | DiscardReq rt => Some (gpu_discard rt)
  | CopySurfaceReq d s r p => Some (gpu_copySurface d s r p)
  | _ => None
  end.

End Model.

(** ** A concrete set of collaborators

    Small stand-ins for the absent layers, used to run the recorder on
    explicit requests: pipelines and processors are numbered, a pipeline
    numbered 0 must be skipped, and the pools hand out consecutive
    addresses. *)

Module Demo.

Inductive IndexType := kU8_PathIndexType | kU16_PathIndexType | kU32_PathIndexType.

Inductive TransformType :=
| kNone_PathTransformType | kTranslateX_PathTransformType
| kTranslateY_PathTransformType | kTranslate_PathTransformType
| kAffine_PathTransformType.

(** The two stencil settings of path rendering: counting up for a winding
    fill, inverting for an even-odd fill. *)
Inductive StencilOp := IncClamp | Invert.

#[global] Instance StencilOp_eq_dec : EqDecision StencilOp.
Proof. solve_decision. Defined.

#[global] Instance IndexType_eq_dec : EqDecision IndexType.
Proof. solve_decision. Defined.

#[global] Instance TransformType_eq_dec : EqDecision TransformType.
Proof. solve_decision. Defined.

Definition index_size (t : IndexType) : Z :=
  match t with
  | kU8_PathIndexType => 1
  | kU16_PathIndexType => 2
  | kU32_PathIndexType => 4
  end.

Definition transform_size (t : TransformType) : Z :=
  match t with
  | kNone_PathTransformType => 0
  | kTranslateX_PathTransformType | kTranslateY_PathTransformType => 1
  | kTranslate_PathTransformType => 2
  | kAffine_PathTransformType => 6
  end.

(** The next free address of the index pool and of the transform pool. *)
Record Pools := { next_index : Z; next_transform : Z }.

(** What the recorder is told about a draw: the number of the pipeline it
    resolves to and whether it blends with the destination. *)
Record Info := { pipeline_of : Z; blends : bool }.

Definition append (w : Pools) (indexValues : Z) (indexType : IndexType)
    (transformValues : Z) (transformType : TransformType) (count : Z)
  : Pools * (Z * Z) :=
  let indexBytes := index_size indexType in
  let xformBytes := (transform_size transformType * 4)%Z in
  if bool_decide (xformBytes = 0%Z)
  then ({| next_index := next_index w + count * indexBytes;
           next_transform := next_transform w |}, (next_index w, 0%Z))
  else ({| next_index := next_index w + count * indexBytes;
           next_transform := next_transform w + count * xformBytes |},
        (next_index w, next_transform w)).

Definition collaborators : Collaborators := {|
  World := Pools;
  GrPrimitiveProcessor := Z;
  GrPipeline := Z;
  PipelineInfo := Info;
  GrPipelineBuilder := GrRenderTarget * bool;
  GrBatchTracker := unit;
  InitBT := unit;
  GrStencilSettings := StencilOp;
  GrStencilOp := StencilOp;
  Face := unit;
  GrScissorState := unit;
  SkMatrix := unit;
  PathIndexType := IndexType;
  PathTransformType := TransformType;
  DrawInfo := unit;
  GrColor_ILLEGAL := 16777215;
  kInvert_StencilOp := Invert;
  kFront_Face := tt;
  passOp := λ s _, s;
  PathIndexSizeInBytes := index_size;
  PathTransformSize := transform_size;
  setupPipeline := λ w i, (w, pipeline_of i);
  mustSkip := λ p, bool_decide (p = 0%Z);
  getInitBatchTracker := λ _, tt;
  isEqual := λ a b, bool_decide (a = b);
  willBlendWithDst := λ i _, blends i;
  GrBatchTracker_new := tt;
  initBatchTracker := λ _ _, tt;
  canMakeEqual := λ a _ b _, bool_decide (a = b);
  viewMatrix := λ _, tt;
  getRenderTarget := fst;
  isHWAntialias := snd;
  batch_initBatchTracker := λ w _ _, w;
  combineIfPossible := λ w a b, (w, bool_decide ((a `div` 100)%Z = (b `div` 100)%Z));
  appendIndicesAndTransforms := append;
  recordTraceMarkersIfNecessary := λ w m, (w, m);
|}.

Definition pools0 : Pools := {| next_index := 4096; next_transform := 8192 |}.

Definition target : GrRenderTarget := {| rt_addr := 64; rt_width := 640; rt_height := 480 |}.

#[local] Existing Instance collaborators.

Definition info (p : Z) : PipelineInfo := {| pipeline_of := p; blends := false |}.

(** A [recordDrawPaths] request for [n] glyphs of the path range at 100,
    drawn by processor 7 with pipeline [p]. *)
Definition glyphs (n : Z) (stencil : StencilOp) (p : Z) : Request :=
  DrawPathsReq (7%Z : GrPrimitiveProcessor) 100 200 kU16_PathIndexType
    300 kTranslate_PathTransformType n (stencil : GrStencilSettings) (info p).

Definition state (p : Z) : SetState :=
  {| fPrimitiveProcessor := Some (7%Z : GrPrimitiveProcessor);
     fPipeline := (p : GrPipeline);
     fBatchTracker := (tt : GrBatchTracker) |}.

Definition run (n indices transforms : Z) (stencil : StencilOp) : DrawPaths :=
  {| pathRange := 100; fIndices := indices;
     fIndexType := (kU16_PathIndexType : PathIndexType);
     fTransforms := transforms;
     fTransformType := (kTranslate_PathTransformType : PathTransformType);
     fCount := n; fStencilSettings := (stencil : GrStencilSettings) |}.

(** The recorder and the pools after [glyphs 3 IncClamp 1] on a
    fresh recorder. *)
Definition after_three : Recorder :=
  {| fCmdBuffer := [new_cmd (CSetState (state 1));
                    new_cmd (CDrawPaths (run 3 4096 8192 IncClamp))];
     fPrevState := Some 0; fDrawBatch := None |}.

Definition pools_after_three : Pools := {| next_index := 4102; next_transform := 8216 |}.

Definition pools_after_eight : Pools := {| next_index := 4112; next_transform := 8256 |}.

Definition after_eight : Recorder :=
  {| fCmdBuffer := [new_cmd (CSetState (state 1));
                    new_cmd (CDrawPaths (run 8 4096 8192 IncClamp))];
     fPrevState := Some 0; fDrawBatch := None |}.

(** The recorder after a second request of five glyphs whose pipeline is
    2 and no longer 1. *)
Definition after_three_and_five : Recorder :=
  {| fCmdBuffer := [new_cmd (CSetState (state 1));
                    new_cmd (CDrawPaths (run 3 4096 8192 IncClamp));
                    new_cmd (CSetState (state 2));
                    new_cmd (CDrawPaths (run 5 4102 8216 IncClamp))];
     fPrevState := Some 2; fDrawBatch := None |}.

Definition batch_state : SetState :=
  {| fPrimitiveProcessor := None; fPipeline := (3%Z : GrPipeline);
     fBatchTracker := (tt : GrBatchTracker) |}.

(** The recorder after [DrawBatchReq 500 (info 3)] on a fresh recorder. *)
Definition one_batch : Recorder :=
  {| fCmdBuffer := [new_cmd (CSetState batch_state); new_cmd (CDrawBatch 500)];
     fPrevState := Some 0; fDrawBatch := Some 1 |}.

Definition one_batch_visits : list Visit :=
  [{| v_cmd := new_cmd (CSetState batch_state); v_state := None; v_events := [] |};
   {| v_cmd := new_cmd (CDrawBatch 500); v_state := Some batch_state;
      v_events := [flushNext 500] |}].

Definition stencil_request : Request :=
  StencilPathReq ((target, false) : GrPipelineBuilder)
    (7%Z : GrPrimitiveProcessor) 55 (tt : GrScissorState)
    (IncClamp : GrStencilSettings).

Definition stencil_record : StencilPath :=
  {| sp_path := 55; sp_fRenderTarget := target; fScissor := (tt : GrScissorState);
     fUseHWAA := false; fViewMatrix := (tt : SkMatrix);
     fStencil := (IncClamp : GrStencilSettings) |}.

Definition one_stencil : Recorder :=
  {| fCmdBuffer := [new_cmd (CStencilPath stencil_record)];
     fPrevState := None; fDrawBatch := None |}.

End Demo.

(** * The generated getters of the PDF dictionaries

    A shallow embedding of the two generated files
    [SkPdfAttributeObjectDictionary_autogen.cpp] and
    [SkPdfDctdecodeFilterDictionary_autogen.cpp].  A
    [SkPdfNativeObject*] is an [option]; a method call through a null
    pointer is the failure [None].  The object layer itself ([get],
    [resolveReference] and the accessors of a native object) lies outside
    the two files and is a parameter. *)

Class NativeObjects := {
  SkPdfNativeObject : Type;
  SkPdfNativeDoc : Type;
  (** The dictionary object the getter is called on. *)
  SkPdfDictionary : Type;
  SkString : Type;
  (** [SkString()]. *)
  SkString_new : SkString;
  (** [this->get(key, abbr)]. *)
  get : SkPdfDictionary → string → string → option SkPdfNativeObject;
  (** [doc->resolveReference(ret)]. *)
  resolveReference :
    SkPdfNativeDoc → option SkPdfNativeObject → option SkPdfNativeObject;
  isName : SkPdfNativeObject → bool;
  isInteger : SkPdfNativeObject → bool;
  isReference : SkPdfNativeObject → bool;
  nameValue2 : SkPdfNativeObject → SkString;
  intValue : SkPdfNativeObject → Z;
}.

Section Getters.
Context `{NativeObjects}.

(** [a && b] and [a || b], where [b] is evaluated only when [a] does not
    decide the result. *)
Definition and_then (a : bool) (b : option bool) : option bool :=
  if a then b else Some false.

Definition or_else (a : bool) (b : option bool) : option bool :=
  if a then Some true else b.

(** [SkPdfAttributeObjectDictionary::O]. *)
Definition SkPdfAttributeObjectDictionary_O (this : SkPdfDictionary)
    (doc : option SkPdfNativeDoc) : option SkString :=
  let ret := get this "O" EmptyString in
  let ret := match doc with Some d => resolveReference d ret | None => ret end in
  named ← and_then (negb (is_null ret)) (isName <$> ret);
  taken ← or_else named
            (and_then (is_null doc)
               (and_then (negb (is_null ret)) (isReference <$> ret)));
  if (taken : bool) then nameValue2 <$> ret else Some SkString_new.

(** [SkPdfAttributeObjectDictionary::has_O]. *)
Definition SkPdfAttributeObjectDictionary_has_O (this : SkPdfDictionary) : bool :=
  negb (is_null (get this "O" EmptyString)).

(** [SkPdfDctdecodeFilterDictionary::ColorTransform]. *)
Definition SkPdfDctdecodeFilterDictionary_ColorTransform (this : SkPdfDictionary)
    (doc : option SkPdfNativeDoc) : option Z :=
  let ret := get this "ColorTransform" EmptyString in
  let ret := match doc with Some d => resolveReference d ret | None => ret end in
  whole ← and_then (negb (is_null ret)) (isInteger <$> ret);
  taken ← or_else whole
            (and_then (is_null doc)
               (and_then (negb (is_null ret)) (isReference <$> ret)));
  if (taken : bool) then intValue <$> ret else Some 0%Z.

(** [SkPdfDctdecodeFilterDictionary::has_ColorTransform]. *)
Definition SkPdfDctdecodeFilterDictionary_has_ColorTransform
    (this : SkPdfDictionary) : bool :=
  negb (is_null (get this "ColorTransform" EmptyString)).

End Getters.

(** ** A concrete object layer

    Dictionaries as association lists, a document as the list of its
    indirect objects, a reference as an index into it. *)

Module PdfDemo.

Inductive Object :=
| Name (s : string)
| Integer (n : Z)
| Reference (id : nat).

Fixpoint lookup_key (d : list (string * Object)) (key : string) : option Object :=
  match d with
  | [] => None
  | (k, o) :: rest => if bool_decide (k = key) then Some o else lookup_key rest key
  end.

Definition resolve (doc : list Object) (ret : option Object) : option Object :=
  match ret with
  | Some (Reference id) => doc !! id
  | other => other
  end.

Definition objects : NativeObjects := {|
  SkPdfNativeObject := Object;
  SkPdfNativeDoc := list Object;
  SkPdfDictionary := list (string * Object);
  SkString := string;
  SkString_new := EmptyString;
  get := λ d key _, lookup_key d key;
  resolveReference := resolve;
  isName := λ o, match o with Name _ => true | _ => false end;
  isInteger := λ o, match o with Integer _ => true | _ => false end;
  isReference := λ o, match o with Reference _ => true | _ => false end;
  nameValue2 := λ o, match o with Name s => s | _ => EmptyString end;
  intValue := λ o, match o with Integer n => n | _ => 0%Z end;
|}.

(** A dictionary whose owner is an indirect reference, and one without
    the key. *)
Definition by_reference : list (string * Object) := [("O"%string, Reference 0)].

Definition without_key : list (string * Object) :=
  [("Subtype"%string, Name "Layout")].

End PdfDemo.


(** * Properties *)

Section Facts.
Context `{Collaborators}.

(** ** Machine arithmetic *)

Lemma wrap32_small z : (INT_MIN ≤ z ≤ INT_MAX)%Z → wrap32 z = z.
Proof.
  unfold wrap32, INT_MIN, INT_MAX. intros Hz.
  rewrite Z.mod_small; lia.
Qed.

Lemma wrap32_add_idemp a b : wrap32 (wrap32 a + b) = wrap32 (a + b).
Proof.
  unfold wrap32. f_equal.
  replace ((a + 2 ^ 31) `mod` 2 ^ 32 - 2 ^ 31 + b + 2 ^ 31)%Z
    with ((a + 2 ^ 31) `mod` 2 ^ 32 + b)%Z by lia.
  rewrite Z.add_mod_idemp_l by lia. f_equal. lia.
Qed.

(** ** Lists as a recorder uses them *)

Lemma with_buffer_id st : with_buffer st (fCmdBuffer st) = st.
Proof. by destruct st. Qed.

Lemma pop_push st c : pop_back (push_back st c) = st.
Proof.
  unfold pop_back, push_back, with_buffer. simpl.
  rewrite removelast_last. by destruct st.
Qed.

Lemma lookup_snoc {A} (l : list A) x : (l ++ [x]) !! length l = Some x.
Proof. by rewrite lookup_app_r, Nat.sub_diag. Qed.

Lemma insert_snoc {A} (l : list A) x y : <[length l := y]> (l ++ [x]) = l ++ [y].
Proof. by rewrite insert_app_r_alt, Nat.sub_diag. Qed.

Lemma store_push st c c' :
  store (length (fCmdBuffer st)) c' (push_back st c) = push_back st c'.
Proof. unfold store, push_back, with_buffer. simpl. by rewrite insert_snoc. Qed.

(** ** The shape functions on an append *)

Lemma tail_is_state_snoc ts t : tail_is_state (ts ++ [t]) = is_state t.
Proof. unfold tail_is_state. by rewrite last_snoc. Qed.

Lemma last_index_snoc t ts u :
  last_index t (ts ++ [u])
  = if bool_decide (u = t) then Some (length ts) else last_index t ts.
Proof.
  induction ts as [|v ts IH]; simpl.
  - by case_bool_decide.
  - rewrite IH. case_bool_decide; [done|]. done.
Qed.

Lemma last_index_lookup t ts i : last_index t ts = Some i → ts !! i = Some t.
Proof.
  revert i. induction ts as [|v ts IH]; intros i; simpl; [done|].
  destruct (last_index t ts) as [j|].
  - intros [= <-]. by apply IH.
  - case_bool_decide; [|done]. intros [= <-]. by subst.
Qed.

Lemma staged_snoc seen ts t :
  staged seen (ts ++ [t])
  = staged seen ts
    && (is_state t || negb (needs_state t) || seen
        || negb (is_null (last_index kSetState_CmdType ts))).
Proof.
  revert seen. induction ts as [|u ts IH]; intros seen; simpl.
  - destruct (is_state t), (needs_state t), seen; done.
  - destruct (decide (u = kSetState_CmdType)) as [->|Hu].
    + change (is_state kSetState_CmdType) with true. cbn iota.
      rewrite IH, bool_decide_eq_true_2 by done.
      destruct (last_index kSetState_CmdType ts); simpl;
        destruct (staged true ts), (is_state t), (needs_state t), seen; done.
    + assert (is_state u = false) as ->
        by (unfold is_state; by rewrite bool_decide_eq_false_2).
      rewrite IH, (bool_decide_eq_false_2 (u = kSetState_CmdType)) by done.
      destruct (last_index kSetState_CmdType ts); simpl;
        destruct (needs_state u), seen, (staged true ts), (staged false ts),
          (is_state t), (needs_state t); done.
Qed.

Lemma no_adjacent_states_snoc ts t :
  no_adjacent_states (ts ++ [t])
  = no_adjacent_states ts && negb (tail_is_state ts && is_state t).
Proof.
  induction ts as [|u ts IH]; [done|].
  destruct ts as [|v ts].
  - simpl. unfold tail_is_state. simpl.
    destruct (is_state u), (is_state t); done.
  - change (no_adjacent_states ((u :: v :: ts) ++ [t]))
      with (negb (is_state u && is_state v)
            && no_adjacent_states ((v :: ts) ++ [t])).
    rewrite IH.
    change (no_adjacent_states (u :: v :: ts))
      with (negb (is_state u && is_state v) && no_adjacent_states (v :: ts)).
    replace (tail_is_state (u :: v :: ts)) with (tail_is_state (v :: ts))
      by done.
    by rewrite andb_assoc.
Qed.

Lemma as_state_type c : is_state (type c) = negb (is_null (as_state c)).
Proof. unfold is_state, type, as_state. by destruct (body c). Qed.

Lemma last_state_snoc buf c :
  last_state (buf ++ [c])
  = match as_state c with Some s => Some s | None => last_state buf end.
Proof.
  induction buf as [|d buf IH]; simpl.
  - by destruct (as_state c).
  - rewrite IH. by destruct (as_state c), (last_state buf).
Qed.

Lemma states_of_snoc buf c :
  states_of (buf ++ [c])
  = states_of buf ++ match as_state c with Some s => [s] | None => [] end.
Proof. unfold states_of. rewrite omap_app. simpl. by destruct (as_state c). Qed.

(** [fPrevState], when it points to the last state record, reads the
    active state. *)
Lemma last_state_None buf :
  last_index kSetState_CmdType (type <$> buf) = None → last_state buf = None.
Proof.
  induction buf as [|c buf IH]; csimpl; [done|].
  destruct (last_index kSetState_CmdType (type <$> buf)); [done|].
  case_bool_decide as Hc; [done|]. intros _. rewrite IH by done.
  pose proof (as_state_type c) as Hs. unfold is_state in Hs.
  rewrite bool_decide_eq_false_2 in Hs by done.
  by destruct (as_state c).
Qed.

Lemma last_state_Some buf i :
  last_index kSetState_CmdType (type <$> buf) = Some i →
  ∃ c s, buf !! i = Some c ∧ body c = CSetState s ∧ last_state buf = Some s.
Proof.
  revert i. induction buf as [|c buf IH]; intros i; csimpl; [done|].
  destruct (last_index kSetState_CmdType (type <$> buf)) as [j|] eqn:Hj.
  - intros [= <-]. destruct (IH j eq_refl) as (d & s & Hd & Hb & Hs).
    exists d, s. by rewrite Hs.
  - case_bool_decide as Hc; [|done]. intros [= <-].
    rewrite (last_state_None buf Hj).
    pose proof (as_state_type c) as Hs. unfold is_state in Hs.
    rewrite bool_decide_eq_true_2 in Hs by done.
    unfold as_state in *. destruct (body c) eqn:Hb; try done.
    by eexists _, _.
Qed.

Lemma deref_last_state st :
  fPrevState st = last_index kSetState_CmdType (types st) →
  match fPrevState st with
  | Some p => deref_SetState st p
  | None => None
  end = last_state (fCmdBuffer st).
Proof.
  intros Hp. unfold types in Hp.
  destruct (fPrevState st) as [p|].
  - destruct (last_state_Some _ _ (eq_sym Hp)) as (c & s & Hc & Hb & Hs).
    unfold deref_SetState. rewrite Hc. simpl. by rewrite Hb, Hs.
  - by rewrite last_state_None.
Qed.

(** ** State resolution *)

Lemma prev_equal_prim_spec prev pp pl bt :
  prev_equal_prim prev
    {| fPrimitiveProcessor := Some pp; fPipeline := pl; fBatchTracker := bt |}
  = states_equal prev
      {| fPrimitiveProcessor := Some pp; fPipeline := pl; fBatchTracker := bt |}.
Proof.
  unfold prev_equal_prim, states_equal. simpl.
  by destruct (fPrimitiveProcessor prev).
Qed.

Lemma prev_equal_batch_spec prev pl bt :
  prev_equal_batch prev
    {| fPrimitiveProcessor := None; fPipeline := pl; fBatchTracker := bt |}
  = states_equal prev
      {| fPrimitiveProcessor := None; fPipeline := pl; fBatchTracker := bt |}.
Proof.
  unfold prev_equal_batch, has_primitive, states_equal. simpl.
  by destruct (fPrimitiveProcessor prev).
Qed.

Lemma keep_state_push w st cand :
  keep_state w (push_back st (new_cmd (CSetState cand))) (length (fCmdBuffer st))
  = Some (kept w st cand).
Proof.
  unfold keep_state, kept.
  change (fCmdBuffer (push_back st (new_cmd (CSetState cand))))
    with (fCmdBuffer st ++ [new_cmd (CSetState cand)]).
  rewrite lookup_snoc. simpl.
  destruct (recordTraceMarkersIfNecessary w None) as [w' m].
  simpl. by rewrite insert_snoc.
Qed.

Lemma deref_push st c p s :
  deref_SetState st p = Some s → deref_SetState (push_back st c) p = Some s.
Proof.
  unfold deref_SetState. simpl. intros Hs.
  destruct (fCmdBuffer st !! p) as [d|] eqn:Hd; [|done].
  by rewrite (lookup_app_l_Some _ _ _ _ Hd).
Qed.

Lemma deref_pushed st s :
  deref_SetState (push_back st (new_cmd (CSetState s))) (length (fCmdBuffer st))
  = Some s.
Proof. unfold deref_SetState. simpl. by rewrite lookup_snoc. Qed.

(** The overload for a primitive processor is [resolve]. *)
Lemma setup_resolve w st pp pi :
  fPrevState st = last_index kSetState_CmdType (types st) →
  setupPipelineAndShouldDraw w st pp pi
  = Some (resolve (setupPipeline w pi).1 (setupPipeline w pi).1 st
            {| fPrimitiveProcessor := Some pp;
               fPipeline := (setupPipeline w pi).2;
               fBatchTracker :=
                 initBatchTracker pp (getInitBatchTracker (setupPipeline w pi).2) |}).
Proof.
  intros Hp. unfold setupPipelineAndShouldDraw, resolve.
  destruct (setupPipeline w pi) as [w1 pl]. cbn [fst snd fPipeline].
  destruct (mustSkip pl); [by rewrite pop_push|].
  rewrite store_push.
  pose proof (deref_last_state st Hp) as Hd.
  change (fPrevState (push_back st _)) with (fPrevState st).
  destruct (fPrevState st) as [p|].
  - destruct (last_state_Some _ _ (eq_sym Hp)) as (? & prev & _ & _ & Hs).
    rewrite Hs in Hd |- *.
    rewrite (deref_push _ _ _ _ Hd), deref_pushed. simpl.
    rewrite prev_equal_prim_spec.
    destruct (states_equal prev _); [by rewrite pop_push|].
    apply keep_state_push.
  - rewrite <- Hd. apply keep_state_push.
Qed.

(** The overload for a batch is [resolve]; the batch's tracker is
    initialised only when the pipeline is not skipped. *)
Lemma setup_batch_resolve w st batch pi :
  fPrevState st = last_index kSetState_CmdType (types st) →
  setupPipelineAndShouldDraw_batch w st batch pi
  = Some (resolve (setupPipeline w pi).1
            (batch_initBatchTracker (setupPipeline w pi).1 batch
               (getInitBatchTracker (setupPipeline w pi).2))
            st
            {| fPrimitiveProcessor := None;
               fPipeline := (setupPipeline w pi).2;
               fBatchTracker := GrBatchTracker_new |}).
Proof.
  intros Hp. unfold setupPipelineAndShouldDraw_batch, resolve.
  destruct (setupPipeline w pi) as [w1 pl]. cbn [fst snd fPipeline].
  destruct (mustSkip pl); [by rewrite pop_push|].
  pose proof (deref_last_state st Hp) as Hd.
  change (fPrevState (push_back st _)) with (fPrevState st).
  destruct (fPrevState st) as [p|].
  - destruct (last_state_Some _ _ (eq_sym Hp)) as (? & prev & _ & _ & Hs).
    rewrite Hs in Hd |- *.
    rewrite (deref_push _ _ _ _ Hd), deref_pushed. simpl.
    rewrite prev_equal_batch_spec.
    destruct (states_equal prev _); [by rewrite pop_push|].
    apply keep_state_push.
  - rewrite <- Hd. apply keep_state_push.
Qed.

(** The three outcomes of state resolution. *)
Inductive resolved (w_skip w_draw : World) (st : Recorder) (cand : SetState)
  : World → Recorder → bool → Prop :=
| resolved_skip :
    mustSkip (fPipeline cand) = true →
    resolved w_skip w_draw st cand w_skip st false
| resolved_elided prev :
    mustSkip (fPipeline cand) = false →
    last_state (fCmdBuffer st) = Some prev →
    states_equal prev cand = true →
    resolved w_skip w_draw st cand w_draw st true
| resolved_kept w m :
    mustSkip (fPipeline cand) = false →
    recordTraceMarkersIfNecessary w_draw None = (w, m) →
    (∀ prev, last_state (fCmdBuffer st) = Some prev →
             states_equal prev cand = false) →
    resolved w_skip w_draw st cand w
      {| fCmdBuffer := fCmdBuffer st ++ [{| fMarkerID := m; body := CSetState cand |}];
         fPrevState := Some (length (fCmdBuffer st));
         fDrawBatch := fDrawBatch st |} true.

Lemma resolve_resolved ws wd st cand w1 st1 b :
  resolve ws wd st cand = (w1, st1, b) → resolved ws wd st cand w1 st1 b.
Proof.
  unfold resolve, kept.
  destruct (mustSkip (fPipeline cand)) eqn:Hskip.
  { intros [= <- <- <-]. by constructor. }
  destruct (last_state (fCmdBuffer st)) as [prev|] eqn:Hprev.
  - destruct (states_equal prev cand) eqn:Heq.
    + intros [= <- <- <-]. by econstructor.
    + destruct (recordTraceMarkersIfNecessary wd None) as [w2 m] eqn:Hm.
      intros [= <- <- <-]. constructor; [done..|].
      intros ? Hp. rewrite Hprev in Hp. by injection Hp as <-.
  - destruct (recordTraceMarkersIfNecessary wd None) as [w2 m] eqn:Hm.
    intros [= <- <- <-]. constructor; [done..|].
    intros ? Hp. by rewrite Hprev in Hp.
Qed.

(** ** The invariant *)

Lemma wf_open_spec st :
  wf_open st = true ↔
  fPrevState st = last_index kSetState_CmdType (types st)
  ∧ fDrawBatch st = last_index kDrawBatch_CmdType (types st)
  ∧ staged false (types st) = true
  ∧ no_adjacent_states (types st) = true.
Proof.
  unfold wf_open. rewrite !andb_true_iff, !bool_decide_eq_true. tauto.
Qed.

Lemma wf_spec st :
  wf st = true ↔ tail_is_state (types st) = false ∧ wf_open st = true.
Proof. unfold wf. by rewrite andb_true_iff, negb_true_iff. Qed.

Lemma wf_empty : wf empty_recorder = true.
Proof. reflexivity. Qed.

Lemma types_push st c : types (push_back st c) = types st ++ [type c].
Proof. unfold types. simpl. by rewrite fmap_app. Qed.

Lemma length_types st : length (types st) = length (fCmdBuffer st).
Proof. unfold types. by rewrite length_fmap. Qed.

(** A state record appended to a well-formed recorder. *)
Lemma wf_open_kept st m cand :
  wf st = true →
  wf_open {| fCmdBuffer := fCmdBuffer st ++ [{| fMarkerID := m; body := CSetState cand |}];
             fPrevState := Some (length (fCmdBuffer st));
             fDrawBatch := fDrawBatch st |} = true.
Proof.
  rewrite wf_spec, !wf_open_spec. intros (Htail & Hp & Hb & Hs & Ha).
  unfold types in *. simpl. rewrite fmap_app. simpl.
  rewrite !last_index_snoc, staged_snoc, no_adjacent_states_snoc.
  rewrite length_fmap, Hs, Ha, Htail. done.
Qed.

(** A record that is neither a state nor a batch, appended after state
    resolution. *)
Lemma wf_push st d :
  wf_open st = true →
  type d ≠ kSetState_CmdType →
  type d ≠ kDrawBatch_CmdType →
  (needs_state (type d) = true → is_Some (fPrevState st)) →
  wf (push_back st d) = true.
Proof.
  rewrite wf_spec, !wf_open_spec. intros (Hp & Hb & Hs & Ha) Hns Hnb Hneed.
  rewrite types_push, tail_is_state_snoc, !last_index_snoc, staged_snoc,
    no_adjacent_states_snoc.
  assert (is_state (type d) = false) as Hd
    by (unfold is_state; by rewrite bool_decide_eq_false_2).
  rewrite Hd, !bool_decide_eq_false_2, Hs, Ha, andb_false_r by done.
  repeat split; try done. simpl.
  destruct (needs_state (type d)); [|done]. simpl.
  rewrite <- Hp. by destruct (Hneed eq_refl) as [? ->].
Qed.

(** A batch record appended after state resolution. *)
Lemma wf_append_batch st batch :
  wf_open st = true →
  is_Some (fPrevState st) →
  wf {| fCmdBuffer := fCmdBuffer st ++ [new_cmd (CDrawBatch batch)];
        fPrevState := fPrevState st;
        fDrawBatch := Some (length (fCmdBuffer st)) |} = true.
Proof.
  rewrite wf_spec, !wf_open_spec. intros (Hp & Hb & Hs & Ha) [p Hsome].
  unfold types in *. simpl. rewrite fmap_app. simpl.
  rewrite tail_is_state_snoc, !last_index_snoc, staged_snoc,
    no_adjacent_states_snoc, length_fmap, Hs, Ha, <- Hp, Hsome.
  rewrite andb_false_r. done.
Qed.

(** A write through a pointer that keeps the kind of the record. *)
Lemma types_store st p c c0 :
  fCmdBuffer st !! p = Some c0 → type c = type c0 →
  types (store p c st) = types st.
Proof.
  intros Hc Ht. unfold types, store. simpl.
  rewrite list_fmap_insert, Ht. apply list_insert_id.
  by rewrite list_lookup_fmap, Hc.
Qed.

Lemma wf_store st p c c0 :
  fCmdBuffer st !! p = Some c0 → type c = type c0 →
  wf st = true → wf (store p c st) = true.
Proof.
  intros Hc Ht. unfold wf, wf_open.
  by rewrite (types_store _ _ _ _ Hc Ht).
Qed.

Lemma wf_wf_open st : wf st = true → wf_open st = true.
Proof. rewrite wf_spec. tauto. Qed.

Lemma wf_prev st : wf_open st = true →
  fPrevState st = last_index kSetState_CmdType (types st).
Proof. rewrite wf_open_spec. tauto. Qed.

(** After state resolution that lets the draw go on, a state is active. *)
Lemma resolved_open ws wd st cand w1 st1 :
  wf st = true → resolved ws wd st cand w1 st1 true →
  wf_open st1 = true ∧ is_Some (fPrevState st1)
  ∧ ∃ P, last_state (fCmdBuffer st1) = Some P
         ∧ (P = cand ∨ states_equal P cand = true).
Proof.
  intros Hwf Hr. inversion Hr as [|prev Hskip Hprev Heq|w2 m Hskip Hm Hne]; subst.
  - split; [by apply wf_wf_open|]. split.
    + rewrite (wf_prev _ (wf_wf_open _ Hwf)). unfold types.
      destruct (last_index kSetState_CmdType (type <$> fCmdBuffer st1)) eqn:Hi;
        [done|]. by rewrite (last_state_None _ Hi) in Hprev.
    + eauto.
  - split; [by apply wf_open_kept|]. split; [done|].
    exists cand. simpl. rewrite last_state_snoc. auto.
Qed.

Lemma back_lookup st b :
  back st = Some b → fCmdBuffer st !! (length (fCmdBuffer st) - 1) = Some b.
Proof. unfold back. rewrite last_lookup. by rewrite Nat.sub_1_r. Qed.

Lemma tail_is_state_back st b :
  back st = Some b → tail_is_state (types st) = is_state (type b).
Proof.
  unfold back, tail_is_state, types. intros Hb. by rewrite fmap_last, Hb.
Qed.

Lemma last_index_tail t ts :
  list.last ts = Some t → last_index t ts = Some (length ts - 1).
Proof.
  rewrite last_Some. intros [l ->].
  rewrite last_index_snoc, bool_decide_eq_true_2, length_app by done.
  simpl. f_equal. lia.
Qed.

(** A recorder with an active state has a last record. *)
Lemma back_is_Some st : is_Some (last_state (fCmdBuffer st)) → is_Some (back st).
Proof.
  unfold back. rewrite last_is_Some. by destruct (fCmdBuffer st); [intros [? ?]|].
Qed.

(** ** Every recorder keeps the invariant and returns *)

Lemma recordDrawPath_wf w st pp path ss pi :
  wf st = true →
  ∃ w' st' r, recordDrawPath w st pp path ss pi = Some (w', st', r)
              ∧ wf st' = true.
Proof.
  intros Hwf. unfold recordDrawPath.
  rewrite setup_resolve by (by apply wf_prev, wf_wf_open). simpl.
  destruct (resolve _ _ st _) as [[w1 st1] b] eqn:Hres.
  apply resolve_resolved in Hres. destruct b; simpl.
  - destruct (resolved_open _ _ _ _ _ _ Hwf Hres) as (Hopen & Hprev & _).
    eexists _, _, _. split; [done|]. by apply wf_push.
  - inversion Hres; subst. by eexists _, _, _.
Qed.

Lemma fold_target_body st b pp pr ity tty ss pi si sx previous :
  fold_target st b pp pr ity tty ss pi si sx = Some previous →
  body b = CDrawPaths previous.
Proof.
  unfold fold_target. destruct (body b); try done.
  repeat case_match; try done. by intros [= ->].
Qed.

Lemma recordDrawPaths_wf w st pp pr iv ity tv tty n ss pi :
  wf st = true →
  ∃ w' st' r, recordDrawPaths w st pp pr iv ity tv tty n ss pi = Some (w', st', r)
              ∧ wf st' = true.
Proof.
  intros Hwf. unfold recordDrawPaths.
  rewrite setup_resolve by (by apply wf_prev, wf_wf_open). simpl.
  destruct (resolve _ _ st _) as [[w1 st1] b] eqn:Hres.
  apply resolve_resolved in Hres. destruct b; simpl.
  - destruct (resolved_open _ _ _ _ _ _ Hwf Hres) as (Hopen & Hprev & P & HP & _).
    destruct (appendIndicesAndTransforms w1 iv ity tv tty n) as [w2 [si sx]].
    destruct (back_is_Some st1) as [c Hc]; [by rewrite HP|].
    rewrite Hc. simpl.
    destruct (fold_target st1 c pp pr ity tty ss pi si sx) as [previous|] eqn:Hf.
    + eexists _, _, _. split; [done|].
      apply fold_target_body in Hf.
      apply (wf_store _ _ _ c); [by apply back_lookup| |].
      * unfold type. simpl. by rewrite Hf.
      * rewrite wf_spec. split; [|done].
        rewrite (tail_is_state_back _ _ Hc). unfold is_state, type.
        by rewrite Hf.
    + eexists _, _, _. split; [done|]. by apply wf_push.
  - inversion Hres; subst. by eexists _, _, _.
Qed.

Lemma deref_DrawBatch_last st d :
  fDrawBatch st = last_index kDrawBatch_CmdType (types st) →
  fDrawBatch st = Some d →
  ∃ c tracked, fCmdBuffer st !! d = Some c ∧ body c = CDrawBatch tracked
               ∧ deref_DrawBatch st d = Some tracked.
Proof.
  intros Hl Hd. rewrite Hd in Hl. symmetry in Hl.
  apply last_index_lookup in Hl. unfold types in Hl.
  rewrite list_lookup_fmap in Hl.
  destruct (fCmdBuffer st !! d) as [c|] eqn:Hc; [|done].
  simpl in Hl. injection Hl as Ht. unfold type in Ht.
  destruct (body c) as [| | | | | | | |tracked] eqn:Hb; try done.
  exists c, tracked. unfold deref_DrawBatch. rewrite Hc. simpl. by rewrite Hb.
Qed.

Lemma recordDrawBatch_wf w st batch pi :
  wf st = true →
  ∃ w' st' r, recordDrawBatch w st batch pi = Some (w', st', r)
              ∧ wf st' = true.
Proof.
  intros Hwf. unfold recordDrawBatch.
  rewrite setup_batch_resolve by (by apply wf_prev, wf_wf_open). simpl.
  destruct (resolve _ _ st _) as [[w1 st1] b] eqn:Hres.
  apply resolve_resolved in Hres. destruct b; simpl.
  - destruct (resolved_open _ _ _ _ _ _ Hwf Hres) as (Hopen & Hprev & P & HP & _).
    destruct (back_is_Some st1) as [c Hc]; [by rewrite HP|].
    rewrite Hc. simpl. unfold append_DrawBatch.
    destruct (negb (bool_decide (kDrawBatch_CmdType = type c))
              || is_null (fDrawBatch st1)) eqn:Hcond.
    { eexists _, _, _. split; [done|]. by apply wf_append_batch. }
    apply orb_false_iff in Hcond as [Hty Hnull].
    apply negb_false_iff, bool_decide_eq_true in Hty.
    destruct (fDrawBatch st1) as [d|] eqn:Hd; [|done]. simpl.
    pose proof Hopen as Hopen'. rewrite wf_open_spec in Hopen'.
    destruct Hopen' as (_ & Hb & _).
    rewrite Hd in Hb.
    destruct (deref_DrawBatch_last st1 d) as (? & tracked & _ & _ & ->);
      [by rewrite Hd|done|]. simpl.
    destruct (combineIfPossible w1 tracked batch) as [w2 combined].
    destruct combined; simpl.
    + eexists _, _, _. split; [done|]. rewrite wf_spec. split; [|done].
      rewrite (tail_is_state_back _ _ Hc). unfold is_state.
      by rewrite <- Hty.
    + eexists _, _, _. split; [done|]. by apply wf_append_batch.
  - inversion Hres; subst. by eexists _, _, _.
Qed.

Lemma record_wf w st req w' st' r :
  wf st = true → record w st req = Some (w', st', r) → wf st' = true.
Proof.
  intros Hwf. destruct req; simpl.
  - destruct (recordDrawBatch_wf w st batch pipelineInfo Hwf)
      as (? & ? & ? & -> & ?). by intros [= <- <- <-].
  - intros [= <- <- <-]. by apply wf_push; [apply wf_wf_open|..].
  - destruct (recordDrawPath_wf w st pathProc path stencilSettings pipelineInfo Hwf)
      as (? & ? & ? & -> & ?). by intros [= <- <- <-].
  - destruct (recordDrawPaths_wf w st pathProc pathRange' indexValues indexType
                transformValues transformType count stencilSettings pipelineInfo Hwf)
      as (? & ? & ? & -> & ?). by intros [= <- <- <-].
  - intros [= <- <- <-]. by apply wf_push; [apply wf_wf_open|..].
  - intros [= <- <- <-]. by apply wf_push; [apply wf_wf_open|..].
  - intros [= <- <- <-]. by apply wf_push; [apply wf_wf_open|..].
  - intros [= <- <- <-]. by apply wf_push; [apply wf_wf_open|..].
  - intros [= <- <- <-]. done.
  - unfold trace_cmd. destruct (fCmdBuffer st !! cmd) as [c|] eqn:Hc; [|done].
    simpl. destruct (recordTraceMarkersIfNecessary w (fMarkerID c)) as [w2 m].
    intros [= <- <- <-]. by apply (wf_store _ _ _ c).
Qed.

(** Every recorder reachable from a fresh one satisfies the invariant. *)
Lemma reachable_wf st : reachable st → wf st = true.
Proof.
  induction 1 as [|w st req w' st' r _ IH Hrec]; [done|].
  by apply (record_wf _ _ _ _ _ _ IH Hrec).
Qed.

(** On a well-formed recorder every recording request returns. *)
Lemma record_total w st req :
  wf st = true → (∀ cmd, req ≠ TraceReq cmd) → is_Some (record w st req).
Proof.
  intros Hwf Hreq. destruct req; simpl; try done.
  - destruct (recordDrawBatch_wf w st batch pipelineInfo Hwf)
      as (? & ? & ? & -> & ?). done.
  - destruct (recordDrawPath_wf w st pathProc path stencilSettings pipelineInfo Hwf)
      as (? & ? & ? & -> & ?). done.
  - destruct (recordDrawPaths_wf w st pathProc pathRange' indexValues indexType
                transformValues transformType count stencilSettings pipelineInfo Hwf)
      as (? & ? & ? & -> & ?). done.
  - by destruct (Hreq cmd).
Qed.

(** ** Flush *)

Lemma count_if_app {A} (P : A → bool) l1 l2 :
  count_if P (l1 ++ l2) = count_if P l1 + count_if P l2.
Proof. induction l1 as [|x l1 IH]; simpl; [done|]. rewrite IH. lia. Qed.

Lemma count_if_markers (P : Event → bool) c :
  (∀ m, P (gpu_addGpuTraceMarker m) = false) →
  (∀ m, P (gpu_removeGpuTraceMarker m) = false) →
  count_if P (open_marker c) = 0 ∧ count_if P (close_marker c) = 0.
Proof.
  intros Ha Hr. unfold open_marker, close_marker.
  destruct (fMarkerID c); simpl; by rewrite ?Ha, ?Hr.
Qed.

(** The state in [currentState] after an iteration. *)
Lemma visit_next tb c cur evs next :
  visit tb c cur = Some (evs, next) →
  next = match as_state c with Some s => Some s | None => cur end.
Proof.
  unfold visit, as_state.
  destruct (body c); simpl; intros Hv; simplify_option_eq; done.
Qed.

Lemma visit_is_Some tb c cur :
  (needs_state (type c) = true → is_Some cur) → is_Some (visit tb c cur).
Proof.
  unfold visit, type. destruct (body c) as [| |ss| | | | | |]; simpl; intros Hs;
    try done; try (destruct Hs as [s ->]; done).
  - destruct tb, (has_primitive ss), (fPrimitiveProcessor ss); done.
  - by destruct (bool_decide _).
Qed.

Lemma execute_counts b cur evs :
  execute b cur = Some evs →
  count_if is_gpu_draw evs
  = match b with
    | CDraw _ | CStencilPath _ | CDrawPath _ | CDrawPaths _ => 1
    | _ => 0
    end
  ∧ count_if is_flushNext evs = 0.
Proof.
  destruct b as [| |ss|clr| | | | |]; simpl; intros He; simplify_option_eq;
    try done.
  by destruct (fPrimitiveProcessor ss); simplify_eq.
Qed.

Lemma count_if_wrapped (P : Event → bool) c evs :
  (∀ m, P (gpu_addGpuTraceMarker m) = false) →
  (∀ m, P (gpu_removeGpuTraceMarker m) = false) →
  count_if P (open_marker c ++ evs ++ close_marker c) = count_if P evs.
Proof.
  intros Ha Hr. destruct (count_if_markers P c Ha Hr) as [Ho Hc].
  rewrite !count_if_app, Ho, Hc. lia.
Qed.

(** One iteration makes one GPU draw call for a [Draw], [StencilPath],
    [DrawPath] or [DrawPaths] record, one [flushNext] for a [DrawBatch]
    record, and neither for the other records. *)
Lemma visit_counts tb c cur evs next :
  visit tb c cur = Some (evs, next) →
  count_if is_gpu_draw evs = (if is_gpu_drawn c then 1 else 0)
  ∧ count_if is_flushNext evs = (if is_batch c then 1 else 0).
Proof.
  unfold visit, is_gpu_drawn, is_batch, type. intros Hv.
  destruct (body c) as [| |ss|clr| | | | |fBatch] eqn:Hb; simpl; cbv beta iota in Hv.
  3: { destruct (if tb then _ else _) as [evs0|] eqn:He; [|done].
       simpl in Hv. injection Hv as <- <-.
       rewrite !count_if_wrapped by done.
       assert (execute (CSetState ss) cur = Some evs0 ∨ evs0 = []) as [Hx| ->].
       { destruct tb; [|by left]. destruct (has_primitive ss); [by left|].
         right. by injection He. }
       - by destruct (execute_counts _ _ _ Hx) as [-> ->].
       - done. }
  all: try (destruct (execute _ cur) as [evs0|] eqn:He; [|done];
            simpl in Hv; injection Hv as <- <-;
            rewrite !count_if_wrapped by done;
            by destruct (execute_counts _ _ _ He) as [-> ->]).
  injection Hv as <- <-.
  change (flushNext fBatch :: close_marker c)
    with ([flushNext fBatch] ++ close_marker c).
  by rewrite !count_if_wrapped.
Qed.

Lemma main_pass_cmds tb buf cur vs :
  main_pass tb buf cur = Some vs → v_cmd <$> vs = buf.
Proof.
  revert cur vs. induction buf as [|c buf IH]; intros cur vs; simpl.
  - by intros [= <-].
  - intros Hm. destruct (visit tb c cur) as [[evs next]|]; [|done]. simpl in Hm.
    destruct (main_pass tb buf next) as [vs'|] eqn:Hvs; [|done].
    simpl in Hm. injection Hm as <-. csimpl. f_equal. by eapply IH.
Qed.

Lemma main_pass_total tb buf cur seen :
  staged seen (type <$> buf) = true → (seen = true → is_Some cur) →
  is_Some (main_pass tb buf cur).
Proof.
  revert cur seen. induction buf as [|c buf IH]; intros cur seen; csimpl; [done|].
  intros Hst Hseen.
  destruct (visit_is_Some tb c cur) as [[evs next] Hv].
  { intros Hn. apply Hseen.
    destruct (type c); try done; simpl in Hst; by destruct seen. }
  rewrite Hv. simpl. apply visit_next in Hv.
  rewrite as_state_type in Hst.
  destruct (as_state c) as [s|]; simpl in Hst; subst next.
  - destruct (IH (Some s) true) as [vs ->]; done.
  - apply andb_true_iff in Hst as [_ Hst].
    destruct (IH cur seen Hst Hseen) as [vs ->]. done.
Qed.

(** The iteration on the record at [k] runs with the nearest state record
    before [k] in [currentState], or with the initial [cur] when there is
    none. *)
Lemma main_pass_lookup tb buf cur vs k c :
  main_pass tb buf cur = Some vs → buf !! k = Some c →
  ∃ v next, vs !! k = Some v ∧ v_cmd v = c
    ∧ v_state v = match last_state (take k buf) with
                  | Some s => Some s
                  | None => cur
                  end
    ∧ visit tb c (v_state v) = Some (v_events v, next).
Proof.
  revert cur vs k. induction buf as [|d buf IH]; intros cur vs k; simpl; [done|].
  intros Hm Hk. destruct (visit tb d cur) as [[evs next]|] eqn:Hv; [|done].
  simpl in Hm. destruct (main_pass tb buf next) as [vs'|] eqn:Hvs; [|done].
  simpl in Hm. injection Hm as <-. destruct k as [|k]; simpl in *.
  - injection Hk as ->. by eexists _, _.
  - destruct (IH _ _ _ Hvs Hk) as (v & next' & Hl & Hc & Hs & Hvis).
    exists v, next'. repeat split; try done. rewrite Hs.
    apply visit_next in Hv. subst next.
    by destruct (last_state (take k buf)).
Qed.

Lemma staged_lookup seen buf k c :
  staged seen (type <$> buf) = true → buf !! k = Some c →
  needs_state (type c) = true →
  seen = true ∨ is_Some (last_state (take k buf)).
Proof.
  revert seen k. induction buf as [|d buf IH]; intros seen k; csimpl; [done|].
  intros Hst Hk Hn. rewrite as_state_type in Hst. destruct k as [|k]; simpl in *.
  - injection Hk as ->. left.
    destruct (as_state c) eqn:Hs; simpl in Hst.
    + unfold as_state, type in *. destruct (body c); done.
    + rewrite Hn in Hst. by destruct seen.
  - destruct (as_state d) as [s|]; simpl in Hst.
    + right. destruct (IH true k Hst Hk Hn) as [_|[s' ->]]; eauto.
      destruct (last_state (take k buf)); eauto.
    + apply andb_true_iff in Hst as [_ Hst].
      destruct (IH seen k Hst Hk Hn) as [?|[s' ->]]; eauto.
Qed.

Lemma main_pass_counts tb buf cur vs :
  main_pass tb buf cur = Some vs →
  count_if is_gpu_draw (concat (v_events <$> vs)) = count_if is_gpu_drawn buf
  ∧ count_if is_flushNext (concat (v_events <$> vs)) = count_if is_batch buf.
Proof.
  revert cur vs. induction buf as [|c buf IH]; intros cur vs; simpl.
  - by intros [= <-].
  - intros Hm. destruct (visit tb c cur) as [[evs next]|] eqn:Hv; [|done].
    simpl in Hm. destruct (main_pass tb buf next) as [vs'|] eqn:Hvs; [|done].
    simpl in Hm. injection Hm as <-. csimpl.
    destruct (IH _ _ Hvs) as [Hg' Hf'].
    destruct (visit_counts _ _ _ _ _ Hv) as [Hg Hf].
    by rewrite !count_if_app, Hg, Hf, Hg', Hf'.
Qed.

(** The geometry pass returns on a staged buffer and makes no draw call. *)
Lemma gen_pass_total buf cur seen :
  staged seen (type <$> buf) = true → (seen = true → is_Some cur) →
  ∃ evs final, gen_pass buf cur = Some (evs, final)
    ∧ count_if is_gpu_draw evs = 0 ∧ count_if is_flushNext evs = 0.
Proof.
  revert cur seen. induction buf as [|c buf IH]; intros cur seen; csimpl.
  { intros _ _. by eexists _, _. }
  intros Hst Hseen.
  destruct (body c) as [| |ss| | | | | |b] eqn:Hb;
    pose proof (eq_refl (type c)) as Ht; unfold type at 2 in Ht;
    rewrite Hb in Ht; rewrite Ht in Hst; simpl in Hst;
    try (apply andb_true_iff in Hst as [_ Hst]; by apply (IH cur seen));
    try by apply (IH cur seen).
  - destruct (IH (Some ss) true Hst) as (evs & final & -> & Hg & Hf); [done|].
    simpl. destruct (fPrimitiveProcessor ss); simpl; eexists _, _;
      (split; [done|]); simpl; by rewrite ?Hg, ?Hf.
  - apply andb_true_iff in Hst as [Hs Hst].
    destruct (Hseen Hs) as [s ->]. simpl.
    destruct (IH (Some s) seen Hst) as (evs & final & -> & Hg & Hf); [done|].
    simpl. eexists _, _. split; [done|]. simpl. by rewrite Hg, Hf.
Qed.

(** [flush] returns on every staged buffer. *)
Lemma flush_total tb st :
  staged false (types st) = true → is_Some (flush tb st).
Proof.
  intros Hst. unfold flush, types in *.
  destruct (fCmdBuffer st) as [|c buf] eqn:Hbuf; [done|]. rewrite <- Hbuf in *.
  destruct tb.
  - destruct (gen_pass_total _ None false Hst) as (evs & final & -> & _); [done|].
    simpl. destruct (main_pass_total true _ final false Hst) as [vs ->]; done.
  - simpl. destruct (main_pass_total false _ None false Hst) as [vs ->]; done.
Qed.

End Facts.

(** * The claims *)

Section Claims.
Context `{Collaborators}.

(** ** Skipped pipelines *)

Lemma setup_skip w st pp pi :
  mustSkip (setupPipeline w pi).2 = true →
  setupPipelineAndShouldDraw w st pp pi = Some ((setupPipeline w pi).1, st, false).
Proof.
  unfold setupPipelineAndShouldDraw. destruct (setupPipeline w pi) as [w1 pl].
  simpl. intros ->. by rewrite pop_push.
Qed.

Lemma setup_batch_skip w st batch pi :
  mustSkip (setupPipeline w pi).2 = true →
  setupPipelineAndShouldDraw_batch w st batch pi
  = Some ((setupPipeline w pi).1, st, false).
Proof.
  unfold setupPipelineAndShouldDraw_batch.
  destruct (setupPipeline w pi) as [w1 pl].
  simpl. intros ->. by rewrite pop_push.
Qed.

(** C5.  When the pipeline built for a [recordDrawBatch], [recordDrawPath]
    or [recordDrawPaths] request must be skipped, state resolution pushes
    the candidate state record and pops it again, so the recorder is
    exactly as before the request, and the operation returns no command
    ([None], a result and not a failure).  This holds of every recorder,
    well-formed or not. *)
Theorem skipped_request_leaves_recorder w st pi :
  mustSkip (setupPipeline w pi).2 = true →
  (∀ cand, pop_back (push_back st cand) = st)
  ∧ (∀ batch,
       setupPipelineAndShouldDraw_batch w st batch pi
       = Some ((setupPipeline w pi).1, st, false)
       ∧ recordDrawBatch w st batch pi = Some ((setupPipeline w pi).1, st, None))
  ∧ (∀ pathProc,
       setupPipelineAndShouldDraw w st pathProc pi
       = Some ((setupPipeline w pi).1, st, false)
       ∧ (∀ path stencilSettings,
            recordDrawPath w st pathProc path stencilSettings pi
            = Some ((setupPipeline w pi).1, st, None))
       ∧ (∀ pathRange' indexValues indexType transformValues transformType
            count stencilSettings,
            recordDrawPaths w st pathProc pathRange' indexValues indexType
              transformValues transformType count stencilSettings pi
            = Some ((setupPipeline w pi).1, st, None))).
Proof.
  intros Hskip. split; [intros; apply pop_push|]. split.
  - intros batch. split; [by apply setup_batch_skip|].
    unfold recordDrawBatch. by rewrite setup_batch_skip.
  - intros pp. split; [by apply setup_skip|]. split; intros.
    + unfold recordDrawPath. by rewrite setup_skip.
    + unfold recordDrawPaths. by rewrite setup_skip.
Qed.

(** ** Batches *)

(** A drawn request leaves a recorder on which the invariant holds up to
    the trailing state record, with a state active. *)
Lemma setup_batch_drawn w st batch pi w1 st1 :
  wf st = true →
  setupPipelineAndShouldDraw_batch w st batch pi = Some (w1, st1, true) →
  wf_open st1 = true ∧ is_Some (last_state (fCmdBuffer st1)).
Proof.
  intros Hwf. rewrite setup_batch_resolve by (by apply wf_prev, wf_wf_open).
  intros [= Hres]. apply resolve_resolved in Hres.
  destruct (resolved_open _ _ _ _ _ _ Hwf Hres) as (Hopen & _ & P & HP & _).
  by rewrite HP.
Qed.

(** What [recordDrawBatch] returns once state resolution has let the
    request go on, by the test of line 37 and the answer of
    [combineIfPossible]. *)
Lemma recordDrawBatch_branches w st batch pi w1 st1 :
  wf st = true →
  setupPipelineAndShouldDraw_batch w st batch pi = Some (w1, st1, true) →
  ∃ tail, back st1 = Some tail
    ∧ (type tail ≠ kDrawBatch_CmdType ∨ fDrawBatch st1 = None →
       recordDrawBatch w st batch pi
       = Some (w1, appended_batch st1 batch, Some (length (fCmdBuffer st1))))
    ∧ (type tail = kDrawBatch_CmdType → fDrawBatch st1 ≠ None →
       ∃ tracked,
         fDrawBatch st1 = Some (length (fCmdBuffer st1) - 1)
         ∧ body tail = CDrawBatch tracked
         ∧ recordDrawBatch w st batch pi
           = Some (if (combineIfPossible w1 tracked batch).2
                   then ((combineIfPossible w1 tracked batch).1, st1,
                         Some (length (fCmdBuffer st1) - 1))
                   else ((combineIfPossible w1 tracked batch).1,
                         appended_batch st1 batch,
                         Some (length (fCmdBuffer st1))))).
Proof.
  intros Hwf Hsetup.
  destruct (setup_batch_drawn _ _ _ _ _ _ Hwf Hsetup) as [Hopen Hstate].
  destruct (back_is_Some st1 Hstate) as [tail Htail].
  exists tail. split; [done|].
  unfold recordDrawBatch. rewrite Hsetup. simpl. rewrite Htail. simpl.
  unfold append_DrawBatch. split.
  - intros [Hty|Hnull].
    + by rewrite bool_decide_eq_false_2.
    + rewrite Hnull. simpl. by rewrite orb_true_r.
  - intros Hty Hsome.
    rewrite bool_decide_eq_true_2 by done. simpl.
    destruct (fDrawBatch st1) as [d|] eqn:Hd; [|done]. simpl.
    apply wf_open_spec in Hopen as (_ & Hb & _).
    assert (d = length (fCmdBuffer st1) - 1) as ->.
    { rewrite Hd in Hb. rewrite <- Hty in Hb.
      rewrite (last_index_tail (type tail) (types st1)) in Hb.
      - rewrite length_types in Hb. by injection Hb.
      - unfold types. unfold back in Htail. by rewrite fmap_last, Htail. }
    destruct (deref_DrawBatch_last st1 _ Hb Hd) as (c & tracked & Hc & Hbody & ->).
    rewrite (back_lookup _ _ Htail) in Hc. injection Hc as <-.
    exists tracked. split; [done|]. split; [done|]. simpl.
    destruct (combineIfPossible w1 tracked batch) as [w2 [|]]; done.
Qed.

(** C6.  After state resolution has let a [recordDrawBatch] request go on,
    the buffer has a last record, and the request returns.  If the last
    record is not a [DrawBatch] or no batch is tracked, the new buffer is
    the resolved one followed by one untraced [DrawBatch] record of the
    batch, [fDrawBatch] points to that record and it is the command
    returned.  Otherwise the tracked batch is the last record, and it is
    asked to combine with the new batch: on success the recorder stays as
    state resolution left it, buffer and [fDrawBatch] included, and the
    old last record is returned; on failure the new buffer is the resolved
    one followed by one untraced [DrawBatch] record of the batch, which
    [fDrawBatch] points to and which is returned.  [fPrevState] stays as
    state resolution left it in every case. *)
Theorem recordDrawBatch_after_resolution w st batch pi w1 st1 :
  wf st = true →
  setupPipelineAndShouldDraw_batch w st batch pi = Some (w1, st1, true) →
  ∃ tail w' st' r,
    back st1 = Some tail
    ∧ recordDrawBatch w st batch pi = Some (w', st', r)
    ∧ fPrevState st' = fPrevState st1
    ∧ (type tail ≠ kDrawBatch_CmdType ∨ fDrawBatch st1 = None →
       w' = w1
       ∧ fCmdBuffer st'
         = fCmdBuffer st1 ++ [{| fMarkerID := None; body := CDrawBatch batch |}]
       ∧ fDrawBatch st' = Some (length (fCmdBuffer st1))
       ∧ r = Some (length (fCmdBuffer st1)))
    ∧ (type tail = kDrawBatch_CmdType → fDrawBatch st1 ≠ None →
       ∃ tracked,
         fDrawBatch st1 = Some (length (fCmdBuffer st1) - 1)
         ∧ fCmdBuffer st1 !! (length (fCmdBuffer st1) - 1) = Some tail
         ∧ body tail = CDrawBatch tracked
         ∧ w' = (combineIfPossible w1 tracked batch).1
         ∧ if (combineIfPossible w1 tracked batch).2
           then fCmdBuffer st' = fCmdBuffer st1
                ∧ fDrawBatch st' = fDrawBatch st1
                ∧ r = Some (length (fCmdBuffer st1) - 1)
           else fCmdBuffer st'
                = fCmdBuffer st1
                  ++ [{| fMarkerID := None; body := CDrawBatch batch |}]
                ∧ fDrawBatch st' = Some (length (fCmdBuffer st1))
                ∧ r = Some (length (fCmdBuffer st1))).
Proof.
  intros Hwf Hsetup.
  destruct (recordDrawBatch_branches _ _ _ _ _ _ Hwf Hsetup)
    as (tail & Htail & Happend & Hcombine).
  exists tail.
  destruct (decide (type tail = kDrawBatch_CmdType)) as [Hty|Hty];
    [destruct (decide (fDrawBatch st1 = None)) as [Hnull|Hsome]|].
  - eexists _, _, _. split; [done|]. split; [by apply Happend; right|].
    split; [done|]. split; [done|]. by intros _ Hne.
  - destruct (Hcombine Hty Hsome) as (tracked & Hd & Hbody & Hrec).
    revert Hrec.
    destruct (combineIfPossible w1 tracked batch) as [w2 combined] eqn:Hc.
    destruct combined; simpl; intros Hrec.
    + eexists _, _, _. split; [done|].
      split; [exact Hrec|]. split; [done|]. split; [by intros [?|?]|].
      intros _ _. exists tracked. rewrite Hc. simpl.
      split; [done|]. split; [by apply back_lookup|]. done.
    + eexists _, _, _. split; [done|].
      split; [exact Hrec|]. split; [done|]. split; [by intros [?|?]|].
      intros _ _. exists tracked. rewrite Hc. simpl.
      split; [done|]. split; [by apply back_lookup|]. done.
  - eexists _, _, _. split; [done|]. split; [by apply Happend; left|].
    split; [done|]. split; [done|]. by intros Heq.
Qed.

(** ** Folding [DrawPaths] requests *)

Lemma set_count_id previous : set_count previous (fCount previous) = previous.
Proof. by destruct previous. Qed.

Lemma folded_count_sum count reqs :
  reqs ≠ [] → folded_count count reqs = wrap32 (count + total_count reqs).
Proof.
  revert count. induction reqs as [|req rest IH]; intros count Hne; [done|].
  unfold folded_count, total_count in *. simpl.
  destruct rest as [|req' rest].
  - simpl. unfold int_add. f_equal. lia.
  - rewrite IH by done. unfold int_add. rewrite wrap32_add_idemp. f_equal.
    simpl. lia.
Qed.

(** When the exact sum fits in an [int], the folded count is that sum. *)
Lemma folded_count_exact count reqs :
  (INT_MIN ≤ count + total_count reqs ≤ INT_MAX)%Z →
  folded_count count reqs = (count + total_count reqs)%Z.
Proof.
  destruct reqs as [|req rest] eqn:Hreqs.
  - intros _. unfold folded_count, total_count. simpl. lia.
  - intros Hr. rewrite folded_count_sum by done. by apply wrap32_small.
Qed.

(** One foldable request: the count of the trailing record grows and
    nothing else changes. *)
Lemma fold_step w st pre tail previous active req :
  wf st = true →
  fCmdBuffer st = pre ++ [tail] → body tail = CDrawPaths previous →
  last_state (fCmdBuffer st) = Some active →
  foldable w active previous req →
  record w st req
  = Some (world_after w req,
          with_buffer st
            (pre ++ [{| fMarkerID := fMarkerID tail;
                        body := CDrawPaths
                                  (add_count previous (request_count req)) |}]),
          None).
Proof.
  intros Hwf Hbuf Hbody Hactive Hfold.
  destruct req as [| | |pp pr iv ity tv tty n ss pi| | | | | |];
    try (by destruct Hfold as [[] _]).
  destruct Hfold as [(-> & -> & -> & -> & Hwind & Hblend & Hsaved) Hcand].
  unfold resolves_to in Hcand.
  simpl in Hcand. destruct Hcand as [Hskip Heq]. simpl in Hskip.
  simpl. unfold recordDrawPaths.
  rewrite setup_resolve by (by apply wf_prev, wf_wf_open).
  unfold resolve. simpl. rewrite Hskip, Hactive, Heq. simpl.
  destruct (appendIndicesAndTransforms _ iv _ tv _ n) as [w2 [si sx]].
  simpl in Hsaved. destruct Hsaved as [-> Hx].
  unfold back. rewrite Hbuf, last_snoc. simpl.
  unfold fold_target. rewrite Hbody, Hwind, Hblend.
  rewrite !bool_decide_eq_true_2 by done. simpl.
  assert (bool_decide (0%Z = PathTransformSize (fTransformType previous))
          || bool_decide
               (float_at (fTransforms previous)
                  (int_mul (fCount previous)
                     (PathTransformSize (fTransformType previous))) = sx)
          = true) as ->.
  { destruct Hx as [Hx| ->].
    - by rewrite (bool_decide_eq_true_2 _ (eq_sym Hx)).
    - rewrite (bool_decide_eq_true_2 (float_at _ _ = _)) by done.
      apply orb_true_r. }
  do 2 f_equal. unfold store. f_equal.
  rewrite Hbuf, length_app. simpl.
  replace (length pre + 1 - 1) with (length pre) by lia.
  by rewrite insert_snoc.
Qed.

(** C1, as amended.  Take a recorder whose buffer ends in a [DrawPaths]
    record and a run of [recordDrawPaths] requests, each sharing the
    record's path range, element types and stencil settings, with a
    winding fill, no blending with the destination, pool addresses that
    continue the record's bytes, and moreover a pipeline that is not
    skipped and a resolved state equal to the active one.  Then every
    request returns no command, the buffer keeps its length and its other
    records, and the count of the trailing record has grown by the counts
    of the requests: it is their sum on [int], and the exact sum whenever
    that fits in an [int]. *)
Theorem drawPaths_run_folds reqs :
  ∀ w st pre tail previous active,
    wf st = true →
    fCmdBuffer st = pre ++ [tail] → body tail = CDrawPaths previous →
    last_state (fCmdBuffer st) = Some active →
    foldable_run w active previous reqs →
    ∃ w',
      record_all w st reqs
      = Some (w',
              with_buffer st
                (pre ++ [{| fMarkerID := fMarkerID tail;
                            body := CDrawPaths
                              (set_count previous
                                 (folded_count (fCount previous) reqs)) |}]),
              (λ _, None) <$> reqs)
      ∧ ((INT_MIN ≤ fCount previous + total_count reqs ≤ INT_MAX)%Z →
         folded_count (fCount previous) reqs
         = (fCount previous + total_count reqs)%Z).
Proof.
  induction reqs as [|req rest IH]; intros w st pre tail previous active
    Hwf Hbuf Hbody Hactive Hrun.
  - exists w. split; [|apply folded_count_exact]. simpl.
    unfold folded_count. simpl. rewrite set_count_id, <- Hbody.
    replace {| fMarkerID := fMarkerID tail; body := body tail |} with tail
      by (by destruct tail).
    by rewrite <- Hbuf, with_buffer_id.
  - destruct Hrun as [Hfold Hrun].
    pose proof (fold_step _ _ _ _ _ _ _ Hwf Hbuf Hbody Hactive Hfold) as Hstep.
    pose proof (record_wf _ _ _ _ _ _ Hwf Hstep) as Hwf'.
    assert (last_state
              (pre ++ [{| fMarkerID := fMarkerID tail;
                          body := CDrawPaths
                                    (add_count previous (request_count req)) |}])
            = Some active) as Hactive'.
    { rewrite last_state_snoc. simpl.
      rewrite Hbuf, last_state_snoc in Hactive.
      unfold as_state in Hactive. by rewrite Hbody in Hactive. }
    destruct (IH _ _ pre _ _ active Hwf' eq_refl eq_refl Hactive' Hrun)
      as (w' & Hall & _).
    exists w'. split; [|apply folded_count_exact].
    simpl record_all. rewrite Hstep. simpl. rewrite Hall. simpl.
    by destruct st.
Qed.

Lemma fold_target_even_odd st b pp pr ity tty ss pi si sx :
  path_fill_type_is_winding ss = false →
  fold_target st b pp pr ity tty ss pi si sx = None.
Proof.
  intros Hw. unfold fold_target. destruct (body b); try done.
  by rewrite Hw, andb_false_r.
Qed.

(** C2.  A [recordDrawPaths] request whose stencil settings give a fill
    that is not winding never folds into the trailing record, whatever
    the other fields: the request returns, every record already in the
    buffer stays as it is, and once state resolution has let the draw go
    on (the pipeline is not skipped) a new [DrawPaths] record with the
    request's fields is appended and returned. *)
Theorem even_odd_request_never_folds w st pp pr iv ity tv tty n ss pi :
  wf st = true →
  path_fill_type_is_winding ss = false →
  ∃ w' st' r,
    recordDrawPaths w st pp pr iv ity tv tty n ss pi = Some (w', st', r)
    ∧ (∃ added, fCmdBuffer st' = fCmdBuffer st ++ added)
    ∧ (mustSkip (setupPipeline w pi).2 = false →
       ∃ w1 st1 resolved,
         setupPipelineAndShouldDraw w st pp pi = Some (w1, st1, true)
         ∧ fCmdBuffer st1 = fCmdBuffer st ++ resolved
         ∧ w' = (appendIndicesAndTransforms w1 iv ity tv tty n).1
         ∧ st' = push_back st1 (new_cmd (CDrawPaths
                   {| pathRange := pr;
                      fIndices :=
                        (appendIndicesAndTransforms w1 iv ity tv tty n).2.1;
                      fIndexType := ity;
                      fTransforms :=
                        (appendIndicesAndTransforms w1 iv ity tv tty n).2.2;
                      fTransformType := tty;
                      fCount := n;
                      fStencilSettings := ss |}))
         ∧ r = Some (length (fCmdBuffer st1))).
Proof.
  intros Hwf Heo. unfold recordDrawPaths.
  rewrite setup_resolve by (by apply wf_prev, wf_wf_open).
  destruct (resolve _ _ st _) as [[w1 st1] b] eqn:Hres. simpl.
  pose proof (resolve_resolved _ _ _ _ _ _ _ Hres) as Hr.
  destruct b; simpl.
  - destruct (resolved_open _ _ _ _ _ _ Hwf Hr) as (_ & _ & P & HP & _).
    destruct (appendIndicesAndTransforms w1 iv ity tv tty n) as [w2 [si sx]]
      eqn:Happ.
    destruct (back_is_Some st1) as [c Hc]; [by rewrite HP|].
    rewrite Hc. simpl. rewrite fold_target_even_odd by done.
    assert (∃ resolved, fCmdBuffer st1 = fCmdBuffer st ++ resolved)
      as [resolved Hres1].
    { inversion Hr; subst; [exists []; by rewrite app_nil_r|by eexists]. }
    eexists _, _, _. split; [done|]. split.
    + exists (resolved ++ [new_cmd (CDrawPaths
        {| pathRange := pr; fIndices := si; fIndexType := ity;
           fTransforms := sx; fTransformType := tty; fCount := n;
           fStencilSettings := ss |})]).
      simpl. by rewrite Hres1, app_assoc.
    + intros _. exists w1, st1, resolved. by rewrite Happ.
  - inversion Hr as [Hskip| |]; subst. eexists _, _, _. split; [done|].
    split; [exists []; by rewrite app_nil_r|]. simpl in Hskip.
    intros Hno. by rewrite Hskip in Hno.
Qed.

(** ** Elision of equal states *)

Lemma last_state_last buf : last_state buf = list.last (states_of buf).
Proof.
  induction buf as [|c buf IH]; [done|]. simpl. rewrite IH.
  unfold states_of. simpl. destruct (as_state c) as [s|]; [|
    by destruct (list.last (omap as_state buf))].
  rewrite last_cons. by destruct (list.last (omap as_state buf)).
Qed.

Lemma same_states_refl st : same_states st st.
Proof. done. Qed.

Lemma same_states_push st d : as_state d = None → same_states st (push_back st d).
Proof.
  intros Hd. unfold same_states. simpl.
  by rewrite states_of_snoc, last_state_snoc, Hd, app_nil_r.
Qed.

Lemma same_states_appended_batch st batch :
  same_states st (appended_batch st batch).
Proof.
  unfold same_states. simpl.
  by rewrite states_of_snoc, last_state_snoc, app_nil_r.
Qed.

Lemma same_states_store_tail st c c' :
  back st = Some c → as_state c = None → as_state c' = None →
  same_states st (store (length (fCmdBuffer st) - 1) c' st).
Proof.
  unfold back. rewrite last_Some. intros [pre Hpre] Hc Hc'.
  unfold same_states, store. simpl. rewrite Hpre, length_app. simpl.
  replace (length pre + 1 - 1) with (length pre) by lia.
  by rewrite insert_snoc, !states_of_snoc, !last_state_snoc, Hc, Hc'.
Qed.

(** Every request that resolves a state does so by [resolve], and what it
    does afterwards leaves the state records alone. *)
Lemma record_after_resolution w st req cand w' st' r :
  wf st = true → candidate w req = Some cand →
  record w st req = Some (w', st', r) →
  ∃ ws wd w1 st1 b,
    resolved ws wd st cand w1 st1 b ∧ same_states st1 st'
    ∧ (b = false → st' = st ∧ r = None).
Proof.
  intros Hwf Hcand.
  pose proof (wf_prev _ (wf_wf_open _ Hwf)) as Hprev.
  destruct req as [batch pi| |pp path ss pi|pp pr iv ity tv tty n ss pi| | | | | |];
    try done; simpl in Hcand; injection Hcand as <-; simpl.
  - unfold recordDrawBatch. rewrite setup_batch_resolve by done.
    destruct (resolve _ _ st _) as [[w1 st1] b] eqn:Hres. simpl.
    pose proof (resolve_resolved _ _ _ _ _ _ _ Hres) as Hr.
    destruct b; simpl.
    + destruct (resolved_open _ _ _ _ _ _ Hwf Hr) as (_ & _ & P & HP & _).
      destruct (back_is_Some st1) as [c Hc]; [by rewrite HP|].
      rewrite Hc. simpl. unfold append_DrawBatch.
      destruct (negb _ || is_null _).
      * intros [= <- <- <-]. eexists _, _, _, _, _. split; [done|].
        split; [apply same_states_appended_batch|done].
      * destruct (fDrawBatch st1) as [d|]; [|done]. simpl.
        destruct (deref_DrawBatch st1 d) as [tracked|]; [|done]. simpl.
        destruct (combineIfPossible w1 tracked batch) as [w2 [|]]; simpl;
          intros [= <- <- <-]; eexists _, _, _, _, _; (split; [done|]);
          (split; [|done]); [done|apply same_states_appended_batch].
    + intros [= <- <- <-]. inversion Hr; subst.
      eexists _, _, _, _, _. by split.
  - unfold recordDrawPath. rewrite setup_resolve by done.
    destruct (resolve _ _ st _) as [[w1 st1] b] eqn:Hres. simpl.
    pose proof (resolve_resolved _ _ _ _ _ _ _ Hres) as Hr.
    destruct b; simpl; intros [= <- <- <-].
    + eexists _, _, _, _, _. split; [done|].
      split; [by apply same_states_push|done].
    + inversion Hr; subst. eexists _, _, _, _, _. by split.
  - unfold recordDrawPaths. rewrite setup_resolve by done.
    destruct (resolve _ _ st _) as [[w1 st1] b] eqn:Hres. simpl.
    pose proof (resolve_resolved _ _ _ _ _ _ _ Hres) as Hr.
    destruct b; simpl.
    + destruct (resolved_open _ _ _ _ _ _ Hwf Hr) as (_ & _ & P & HP & _).
      destruct (appendIndicesAndTransforms w1 iv ity tv tty n) as [w2 [si sx]].
      destruct (back_is_Some st1) as [c Hc]; [by rewrite HP|].
      rewrite Hc. simpl.
      destruct (fold_target st1 c pp pr ity tty ss pi si sx) as [previous|] eqn:Hf;
        intros [= <- <- <-]; eexists _, _, _, _, _; (split; [done|]);
        (split; [|done]).
      * apply fold_target_body in Hf.
        apply (same_states_store_tail _ c); [done| |done].
        unfold as_state. by rewrite Hf.
      * by apply same_states_push.
    + intros [= <- <- <-]. inversion Hr; subst.
      eexists _, _, _, _, _. by split.
Qed.

Lemma candidate_not_trace w req cand :
  candidate w req = Some cand → ∀ cmd, req ≠ TraceReq cmd.
Proof. by destruct req. Qed.

(** C3.  Two consecutive requests that resolve a state, neither skipped.
    After the first, a state [P] is active: the candidate of the first
    request when that was kept, and otherwise the earlier state it was
    found equal to.  If the candidate of the second request compares equal
    to [P] (both with a primitive that the primitive layer calls
    interchangeable and equal pipelines, or both without and equal
    pipelines), the second request returns, its candidate is discarded
    and [P] stays active: the state records of the buffer and
    [fPrevState] are as after the first request.  The same holds when the
    two candidates compare equal and the layers' equality carries over
    from [P] through the first candidate to the second.  In particular,
    on a buffer that held no state record, the two requests leave exactly
    one, that of the first.  No two neighbours of the buffer are state
    records. *)
Theorem equal_state_is_elided w st req1 req2 w1 st1 r1 s1 s2 :
  wf st = true →
  candidate w req1 = Some s1 → mustSkip (fPipeline s1) = false →
  record w st req1 = Some (w1, st1, r1) →
  candidate w1 req2 = Some s2 → mustSkip (fPipeline s2) = false →
  ∃ P,
    last_state (fCmdBuffer st1) = Some P
    ∧ (P = s1 ∧ states_of (fCmdBuffer st1) = states_of (fCmdBuffer st) ++ [s1]
       ∨ last_state (fCmdBuffer st) = Some P ∧ states_equal P s1 = true
         ∧ states_of (fCmdBuffer st1) = states_of (fCmdBuffer st))
    ∧ (states_equal P s2 = true
       ∨ states_equal s1 s2 = true
         ∧ (states_equal P s1 = true → states_equal P s2 = true) →
       ∃ w2 st2 r2,
         record w1 st1 req2 = Some (w2, st2, r2)
         ∧ states_of (fCmdBuffer st2) = states_of (fCmdBuffer st1)
         ∧ fPrevState st2 = fPrevState st1
         ∧ last_state (fCmdBuffer st2) = Some P
         ∧ no_adjacent_states (types st2) = true
         ∧ (states_of (fCmdBuffer st) = [] →
            states_of (fCmdBuffer st2) = [s1])).
Proof.
  intros Hwf Hc1 Hs1 Hrec1 Hc2 Hs2.
  pose proof (record_wf _ _ _ _ _ _ Hwf Hrec1) as Hwf1.
  destruct (record_after_resolution _ _ _ _ _ _ _ Hwf Hc1 Hrec1)
    as (ws & wd & wa & sta & b & Hr & (Hst & Hlast & Hprev) & _).
  assert (∃ P, last_state (fCmdBuffer st1) = Some P
    ∧ (P = s1 ∧ states_of (fCmdBuffer st1) = states_of (fCmdBuffer st) ++ [s1]
       ∨ last_state (fCmdBuffer st) = Some P ∧ states_equal P s1 = true
         ∧ states_of (fCmdBuffer st1) = states_of (fCmdBuffer st)))
    as (P & HP & Hor).
  { inversion Hr as [Hskip|prev _ Hp Heq|wk m _ _ _]; subst.
    - by rewrite Hskip in Hs1.
    - exists prev. rewrite Hlast, Hst. auto.
    - exists s1. rewrite Hlast, Hst. simpl.
      rewrite last_state_snoc, states_of_snoc. auto. }
  exists P. split; [done|]. split; [done|]. intros Heq2.
  assert (states_equal P s2 = true) as Heq2'.
  { destruct Heq2 as [?|[H12 Htrans]]; [done|].
    destruct Hor as [[-> _]|(_ & HP1 & _)]; [done|by apply Htrans]. }
  clear Heq2. rename Heq2' into Heq2.
  destruct (record_total w1 st1 req2 Hwf1 (candidate_not_trace _ _ _ Hc2))
    as [[[w2 st2] r2] Hrec2].
  exists w2, st2, r2. split; [done|].
  destruct (record_after_resolution _ _ _ _ _ _ _ Hwf1 Hc2 Hrec2)
    as (ws' & wd' & wb & stb & b' & Hr' & (Hst' & Hlast' & Hprev') & _).
  assert (stb = st1) as ->.
  { inversion Hr' as [Hskip| |wk m _ _ Hne]; subst; [|done|].
    - by rewrite Hskip in Hs2.
    - by rewrite (Hne P HP) in Heq2. }
  split; [done|]. split; [done|]. split; [by rewrite Hlast'|]. split.
  - pose proof (record_wf _ _ _ _ _ _ Hwf1 Hrec2) as Hwf2.
    apply wf_spec in Hwf2 as [_ Hopen].
    by apply wf_open_spec in Hopen as (_ & _ & _ & Hadj).
  - intros Hempty. rewrite Hst'.
    destruct Hor as [[_ ->]|(Hl & _ & _)]; [by rewrite Hempty|].
    by rewrite last_state_last, Hempty in Hl.
Qed.

(** ** Flush *)

(** The two passes inside a [flush] that returned. *)
Lemma flush_passes tb st vs evs :
  flush tb st = Some (vs, evs) → fCmdBuffer st ≠ [] →
  ∃ gen cur,
    (if tb then gen_pass (fCmdBuffer st) None else Some ([], None))
    = Some (gen, cur)
    ∧ main_pass tb (fCmdBuffer st) cur = Some vs
    ∧ evs = gen ++ [getVertexAllocPool_unmap; getIndexAllocPool_unmap; preFlush]
            ++ concat (v_events <$> vs) ++ [postFlush].
Proof.
  unfold flush. destruct (fCmdBuffer st) as [|c buf] eqn:Hbuf; [done|].
  rewrite <- Hbuf. clear Hbuf. intros Hf _.
  destruct (if tb then _ else _) as [[gen cur]|]; [|done]. simpl in Hf.
  destruct (main_pass tb (fCmdBuffer st) cur) as [vs'|] eqn:Hm; [|done].
  simpl in Hf. injection Hf as <- <-. by exists gen, cur.
Qed.

Lemma flush_lookup tb st vs evs k c :
  flush tb st = Some (vs, evs) → fCmdBuffer st !! k = Some c →
  ∃ v next, vs !! k = Some v ∧ v_cmd v = c
    ∧ visit tb c (v_state v) = Some (v_events v, next)
    ∧ (is_Some (last_state (take k (fCmdBuffer st))) →
       v_state v = last_state (take k (fCmdBuffer st))).
Proof.
  intros Hf Hk.
  destruct (flush_passes _ _ _ _ Hf) as (gen & cur & _ & Hm & _).
  { intros Hnil. by rewrite Hnil in Hk. }
  destruct (main_pass_lookup _ _ _ _ _ _ Hm Hk) as (v & next & Hv & Hc & Hs & Hvis).
  exists v, next. repeat split; try done.
  intros [s Hsome]. by rewrite Hs, Hsome.
Qed.

(** What the iteration on a [Clear] record calls. *)
Lemma flush_clear tb st vs evs k c clr :
  flush tb st = Some (vs, evs) → fCmdBuffer st !! k = Some c →
  body c = CClear clr →
  ∃ v, vs !! k = Some v ∧ v_cmd v = c
    ∧ v_events v
      = open_marker c
        ++ [if bool_decide (GrColor_ILLEGAL = fColor clr)
            then gpu_discard (cl_renderTarget clr)
            else gpu_clear (fRect clr) (fColor clr) (fCanIgnoreRect clr)
                   (cl_renderTarget clr)]
        ++ close_marker c.
Proof.
  intros Hf Hk Hb.
  destruct (flush_lookup _ _ _ _ _ _ Hf Hk) as (v & next & Hv & Hc & Hvis & _).
  exists v. split; [done|]. split; [done|].
  unfold visit in Hvis. rewrite Hb in Hvis. simpl in Hvis.
  case_bool_decide; simpl in Hvis; by injection Hvis as <- _.
Qed.

Lemma count_draw_family buf :
  count_if is_draw_family buf = count_if is_gpu_drawn buf + count_if is_batch buf.
Proof.
  induction buf as [|c buf IH]; [done|]. simpl. rewrite IH.
  unfold is_draw_family, is_gpu_drawn, is_batch.
  destruct (type c); simpl; lia.
Qed.

(** C4, as amended.  On a non-empty buffer in which every record that
    reads the active state comes after a state record (as in every buffer
    the recorder builds), [flush] returns; its main loop runs once on each
    record, in the order of the buffer, and the calls of [flush] are
    those of the optional geometry pass, the three calls before the loop,
    the calls of the iterations in order, and [postFlush].  The draw
    calls made on the GPU are as many as the surviving [Draw],
    [StencilPath], [DrawPath] and [DrawPaths] records; a surviving
    [DrawBatch] record makes no GPU call but one [flushNext] on the batch
    target, so both kinds of dispatch together are as many as the
    surviving records of the draw family. *)
Theorem flush_visits_in_order tb st :
  fCmdBuffer st ≠ [] →
  staged false (types st) = true →
  ∃ vs evs gen,
    flush tb st = Some (vs, evs)
    ∧ v_cmd <$> vs = fCmdBuffer st
    ∧ (∀ k v, vs !! k = Some v →
         ∃ next, visit tb (v_cmd v) (v_state v) = Some (v_events v, next))
    ∧ evs = gen ++ [getVertexAllocPool_unmap; getIndexAllocPool_unmap; preFlush]
            ++ concat (v_events <$> vs) ++ [postFlush]
    ∧ (tb = false → gen = [])
    ∧ count_if is_gpu_draw evs = count_if is_gpu_drawn (fCmdBuffer st)
    ∧ count_if is_flushNext evs = count_if is_batch (fCmdBuffer st)
    ∧ count_if is_gpu_draw evs + count_if is_flushNext evs
      = count_if is_draw_family (fCmdBuffer st).
Proof.
  intros Hne Hst.
  destruct (flush_total tb st Hst) as [[vs evs] Hf].
  destruct (flush_passes _ _ _ _ Hf Hne) as (gen & cur & Hgen & Hm & ->).
  eexists vs, _, gen. split; [done|].
  pose proof (main_pass_cmds _ _ _ _ Hm) as Hcmds.
  split; [done|]. split.
  { intros k v Hv.
    assert (fCmdBuffer st !! k = Some (v_cmd v)) as Hk
      by (by rewrite <- Hcmds, list_lookup_fmap, Hv).
    destruct (main_pass_lookup _ _ _ _ _ _ Hm Hk) as (v' & next & Hv' & _ & _ & Hvis).
    rewrite Hv in Hv'. injection Hv' as <-. by exists next. }
  split; [done|].
  assert (count_if is_gpu_draw gen = 0 ∧ count_if is_flushNext gen = 0
          ∧ (tb = false → gen = [])) as (Hg & Hn & Hoff).
  { destruct tb.
    - destruct (gen_pass_total (fCmdBuffer st) None false Hst)
        as (gen' & cur' & Hgen' & ? & ?); [done|].
      rewrite Hgen' in Hgen. by injection Hgen as <- <-.
    - by injection Hgen as <- <-. }
  split; [done|].
  destruct (main_pass_counts _ _ _ _ Hm) as [Hd Hb].
  assert (count_if is_gpu_draw
            (gen ++ [getVertexAllocPool_unmap; getIndexAllocPool_unmap; preFlush]
             ++ concat (v_events <$> vs) ++ [postFlush])
          = count_if is_gpu_drawn (fCmdBuffer st)) as Hdraws.
  { rewrite !count_if_app, Hg, Hd. simpl. lia. }
  assert (count_if is_flushNext
            (gen ++ [getVertexAllocPool_unmap; getIndexAllocPool_unmap; preFlush]
             ++ concat (v_events <$> vs) ++ [postFlush])
          = count_if is_batch (fCmdBuffer st)) as Hnexts.
  { rewrite !count_if_app, Hn, Hb. simpl. lia. }
  rewrite Hdraws, Hnexts, count_draw_family. done.
Qed.

(** ** State resolution before a draw *)

(** C7, as amended.  On a well-formed recorder, a [recordDrawPath],
    [recordDrawPaths] or [recordDrawBatch] request first resolves the
    active state: it returns, keeps the invariant, leaves the recorder
    untouched and returns no command when the pipeline must be skipped,
    and otherwise leaves as active state its candidate or a state equal to
    it, with the draw at the end of the buffer.  [recordStencilPath]
    resolves no state: it appends its record and nothing else, and the
    record's [execute] does not read the active state.  When [flush]
    reaches a [Draw], [DrawPath], [DrawPaths] or [DrawBatch] record, the
    active state is the state record nearest before it. *)
Theorem state_is_resolved_before_draw tb st :
  wf st = true →
  (∀ w req cand,
     candidate w req = Some cand →
     ∃ w' st' r,
       record w st req = Some (w', st', r)
       ∧ wf st' = true
       ∧ (mustSkip (fPipeline cand) = true → st' = st ∧ r = None)
       ∧ (mustSkip (fPipeline cand) = false →
          ∃ P, last_state (fCmdBuffer st') = Some P
               ∧ (P = cand ∨ states_equal P cand = true)
               ∧ tail_is_state (types st') = false))
  ∧ (∀ w pb pp path sc ss,
       recordStencilPath w st pb pp path sc ss
       = Some (w,
               push_back st (new_cmd (CStencilPath
                 {| sp_path := path; sp_fRenderTarget := getRenderTarget pb;
                    fScissor := sc; fUseHWAA := isHWAntialias pb;
                    fViewMatrix := viewMatrix pp; fStencil := ss |})),
               Some (length (fCmdBuffer st))))
  ∧ (∀ c state, execute (CStencilPath c) state = Some [gpu_stencilPath c])
  ∧ ∃ vs evs,
      flush tb st = Some (vs, evs)
      ∧ ∀ k v, vs !! k = Some v → needs_state (type (v_cmd v)) = true →
          ∃ s, v_state v = Some s
               ∧ last_state (take k (fCmdBuffer st)) = Some s.
Proof.
  intros Hwf. split; [|split; [done|split; [done|]]].
  - intros w req cand Hcand.
    destruct (record_total w st req Hwf (candidate_not_trace _ _ _ Hcand))
      as [[[w' st'] r] Hrec].
    exists w', st', r. split; [done|].
    pose proof (record_wf _ _ _ _ _ _ Hwf Hrec) as Hwf'.
    split; [done|].
    destruct (record_after_resolution _ _ _ _ _ _ _ Hwf Hcand Hrec)
      as (ws & wd & w1 & st1 & b & Hr & (_ & Hlast & _) & Hskipped).
    split.
    + intros Hskip. apply Hskipped.
      inversion Hr as [|? Hno|? ? Hno]; subst; [done|..];
        by rewrite Hskip in Hno.
    + intros Hno. destruct b.
      * destruct (resolved_open _ _ _ _ _ _ Hwf Hr) as (_ & _ & P & HP & Hor).
        exists P. rewrite Hlast. split; [done|]. split; [done|].
        by apply wf_spec in Hwf' as [? _].
      * inversion Hr as [Hskip| |]; subst. by rewrite Hskip in Hno.
  - pose proof Hwf as Hst. apply wf_spec in Hst as [_ Hst].
    apply wf_open_spec in Hst as (_ & _ & Hst & _).
    destruct (flush_total tb st Hst) as [[vs evs] Hf].
    exists vs, evs. split; [done|]. intros k v Hv Hneed.
    destruct (decide (fCmdBuffer st = [])) as [Hnil|Hne].
    { unfold flush in Hf. rewrite Hnil in Hf. injection Hf as <- <-. done. }
    destruct (flush_passes _ _ _ _ Hf Hne) as (gen & cur & _ & Hm & _).
    assert (fCmdBuffer st !! k = Some (v_cmd v)) as Hk.
    { by rewrite <- (main_pass_cmds _ _ _ _ Hm), list_lookup_fmap, Hv. }
    destruct (flush_lookup _ _ _ _ _ _ Hf Hk) as (v' & _ & Hv' & _ & _ & Hs).
    rewrite Hv in Hv'. injection Hv' as <-.
    destruct (staged_lookup _ _ _ _ Hst Hk Hneed) as [?|[s Hsome]]; [done|].
    exists s. split; [|done]. rewrite Hs; [done|by rewrite Hsome].
Qed.

(** ** Clear and discard *)

Lemma staged_push st c :
  staged false (types st) = true → needs_state (type c) = false →
  staged false (types (push_back st c)) = true.
Proof.
  intros Hst Hc. rewrite types_push, staged_snoc, Hst, Hc. simpl.
  by rewrite orb_true_r.
Qed.

(** C8.  [recordDiscard] appends a [Clear] record whose colour is
    [GrColor_ILLEGAL]; when the recorder is flushed, the iteration on that
    record calls the GPU's [discard] and nothing else.  In any flush, the
    iteration on a [Clear] record calls [discard] when the colour is
    [GrColor_ILLEGAL] and otherwise [clear] with the record's rectangle,
    colour and flag, between the trace marker calls of the record. *)
Theorem discard_record_dispatches_discard tb w st renderTarget :
  staged false (types st) = true →
  ∃ st' vs evs v,
    recordDiscard w st renderTarget
    = Some (w, st', Some (length (fCmdBuffer st)))
    ∧ fCmdBuffer st'
      = fCmdBuffer st
        ++ [new_cmd (CClear {| cl_renderTarget := renderTarget;
                               fColor := GrColor_ILLEGAL;
                               fRect := None; fCanIgnoreRect := None |})]
    ∧ flush tb st' = Some (vs, evs)
    ∧ vs !! length (fCmdBuffer st) = Some v
    ∧ v_events v = [gpu_discard renderTarget]
    ∧ ∀ tb0 st0 vs0 evs0 k c clr,
        flush tb0 st0 = Some (vs0, evs0) →
        fCmdBuffer st0 !! k = Some c → body c = CClear clr →
        ∃ v', vs0 !! k = Some v' ∧ v_cmd v' = c
          ∧ v_events v'
            = open_marker c
              ++ [if bool_decide (GrColor_ILLEGAL = fColor clr)
                  then gpu_discard (cl_renderTarget clr)
                  else gpu_clear (fRect clr) (fColor clr) (fCanIgnoreRect clr)
                         (cl_renderTarget clr)]
              ++ close_marker c.
Proof.
  intros Hst. unfold recordDiscard.
  set (clr := {| cl_renderTarget := renderTarget; fColor := GrColor_ILLEGAL;
                 fRect := None; fCanIgnoreRect := None |}).
  set (c := new_cmd (CClear clr)).
  destruct (flush_total tb (push_back st c)) as [[vs evs] Hf];
    [by apply staged_push|].
  destruct (flush_clear _ _ _ _ (length (fCmdBuffer st)) c clr Hf)
    as (v & Hv & _ & Hev); [apply lookup_snoc|done|].
  exists (push_back st c), vs, evs, v. repeat split; try done.
  - rewrite Hev. simpl. by rewrite bool_decide_eq_true_2.
  - intros tb0 st0 vs0 evs0 k c' clr' Hf0 Hk Hb.
    by apply (flush_clear _ _ _ _ _ _ _ Hf0 Hk Hb).
Qed.

(** C9.  A [recordClear] request with a null rectangle returns, and the
    new buffer is the old one followed by one untraced [Clear] record
    whose rectangle has left and top 0, right the width and bottom the
    height of the render target, and which holds the colour, the flag and
    the render target of the request; the record's address is returned and
    both pointers stay as they are.  When the recorder is flushed and the
    colour is not [GrColor_ILLEGAL], the iteration on that record calls
    the GPU's [clear] with this rectangle and nothing else. *)
Theorem clear_without_rect_covers_target tb w st color canIgnoreRect renderTarget :
  ∃ st',
    recordClear w st None color canIgnoreRect renderTarget
    = Some (w, st', Some (length (fCmdBuffer st)))
    ∧ fCmdBuffer st'
      = fCmdBuffer st
        ++ [{| fMarkerID := None;
               body := CClear
                 {| cl_renderTarget := renderTarget; fColor := color;
                    fRect := Some {| fLeft := 0; fTop := 0;
                                     fRight := rt_width renderTarget;
                                     fBottom := rt_height renderTarget |};
                    fCanIgnoreRect := Some canIgnoreRect |} |}]
    ∧ fPrevState st' = fPrevState st
    ∧ fDrawBatch st' = fDrawBatch st
    ∧ (staged false (types st) = true → color ≠ GrColor_ILLEGAL →
       ∃ vs evs v,
         flush tb st' = Some (vs, evs)
         ∧ vs !! length (fCmdBuffer st) = Some v
         ∧ v_events v
           = [gpu_clear
                (Some {| fLeft := 0; fTop := 0;
                         fRight := rt_width renderTarget;
                         fBottom := rt_height renderTarget |})
                color (Some canIgnoreRect) renderTarget]).
Proof.
  set (clr := {| cl_renderTarget := renderTarget; fColor := color;
                 fRect := Some {| fLeft := 0; fTop := 0;
                                  fRight := rt_width renderTarget;
                                  fBottom := rt_height renderTarget |};
                 fCanIgnoreRect := Some canIgnoreRect |}).
  exists (push_back st (new_cmd (CClear clr))).
  do 4 (split; [done|]). intros Hst Hcolor.
  destruct (flush_total tb (push_back st (new_cmd (CClear clr))))
    as [[vs evs] Hf]; [by apply staged_push|].
  destruct (flush_clear _ _ _ _ (length (fCmdBuffer st)) (new_cmd (CClear clr))
              clr Hf) as (v & Hv & _ & Hev); [apply lookup_snoc|done|].
  exists vs, evs, v. split; [done|]. split; [done|].
  rewrite Hev. simpl. by rewrite bool_decide_eq_false_2 by (by intros Heq).
Qed.

(** C10.  [recordClear] stores the colour it is given, also when that is
    [GrColor_ILLEGAL]; when such a recorder is flushed, the iteration on
    the record calls the GPU's [discard] on the render target and not
    [clear]. *)
Theorem clear_with_sentinel_is_discard tb w st rect canIgnoreRect renderTarget :
  staged false (types st) = true →
  ∃ st' c clr vs evs v,
    recordClear w st rect GrColor_ILLEGAL canIgnoreRect renderTarget
    = Some (w, st', Some (length (fCmdBuffer st)))
    ∧ fCmdBuffer st' !! length (fCmdBuffer st) = Some c
    ∧ body c = CClear clr
    ∧ fColor clr = GrColor_ILLEGAL ∧ cl_renderTarget clr = renderTarget
    ∧ flush tb st' = Some (vs, evs)
    ∧ vs !! length (fCmdBuffer st) = Some v
    ∧ v_cmd v = c
    ∧ v_events v = [gpu_discard renderTarget].
Proof.
  intros Hst. unfold recordClear.
  set (r := match rect with Some r => r | None => _ end).
  set (clr := {| cl_renderTarget := renderTarget; fColor := GrColor_ILLEGAL;
                 fRect := Some r; fCanIgnoreRect := Some canIgnoreRect |}).
  destruct (flush_total tb (push_back st (new_cmd (CClear clr))))
    as [[vs evs] Hf]; [by apply staged_push|].
  destruct (flush_clear _ _ _ _ (length (fCmdBuffer st)) (new_cmd (CClear clr))
              clr Hf) as (v & Hv & Hc & Hev); [apply lookup_snoc|done|].
  exists (push_back st (new_cmd (CClear clr))), (new_cmd (CClear clr)), clr,
    vs, evs, v.
  repeat split; try done.
  - apply lookup_snoc.
  - rewrite Hev. simpl. by rewrite bool_decide_eq_true_2.
Qed.

End Claims.

(** * Further properties of the recorder *)

Section Recording.
Context `{Collaborators}.

(** ** The recorders by cases *)

Lemma resolved_extends ws wd st cand w1 st1 b :
  resolved ws wd st cand w1 st1 b →
  ∃ added, fCmdBuffer st1 = fCmdBuffer st ++ added
           ∧ (added = [] ∧ st1 = st
              ∨ ∃ m, added = [{| fMarkerID := m; body := CSetState cand |}]).
Proof.
  intros Hr. inversion Hr; subst.
  - exists []. rewrite app_nil_r. auto.
  - exists []. rewrite app_nil_r. auto.
  - eexists. split; [done|]. right. by eexists.
Qed.

(** When the last record after state resolution is not a state record, the
    candidate was elided. *)
Lemma resolved_tail ws wd st cand w1 st1 c :
  resolved ws wd st cand w1 st1 true →
  back st1 = Some c → as_state c = None →
  st1 = st ∧ w1 = wd
  ∧ ∃ active, last_state (fCmdBuffer st) = Some active
              ∧ states_equal active cand = true.
Proof.
  intros Hr Hc Hs. inversion Hr as [|prev ? Hp Heq|wk m ? ? ?]; subst.
  - eauto.
  - unfold back in Hc. simpl in Hc. rewrite last_snoc in Hc.
    injection Hc as <-. done.
Qed.

Lemma recordDrawPath_cases w st pp path ss pi w' st' r :
  wf st = true →
  recordDrawPath w st pp path ss pi = Some (w', st', r) →
  ∃ st1 b,
    resolved (setupPipeline w pi).1 (setupPipeline w pi).1 st
      {| fPrimitiveProcessor := Some pp; fPipeline := (setupPipeline w pi).2;
         fBatchTracker :=
           initBatchTracker pp (getInitBatchTracker (setupPipeline w pi).2) |}
      w' st1 b
    ∧ if b
      then st' = push_back st1 (new_cmd (CDrawPath
                   {| dp_path := path; dp_fStencilSettings := ss |}))
           ∧ r = Some (length (fCmdBuffer st1))
      else st' = st1 ∧ r = None.
Proof.
  intros Hwf. unfold recordDrawPath.
  rewrite setup_resolve by (by apply wf_prev, wf_wf_open). simpl.
  destruct (resolve _ _ st _) as [[w1 st1] b] eqn:Hres.
  apply resolve_resolved in Hres. simpl.
  destruct b; simpl; intros [= <- <- <-];
    [by exists st1, true|by exists st1, false].
Qed.

Lemma recordDrawPaths_cases w st pp pr iv ity tv tty n ss pi w' st' r :
  wf st = true →
  recordDrawPaths w st pp pr iv ity tv tty n ss pi = Some (w', st', r) →
  ∃ w1 st1 b,
    resolved (setupPipeline w pi).1 (setupPipeline w pi).1 st
      {| fPrimitiveProcessor := Some pp; fPipeline := (setupPipeline w pi).2;
         fBatchTracker :=
           initBatchTracker pp (getInitBatchTracker (setupPipeline w pi).2) |}
      w1 st1 b
    ∧ if b
      then ∃ c, back st1 = Some c
           ∧ w' = (appendIndicesAndTransforms w1 iv ity tv tty n).1
           ∧ match fold_target st1 c pp pr ity tty ss pi
                     (appendIndicesAndTransforms w1 iv ity tv tty n).2.1
                     (appendIndicesAndTransforms w1 iv ity tv tty n).2.2 with
             | Some previous =>
                 st' = store (length (fCmdBuffer st1) - 1)
                         {| fMarkerID := fMarkerID c;
                            body := CDrawPaths (add_count previous n) |} st1
                 ∧ r = None
             | None =>
                 st' = push_back st1 (new_cmd (CDrawPaths
                         {| pathRange := pr;
                            fIndices :=
                              (appendIndicesAndTransforms w1 iv ity tv tty n).2.1;
                            fIndexType := ity;
                            fTransforms :=
                              (appendIndicesAndTransforms w1 iv ity tv tty n).2.2;
                            fTransformType := tty; fCount := n;
                            fStencilSettings := ss |}))
                 ∧ r = Some (length (fCmdBuffer st1))
             end
      else w' = w1 ∧ st' = st1 ∧ r = None.
Proof.
  intros Hwf. unfold recordDrawPaths.
  rewrite setup_resolve by (by apply wf_prev, wf_wf_open). simpl.
  destruct (resolve _ _ st _) as [[w1 st1] b] eqn:Hres.
  pose proof (resolve_resolved _ _ _ _ _ _ _ Hres) as Hr. simpl.
  destruct b; simpl.
  - destruct (resolved_open _ _ _ _ _ _ Hwf Hr) as (_ & _ & P & HP & _).
    destruct (appendIndicesAndTransforms w1 iv ity tv tty n) as [w2 [si sx]]
      eqn:Happ.
    destruct (back_is_Some st1) as [c Hc]; [by rewrite HP|].
    rewrite Hc. simpl. intros Hrec.
    exists w1, st1, true. split; [done|]. exists c. rewrite Happ. simpl.
    destruct (fold_target st1 c pp pr ity tty ss pi si sx);
      by injection Hrec as <- <- <-.
  - intros [= <- <- <-]. by exists w1, st1, false.
Qed.

(** The tracked batch is the last record whenever that is a batch. *)
Lemma tracked_is_tail st c d :
  wf_open st = true → back st = Some c → type c = kDrawBatch_CmdType →
  fDrawBatch st = Some d →
  d = length (fCmdBuffer st) - 1
  ∧ ∃ tracked, body c = CDrawBatch tracked
               ∧ deref_DrawBatch st d = Some tracked.
Proof.
  intros Hopen Hc Hty Hd.
  apply wf_open_spec in Hopen as (_ & Hb & _).
  assert (d = length (fCmdBuffer st) - 1) as ->.
  { rewrite Hd, <- Hty in Hb.
    rewrite (last_index_tail (type c) (types st)) in Hb.
    - rewrite length_types in Hb. by injection Hb.
    - unfold types. unfold back in Hc. by rewrite fmap_last, Hc. }
  split; [done|].
  destruct (deref_DrawBatch_last st _ Hb Hd) as (c' & tracked & Hc' & Hbody & Hde).
  rewrite (back_lookup _ _ Hc) in Hc'. injection Hc' as <-. by exists tracked.
Qed.

Lemma recordDrawBatch_cases w st batch pi w' st' r :
  wf st = true →
  recordDrawBatch w st batch pi = Some (w', st', r) →
  ∃ w1 st1 b,
    resolved (setupPipeline w pi).1
      (batch_initBatchTracker (setupPipeline w pi).1 batch
         (getInitBatchTracker (setupPipeline w pi).2)) st
      {| fPrimitiveProcessor := None; fPipeline := (setupPipeline w pi).2;
         fBatchTracker := GrBatchTracker_new |}
      w1 st1 b
    ∧ if b
      then ∃ c, back st1 = Some c
           ∧ (type c ≠ kDrawBatch_CmdType ∨ fDrawBatch st1 = None →
              w' = w1 ∧ st' = appended_batch st1 batch
              ∧ r = Some (length (fCmdBuffer st1)))
           ∧ (type c = kDrawBatch_CmdType → fDrawBatch st1 ≠ None →
              ∃ tracked,
                body c = CDrawBatch tracked
                ∧ fDrawBatch st1 = Some (length (fCmdBuffer st1) - 1)
                ∧ w' = (combineIfPossible w1 tracked batch).1
                ∧ if (combineIfPossible w1 tracked batch).2
                  then st' = st1 ∧ r = Some (length (fCmdBuffer st1) - 1)
                  else st' = appended_batch st1 batch
                       ∧ r = Some (length (fCmdBuffer st1)))
      else w' = w1 ∧ st' = st1 ∧ r = None.
Proof.
  intros Hwf. unfold recordDrawBatch.
  rewrite setup_batch_resolve by (by apply wf_prev, wf_wf_open). simpl.
  destruct (resolve _ _ st _) as [[w1 st1] b] eqn:Hres.
  pose proof (resolve_resolved _ _ _ _ _ _ _ Hres) as Hr. simpl.
  destruct b; simpl.
  - destruct (resolved_open _ _ _ _ _ _ Hwf Hr) as (Hopen & _ & P & HP & _).
    destruct (back_is_Some st1) as [c Hc]; [by rewrite HP|].
    rewrite Hc. simpl. unfold append_DrawBatch. intros Hrec.
    exists w1, st1, true. split; [done|]. exists c. split; [done|]. split.
    + intros [Hty|Hnull].
      * rewrite bool_decide_eq_false_2 in Hrec by done. simpl in Hrec.
        by injection Hrec as <- <- <-.
      * rewrite Hnull in Hrec. simpl in Hrec. rewrite orb_true_r in Hrec.
        by injection Hrec as <- <- <-.
    + intros Hty Hsome.
      rewrite bool_decide_eq_true_2 in Hrec by done. simpl in Hrec.
      destruct (fDrawBatch st1) as [d|] eqn:Hd; [|done]. simpl in Hrec.
      destruct (tracked_is_tail st1 c d Hopen Hc Hty Hd)
        as (-> & tracked & Hbody & Hde).
      rewrite Hde in Hrec. simpl in Hrec.
      exists tracked. split; [done|]. split; [done|].
      destruct (combineIfPossible w1 tracked batch) as [w2 [|]]; simpl in *;
        by injection Hrec as <- <- <-.
  - intros [= <- <- <-]. by exists w1, st1, false.
Qed.

(** ** Empty buffers and [reset] *)

(** X1.  [flush] on an empty buffer returns at once: it makes no call at
    all, not even the unmapping of the pools, and runs no iteration; on any
    other buffer it makes calls.  In particular [reset] followed by
    [flush] calls nothing. *)
Theorem flush_is_silent_iff_empty tb st :
  flush tb (reset st) = Some ([], [])
  ∧ ∀ vs evs,
      flush tb st = Some (vs, evs) →
      (evs = [] ↔ fCmdBuffer st = []) ∧ (vs = [] ↔ fCmdBuffer st = []).
Proof.
  split; [done|]. intros vs evs Hf.
  destruct (decide (fCmdBuffer st = [])) as [Hnil|Hne].
  - unfold flush in Hf. rewrite Hnil in Hf. by injection Hf as <- <-.
  - destruct (flush_passes _ _ _ _ Hf Hne) as (gen & cur & _ & Hm & ->).
    apply main_pass_cmds in Hm. split; split; try done.
    + by destruct gen.
    + intros ->. by rewrite <- Hm.
Qed.

(** X2.  [reset] forgets the active state: whatever the recorder held, the
    first drawn request after a [reset] that resolves a state appends its
    own state record, followed by its draw; the buffer then holds exactly
    these two records, [fPrevState] points to the first and the draw is
    returned. *)
Theorem first_draw_after_reset_keeps_its_state w st req cand :
  candidate w req = Some cand →
  mustSkip (fPipeline cand) = false →
  ∃ w' st' m d,
    record w (reset st) req = Some (w', st', Some 1)
    ∧ fCmdBuffer st' = [{| fMarkerID := m; body := CSetState cand |}; d]
    ∧ request_kind req = Some (type d)
    ∧ fPrevState st' = Some 0.
Proof.
  intros Hcand Hskip.
  assert (wf (reset st) = true) as Hwf by done.
  destruct (record_total w (reset st) req Hwf (candidate_not_trace _ _ _ Hcand))
    as [[[w' st'] r] Hrec].
  assert (∀ ws wd w1 st1,
            resolved ws wd (reset st) cand w1 st1 true →
            ∃ m, st1 = {| fCmdBuffer := [{| fMarkerID := m; body := CSetState cand |}];
                          fPrevState := Some 0; fDrawBatch := None |}) as Hkept.
  { intros ws wd w1 st1 Hr. inversion Hr; subst; [done|]. by eexists. }
  assert (∀ ws wd w1 st1, ¬ resolved ws wd (reset st) cand w1 st1 false) as Hdrawn.
  { intros ws wd w1 st1 Hr. inversion Hr as [Hs| |]. by rewrite Hs in Hskip. }
  destruct req as [batch pi| |pp path ss pi|pp pr iv ity tv tty n ss pi| | | | | |];
    try done; simpl in Hcand; injection Hcand as <-; simpl in Hrec.
  - destruct (recordDrawBatch_cases _ _ _ _ _ _ _ Hwf Hrec)
      as (w1 & st1 & [|] & Hr & Hb); [|by destruct (Hdrawn _ _ _ _ Hr)].
    destruct (Hkept _ _ _ _ Hr) as [m ->].
    destruct Hb as (c & Hc & Happend & _). injection Hc as <-.
    destruct Happend as (-> & -> & ->); [by left|].
    eexists _, _, m, _. split; [exact Hrec|]. done.
  - destruct (recordDrawPath_cases _ _ _ _ _ _ _ _ _ Hwf Hrec)
      as (st1 & [|] & Hr & Hb); [|by destruct (Hdrawn _ _ _ _ Hr)].
    destruct (Hkept _ _ _ _ Hr) as [m ->]. destruct Hb as [-> ->].
    eexists _, _, m, _. split; [exact Hrec|]. done.
  - destruct (recordDrawPaths_cases _ _ _ _ _ _ _ _ _ _ _ _ _ _ Hwf Hrec)
      as (w1 & st1 & [|] & Hr & Hb); [|by destruct (Hdrawn _ _ _ _ Hr)].
    destruct (Hkept _ _ _ _ Hr) as [m ->].
    destruct Hb as (c & Hc & -> & Hfold). injection Hc as <-.
    simpl in Hfold. destruct Hfold as [-> ->].
    eexists _, _, m, _. split; [exact Hrec|]. done.
Qed.

(** ** The state records a request emits *)

Lemma states_of_insert buf p c c' :
  buf !! p = Some c → as_state c' = as_state c →
  states_of (<[p := c']> buf) = states_of buf.
Proof.
  intros Hp Hs. unfold states_of.
  rewrite <- (take_drop_middle buf p c Hp) at 2.
  rewrite insert_take_drop by (by eapply lookup_lt_Some).
  rewrite !omap_app. simpl. by rewrite Hs.
Qed.

(** X3.  What a request adds to the state records of the buffer: a request
    that resolves a state adds its candidate, unless the pipeline is
    skipped or the last state record of the buffer, however many other
    records follow it, equals the candidate; every other request but
    [reset] adds none.  No request changes or removes a state record. *)
Theorem state_records_emitted w st req w' st' r :
  wf st = true → req ≠ ResetReq →
  record w st req = Some (w', st', r) →
  states_of (fCmdBuffer st')
  = states_of (fCmdBuffer st)
    ++ match candidate w req with
       | Some cand => emitted_state (fCmdBuffer st) cand
       | None => []
       end.
Proof.
  intros Hwf Hreset Hrec.
  destruct (candidate w req) as [cand|] eqn:Hcand.
  - destruct (record_after_resolution _ _ _ _ _ _ _ Hwf Hcand Hrec)
      as (ws & wd & w1 & st1 & b & Hr & (-> & _ & _) & _).
    unfold emitted_state.
    inversion Hr as [Hskip|prev Hskip Hp Heq|wk m Hskip Hm Hne]; subst.
    + by rewrite Hskip, app_nil_r.
    + by rewrite Hskip, Hp, Heq, app_nil_r.
    + simpl. rewrite states_of_snoc, Hskip. simpl.
      destruct (last_state (fCmdBuffer st)) as [prev|]; [|done].
      by rewrite (Hne prev eq_refl).
  - rewrite app_nil_r.
    destruct req; try done; simpl in Hrec; try (injection Hrec as <- <- <-);
      try (simpl; by rewrite states_of_snoc, app_nil_r).
    unfold trace_cmd in Hrec.
    destruct (fCmdBuffer st !! cmd) as [c|] eqn:Hc; [|done]. simpl in Hrec.
    destruct (recordTraceMarkersIfNecessary w (fMarkerID c)) as [w2 m].
    injection Hrec as <- <- <-. simpl. by apply (states_of_insert _ _ c).
Qed.

(** ** Recording only appends *)

(** The three ways a request changes the buffer: it appends records, it
    grows the count of a trailing [DrawPaths] record, or it writes the
    trace marker of one record. *)
Lemma record_shape w st req w' st' r :
  wf st = true → req ≠ ResetReq →
  record w st req = Some (w', st', r) →
  (∃ added, fCmdBuffer st' = fCmdBuffer st ++ added)
  ∨ (∃ pre tail previous,
       fCmdBuffer st = pre ++ [tail] ∧ body tail = CDrawPaths previous
       ∧ fCmdBuffer st'
         = pre ++ [{| fMarkerID := fMarkerID tail;
                      body := CDrawPaths
                                (add_count previous (request_count req)) |}])
  ∨ (∃ p c m,
       req = TraceReq p ∧ fCmdBuffer st !! p = Some c
       ∧ fCmdBuffer st' = <[p := {| fMarkerID := m; body := body c |}]> (fCmdBuffer st)).
Proof.
  intros Hwf Hreset Hrec.
  destruct req as [batch pi| |pp path ss pi|pp pr iv ity tv tty n ss pi| | | | | |p];
    simpl in Hrec; try done;
    try (injection Hrec as <- <- <-; left; by eexists).
  - left.
    destruct (recordDrawBatch_cases _ _ _ _ _ _ _ Hwf Hrec)
      as (w1 & st1 & b & Hr & Hb).
    destruct (resolved_extends _ _ _ _ _ _ _ Hr) as (added & Hadd & _).
    destruct b; [|destruct Hb as (_ & -> & _); by eexists].
    destruct Hb as (c & Hc & Happend & Hcombine).
    destruct (decide (type c = kDrawBatch_CmdType)) as [Hty|Hty];
      [destruct (fDrawBatch st1) as [d|] eqn:Hd|].
    + destruct (Hcombine Hty) as (tracked & _ & _ & _ & Hif); [done|].
      destruct (combineIfPossible w1 tracked batch).2.
      * destruct Hif as [-> _]. by eexists.
      * destruct Hif as [-> _]. simpl. rewrite Hadd, <- app_assoc. by eexists.
    + destruct Happend as (_ & -> & _); [by right|].
      simpl. rewrite Hadd, <- app_assoc. by eexists.
    + destruct Happend as (_ & -> & _); [by left|].
      simpl. rewrite Hadd, <- app_assoc. by eexists.
  - left.
    destruct (recordDrawPath_cases _ _ _ _ _ _ _ _ _ Hwf Hrec)
      as (st1 & b & Hr & Hb).
    destruct (resolved_extends _ _ _ _ _ _ _ Hr) as (added & Hadd & _).
    destruct b; destruct Hb as [-> _]; [|by eexists].
    simpl. rewrite Hadd, <- app_assoc. by eexists.
  - destruct (recordDrawPaths_cases _ _ _ _ _ _ _ _ _ _ _ _ _ _ Hwf Hrec)
      as (w1 & st1 & b & Hr & Hb).
    destruct (resolved_extends _ _ _ _ _ _ _ Hr) as (added & Hadd & _).
    destruct b; [|destruct Hb as (_ & -> & _); left; by eexists].
    destruct Hb as (c & Hc & _ & Hfold).
    destruct (fold_target _ _ _ _ _ _ _ _ _ _) as [previous|] eqn:Hf.
    + right. left. destruct Hfold as [-> _].
      apply fold_target_body in Hf.
      destruct (resolved_tail _ _ _ _ _ _ _ Hr Hc) as (-> & _);
        [unfold as_state; by rewrite Hf|].
      unfold back in Hc. apply last_Some in Hc as [pre Hpre].
      exists pre, c, previous. split; [done|]. split; [done|].
      simpl. rewrite Hpre, length_app. simpl.
      replace (length pre + 1 - 1) with (length pre) by lia.
      by rewrite insert_snoc.
    + left. destruct Hfold as [-> _]. simpl.
      rewrite Hadd, <- app_assoc. by eexists.
  - right. right. unfold trace_cmd in Hrec.
    destruct (fCmdBuffer st !! p) as [c|] eqn:Hc; [|done]. simpl in Hrec.
    destruct (recordTraceMarkersIfNecessary w (fMarkerID c)) as [w2 m].
    injection Hrec as <- <- <-. by exists p, c, m.
Qed.

(** X4.  Recording never removes or reorders: after any request but
    [reset] the buffer is at least as long, and every record it held is
    still at its place, unchanged -- except that a folded request has
    grown the count of the last record, a [DrawPaths], by its own count,
    and that tagging a command has written that command's trace marker. *)
Theorem record_is_append_only w st req w' st' r :
  wf st = true → req ≠ ResetReq →
  record w st req = Some (w', st', r) →
  length (fCmdBuffer st) ≤ length (fCmdBuffer st')
  ∧ ∀ k c,
      fCmdBuffer st !! k = Some c →
      ∃ c', fCmdBuffer st' !! k = Some c'
        ∧ (c' = c
           ∨ S k = length (fCmdBuffer st)
             ∧ (∃ previous,
                  body c = CDrawPaths previous
                  ∧ c' = {| fMarkerID := fMarkerID c;
                            body := CDrawPaths
                                      (add_count previous (request_count req)) |})
           ∨ req = TraceReq k ∧ body c' = body c).
Proof.
  intros Hwf Hreset Hrec.
  destruct (record_shape _ _ _ _ _ _ Hwf Hreset Hrec)
    as [[added ->]|[(pre & tail & previous & Hpre & Hbody & ->)
                   |(p & c0 & m & -> & Hp & ->)]].
  - split; [rewrite length_app; lia|]. intros k c Hk.
    exists c. split; [by apply lookup_app_l_Some|by left].
  - rewrite Hpre, !length_app. split; [done|]. intros k c Hk.
    destruct (decide (k < length pre)) as [Hlt|Hge].
    + rewrite lookup_app_l in Hk |- * by done. exists c. auto.
    + assert (k = length pre) as ->.
      { apply lookup_lt_Some in Hk. rewrite length_app in Hk. simpl in Hk. lia. }
      rewrite lookup_snoc in Hk |- *. injection Hk as <-.
      eexists. split; [done|]. right. left.
      split; [simpl; lia|]. by exists previous.
  - rewrite length_insert. split; [done|]. intros k c Hk.
    destruct (decide (p = k)) as [->|Hne].
    + rewrite list_lookup_insert_eq by (by eapply lookup_lt_Some).
      eexists. split; [done|]. right. right. split; [done|].
      rewrite Hp in Hk. by injection Hk as <-.
    + rewrite list_lookup_insert_ne by done. exists c. auto.
Qed.

(** X5.  A command that a request returns is the last record of the
    buffer and of the kind the request asks for. *)
Theorem returned_command_is_last w st req w' st' p :
  wf st = true →
  record w st req = Some (w', st', Some p) →
  S p = length (fCmdBuffer st')
  ∧ ∃ c, fCmdBuffer st' !! p = Some c ∧ request_kind req = Some (type c).
Proof.
  intros Hwf Hrec.
  assert (∀ (st1 st2 : Recorder) c k,
            st' = st2 → fCmdBuffer st2 = fCmdBuffer st1 ++ [c] →
            Some p = Some (length (fCmdBuffer st1)) →
            k = Some (type c) →
            S p = length (fCmdBuffer st')
            ∧ ∃ c, fCmdBuffer st' !! p = Some c ∧ k = Some (type c)) as Hpush.
  { intros st1 st2 c k -> -> [= ->] ->. rewrite length_app, lookup_snoc. simpl.
    split; [lia|]. by eexists. }
  destruct req as [batch pi| |pp path ss pi|pp pr iv ity tv tty n ss pi| | | | | |q];
    simpl in Hrec; try done;
    try (injection Hrec as <- <- <-; by eapply (Hpush st)).
  - destruct (recordDrawBatch_cases _ _ _ _ _ _ _ Hwf Hrec)
      as (w1 & st1 & b & Hr & Hb).
    destruct b; [|by destruct Hb as (_ & _ & ?)].
    destruct Hb as (c & Hc & Happend & Hcombine).
    destruct (decide (type c = kDrawBatch_CmdType)) as [Hty|Hty];
      [destruct (fDrawBatch st1) as [d|] eqn:Hd|].
    + destruct (Hcombine Hty) as (tracked & Hbody & _ & _ & Hif); [done|].
      destruct (combineIfPossible w1 tracked batch).2.
      * destruct Hif as [-> [= ->]].
        pose proof (back_lookup _ _ Hc) as Hl.
        pose proof (lookup_lt_Some _ _ _ Hl). split; [lia|].
        exists c. by rewrite Hty.
      * destruct Hif as [Hst Hr']. by eapply (Hpush st1 _ _ _ Hst).
    + destruct Happend as (_ & Hst & Hr'); [by right|].
      by eapply (Hpush st1 _ _ _ Hst).
    + destruct Happend as (_ & Hst & Hr'); [by left|].
      by eapply (Hpush st1 _ _ _ Hst).
  - destruct (recordDrawPath_cases _ _ _ _ _ _ _ _ _ Hwf Hrec)
      as (st1 & b & Hr & Hb).
    destruct b; destruct Hb as [Hst Hr']; [|done].
    by eapply (Hpush st1 _ _ _ Hst).
  - destruct (recordDrawPaths_cases _ _ _ _ _ _ _ _ _ _ _ _ _ _ Hwf Hrec)
      as (w1 & st1 & b & Hr & Hb).
    destruct b; [|by destruct Hb as (_ & _ & ?)].
    destruct Hb as (c & Hc & _ & Hfold).
    destruct (fold_target _ _ _ _ _ _ _ _ _ _); destruct Hfold as [Hst Hr'];
      [done|]. by eapply (Hpush st1 _ _ _ Hst).
  - unfold trace_cmd in Hrec.
    destruct (fCmdBuffer st !! q) as [c|]; [|done]. simpl in Hrec.
    by destruct (recordTraceMarkersIfNecessary w (fMarkerID c)).
Qed.

(** ** When a request merges *)

Lemma fold_target_Some st b pp pr ity tty ss pi si sx previous :
  fold_target st b pp pr ity tty ss pi si sx = Some previous →
  body b = CDrawPaths previous
  ∧ pr = pathRange previous ∧ ity = fIndexType previous
  ∧ tty = fTransformType previous ∧ ss = fStencilSettings previous
  ∧ path_fill_type_is_winding ss = true
  ∧ willBlendWithDst pi pp = false
  ∧ si = char_at (fIndices previous)
           (int_mul (fCount previous) (PathIndexSizeInBytes ity))
  ∧ (PathTransformSize tty = 0%Z
     ∨ sx = float_at (fTransforms previous)
              (int_mul (fCount previous) (PathTransformSize tty))).
Proof.
  unfold fold_target. destruct (body b) as [| | | | | | |c|]; try done.
  destruct (_ && _ && _ && _ && _ && _) eqn:Hcond; [|done].
  destruct (_ && (_ || _)) eqn:Hcont; [|done]. intros [= ->].
  repeat (apply andb_true_iff in Hcond as [Hcond ?]).
  apply andb_true_iff in Hcont as [Hsi Hsx].
  repeat match goal with
         | Hd : bool_decide _ = true |- _ => apply bool_decide_eq_true in Hd
         end.
  subst. repeat split; try done.
  - by apply negb_true_iff.
  - apply orb_true_iff in Hsx as [Hz|Hx].
    + left. by apply bool_decide_eq_true in Hz.
    + right. by apply bool_decide_eq_true in Hx.
Qed.

(** X6.  A [recordDrawPaths] request whose pipeline is not skipped returns
    no command exactly when it is folded: when the last record of the
    buffer is a [DrawPaths] record with the request's path range, element
    types and stencil settings, the fill winds, the draw does not blend,
    the active state equals the request's, and the pool addresses handed
    out continue the record's.  In every other case a new record is
    returned. *)
Theorem drawPaths_returns_null_iff_folded w st pp pr iv ity tv tty n ss pi w' st' r :
  wf st = true →
  mustSkip (setupPipeline w pi).2 = false →
  recordDrawPaths w st pp pr iv ity tv tty n ss pi = Some (w', st', r) →
  r = None
  ↔ ∃ pre tail previous active,
      fCmdBuffer st = pre ++ [tail] ∧ body tail = CDrawPaths previous
      ∧ last_state (fCmdBuffer st) = Some active
      ∧ foldable w active previous (DrawPathsReq pp pr iv ity tv tty n ss pi).
Proof.
  intros Hwf Hskip Hrec. split.
  - intros ->.
    destruct (recordDrawPaths_cases _ _ _ _ _ _ _ _ _ _ _ _ _ _ Hwf Hrec)
      as (w1 & st1 & b & Hr & Hb).
    destruct b.
    2: { inversion Hr as [Hs| |]. simpl in Hs. by rewrite Hs in Hskip. }
    destruct Hb as (c & Hc & _ & Hfold).
    destruct (fold_target _ _ _ _ _ _ _ _ _ _) as [previous|] eqn:Hf;
      [|by destruct Hfold].
    apply fold_target_Some in Hf
      as (Hbody & -> & -> & -> & -> & Hwind & Hblend & Hsi & Hsx).
    destruct (resolved_tail _ _ _ _ _ _ _ Hr Hc) as (-> & -> & active & Hact & Heq);
      [unfold as_state; by rewrite Hbody|].
    unfold back in Hc. apply last_Some in Hc as [pre Hpre].
    exists pre, c, previous, active. repeat split; try done.
  - intros (pre & tail & previous & active & Hpre & Hbody & Hact & Hfold).
    pose proof (fold_step _ _ _ _ _ _ _ Hwf Hpre Hbody Hact Hfold) as Hstep.
    simpl in Hstep. rewrite Hrec in Hstep. by injection Hstep as _ _ ->.
Qed.

(** X7.  A [recordDrawBatch] request whose pipeline is not skipped leaves
    the buffer as it is exactly when it combines: when the active state
    equals the request's, the last record of the buffer is a [DrawBatch]
    and its batch accepts the new one in [combineIfPossible].  In every
    other case the buffer ends in a new [DrawBatch] record for the batch,
    which becomes the tracked batch and is returned. *)
Theorem drawBatch_keeps_buffer_iff_combined w st batch pi w' st' r :
  wf st = true →
  mustSkip (setupPipeline w pi).2 = false →
  recordDrawBatch w st batch pi = Some (w', st', r) →
  (fCmdBuffer st' = fCmdBuffer st
   ↔ ∃ active tail tracked,
       last_state (fCmdBuffer st) = Some active
       ∧ states_equal active
           {| fPrimitiveProcessor := None; fPipeline := (setupPipeline w pi).2;
              fBatchTracker := GrBatchTracker_new |} = true
       ∧ back st = Some tail ∧ body tail = CDrawBatch tracked
       ∧ (combineIfPossible
            (batch_initBatchTracker (setupPipeline w pi).1 batch
               (getInitBatchTracker (setupPipeline w pi).2))
            tracked batch).2 = true)
  ∧ (fCmdBuffer st' ≠ fCmdBuffer st →
     list.last (fCmdBuffer st') = Some (new_cmd (CDrawBatch batch))
     ∧ fDrawBatch st' = Some (length (fCmdBuffer st') - 1)
     ∧ r = fDrawBatch st').
Proof.
  intros Hwf Hskip Hrec.
  destruct (recordDrawBatch_cases _ _ _ _ _ _ _ Hwf Hrec)
    as (w1 & st1 & b & Hr & Hb).
  destruct b.
  2: { inversion Hr as [Hs| |]. simpl in Hs. by rewrite Hs in Hskip. }
  destruct Hb as (c & Hc & Happend & Hcombine).
  destruct (resolved_extends _ _ _ _ _ _ _ Hr) as (added & Hadd & _).
  assert (st' = appended_batch st1 batch ∧ r = Some (length (fCmdBuffer st1)) →
          fCmdBuffer st' ≠ fCmdBuffer st
          ∧ list.last (fCmdBuffer st') = Some (new_cmd (CDrawBatch batch))
          ∧ fDrawBatch st' = Some (length (fCmdBuffer st') - 1)
          ∧ r = fDrawBatch st') as Hnew.
  { intros [-> ->]. simpl. rewrite last_snoc, length_app. simpl.
    split; [|split; [done|split; f_equal; lia]].
    intros Heq. apply (f_equal length) in Heq.
    rewrite Hadd, !length_app in Heq. simpl in Heq. lia. }
  assert (type c = kDrawBatch_CmdType → is_Some (fDrawBatch st1)) as Htracked.
  { intros Hty.
    destruct (resolved_open _ _ _ _ _ _ Hwf Hr) as (Hopen & _).
    apply wf_open_spec in Hopen as (_ & -> & _).
    rewrite <- Hty, (last_index_tail (type c) (types st1)); [done|].
    unfold types. unfold back in Hc. by rewrite fmap_last, Hc. }
  destruct (decide (type c = kDrawBatch_CmdType)) as [Hty|Hty].
  - destruct (Htracked Hty) as [d Hd].
    destruct (Hcombine Hty) as (tracked & Hbody & Hlast & -> & Hif);
      [by rewrite Hd|].
    destruct (resolved_tail _ _ _ _ _ _ _ Hr Hc) as (-> & -> & active & Hact & Heq);
      [unfold as_state; by rewrite Hbody|].
    destruct (combineIfPossible _ tracked batch).2 eqn:Hcomb.
    + destruct Hif as [-> ->]. split; [|done]. split; [|done].
      intros _. by exists active, c, tracked.
    + destruct (Hnew Hif) as (Hne & Hrest). split; [|done]. split; [done|].
      intros (active' & tail & tracked' & _ & _ & Htail & Hbody' & Hcomb').
      rewrite Hc in Htail. injection Htail as <-.
      rewrite Hbody in Hbody'. injection Hbody' as <-.
      by rewrite Hcomb in Hcomb'.
  - destruct (Hnew (proj2 (Happend (or_introl Hty)))) as (Hne & Hrest).
    split; [|done]. split; [done|].
    intros (active & tail & tracked & Hact & Heq & Htail & Hbody & _).
    inversion Hr as [|prev ? Hp ?|wk m ? ? Hkept]; subst.
    + rewrite Hc in Htail. injection Htail as <-.
      unfold type in Hty. by rewrite Hbody in Hty.
    + by rewrite (Hkept active Hact) in Heq.
Qed.

(** ** From a request to its dispatch *)

Lemma wf_staged st : wf st = true → staged false (types st) = true.
Proof.
  intros Hwf. apply wf_spec in Hwf as [_ Hopen].
  by apply wf_open_spec in Hopen as (_ & _ & ? & _).
Qed.

(** X8.  A [recordDrawPath] request whose pipeline is not skipped comes
    out of [flush] as one [drawPath] call on the GPU, with the request's
    path and stencil settings and with the state the request resolved: its
    candidate, or the earlier state found equal to it. *)
Theorem recorded_drawPath_is_dispatched tb w st pp path ss pi :
  wf st = true →
  mustSkip (setupPipeline w pi).2 = false →
  ∃ w' st' p vs evs v active,
    recordDrawPath w st pp path ss pi = Some (w', st', Some p)
    ∧ flush tb st' = Some (vs, evs)
    ∧ vs !! p = Some v
    ∧ v_events v
      = [gpu_drawPath active {| dp_path := path; dp_fStencilSettings := ss |}]
    ∧ (active = {| fPrimitiveProcessor := Some pp;
                   fPipeline := (setupPipeline w pi).2;
                   fBatchTracker :=
                     initBatchTracker pp
                       (getInitBatchTracker (setupPipeline w pi).2) |}
       ∨ states_equal active
           {| fPrimitiveProcessor := Some pp;
              fPipeline := (setupPipeline w pi).2;
              fBatchTracker :=
                initBatchTracker pp
                  (getInitBatchTracker (setupPipeline w pi).2) |} = true).
Proof.
  intros Hwf Hskip.
  destruct (recordDrawPath_wf w st pp path ss pi Hwf)
    as (w' & st' & r & Hrec & Hwf').
  destruct (recordDrawPath_cases _ _ _ _ _ _ _ _ _ Hwf Hrec)
    as (st1 & b & Hr & Hb).
  destruct b.
  2: { inversion Hr as [Hs| |]. simpl in Hs. by rewrite Hs in Hskip. }
  destruct Hb as [-> ->].
  destruct (resolved_open _ _ _ _ _ _ Hwf Hr) as (_ & _ & active & Hact & Hor).
  destruct (flush_total tb _ (wf_staged _ Hwf')) as [[vs evs] Hf].
  destruct (flush_lookup _ _ _ _ (length (fCmdBuffer st1)) _ Hf (lookup_snoc _ _))
    as (v & next & Hv & _ & Hvis & Hstate).
  eexists w', _, _, vs, evs, v, active.
  split; [done|]. split; [done|]. split; [done|]. split; [|done].
  simpl in Hstate. rewrite take_app_length, Hact in Hstate.
  rewrite Hstate in Hvis by done. by injection Hvis as <- _.
Qed.



(** ** Trace markers *)

Lemma execute_no_marker b cur evs :
  execute b cur = Some evs → count_if is_marker evs = 0.
Proof.
  destruct b as [| |ss|clr| | | | |]; simpl; intros He; simplify_option_eq;
    try done.
  by destruct (fPrimitiveProcessor ss); simplify_eq.
Qed.

(** The calls of one iteration are those of the record between the two
    marker calls of the record. *)
Lemma visit_bracket tb c cur evs next :
  visit tb c cur = Some (evs, next) →
  ∃ inner, evs = open_marker c ++ inner ++ close_marker c
           ∧ count_if is_marker inner = 0.
Proof.
  unfold visit. intros Hv.
  destruct (body c) as [| |ss|clr| | | | |fBatch] eqn:Hb; cbv beta iota in Hv.
  3: { destruct (if tb then _ else _) as [evs0|] eqn:He; [|done].
       simpl in Hv. injection Hv as <- <-. exists evs0. split; [done|].
       destruct tb; [destruct (has_primitive ss)|];
         try (by eapply execute_no_marker). by injection He as <-. }
  all: try (destruct (execute _ cur) as [evs0|] eqn:He; [|done];
            simpl in Hv; injection Hv as <- <-; exists evs0;
            split; [done|by eapply execute_no_marker]).
  injection Hv as <- <-. by exists [flushNext fBatch].
Qed.

Lemma gen_pass_no_marker buf cur gen final :
  gen_pass buf cur = Some (gen, final) → count_if is_marker gen = 0.
Proof.
  revert cur gen final. induction buf as [|c buf IH]; intros cur gen final; simpl.
  { by intros [= <- <-]. }
  destruct (body c) as [| |ss| | | | | |b]; try by apply IH.
  - intros Hg. simpl in Hg.
    destruct (gen_pass buf (Some ss)) as [[more fin]|] eqn:Hrest;
      [|by destruct (fPrimitiveProcessor ss)].
    destruct (fPrimitiveProcessor ss); simpl in Hg; injection Hg as <- <-;
      simpl; by eapply IH.
  - intros Hg. destruct cur as [s|]; [|done]. simpl in Hg.
    destruct (gen_pass buf (Some s)) as [[more fin]|] eqn:Hrest; [|done].
    simpl in Hg. injection Hg as <- <-. simpl. by eapply IH.
Qed.

Lemma main_pass_markers tb buf cur vs :
  main_pass tb buf cur = Some vs →
  count_if is_add_marker (concat (v_events <$> vs)) = count_if isTraced buf
  ∧ count_if is_remove_marker (concat (v_events <$> vs)) = count_if isTraced buf.
Proof.
  revert cur vs. induction buf as [|c buf IH]; intros cur vs; simpl.
  - by intros [= <-].
  - intros Hm. destruct (visit tb c cur) as [[evs next]|] eqn:Hv; [|done].
    simpl in Hm. destruct (main_pass tb buf next) as [vs'|] eqn:Hvs; [|done].
    simpl in Hm. injection Hm as <-. csimpl.
    destruct (IH _ _ Hvs) as [Ha Hr].
    destruct (visit_bracket _ _ _ _ _ Hv) as (inner & -> & Hin).
    assert (count_if is_add_marker inner = 0 ∧ count_if is_remove_marker inner = 0)
      as [Hia Hir].
    { clear -Hin. induction inner as [|e inner IH]; [done|]. simpl in *.
      unfold is_marker in Hin.
      destruct (is_add_marker e), (is_remove_marker e); simpl in *;
        try done; by apply IH. }
    rewrite !count_if_app, Ha, Hr, Hia, Hir.
    unfold open_marker, close_marker, isTraced.
    destruct (fMarkerID c); simpl; lia.
Qed.

(** X10.  Trace markers are balanced in a flush: the iteration on a traced
    record opens with [addGpuTraceMarker] of the record's marker and
    closes with [removeGpuTraceMarker] of the same marker, whatever the
    kind of record, with no other marker call between them; an untraced
    record makes no marker call; so the flush adds and removes as many
    markers as the buffer has traced records. *)
Theorem trace_markers_are_balanced tb st vs evs :
  flush tb st = Some (vs, evs) →
  count_if is_add_marker evs = count_if isTraced (fCmdBuffer st)
  ∧ count_if is_remove_marker evs = count_if isTraced (fCmdBuffer st)
  ∧ ∀ k v,
      vs !! k = Some v →
      ∃ inner,
        count_if is_marker inner = 0
        ∧ v_events v
          = match fMarkerID (v_cmd v) with
            | Some m =>
                [gpu_addGpuTraceMarker m] ++ inner ++ [gpu_removeGpuTraceMarker m]
            | None => inner
            end.
Proof.
  intros Hf.
  destruct (decide (fCmdBuffer st = [])) as [Hnil|Hne].
  { unfold flush in Hf. rewrite Hnil in Hf. injection Hf as <- <-.
    by rewrite Hnil. }
  destruct (flush_passes _ _ _ _ Hf Hne) as (gen & cur & Hgen & Hm & ->).
  assert (count_if is_marker gen = 0) as Hg.
  { destruct tb; [by eapply gen_pass_no_marker|by injection Hgen as <- _]. }
  assert (count_if is_add_marker gen = 0 ∧ count_if is_remove_marker gen = 0)
    as [Hga Hgr].
  { clear -Hg. induction gen as [|e gen IH]; [done|]. simpl in *.
    unfold is_marker in Hg.
    destruct (is_add_marker e), (is_remove_marker e); simpl in *;
      try done; by apply IH. }
  destruct (main_pass_markers _ _ _ _ Hm) as [Ha Hr].
  split; [rewrite !count_if_app, Hga, Ha; simpl; lia|].
  split; [rewrite !count_if_app, Hgr, Hr; simpl; lia|].
  intros k v Hv.
  assert (fCmdBuffer st !! k = Some (v_cmd v)) as Hk
    by (by rewrite <- (main_pass_cmds _ _ _ _ Hm), list_lookup_fmap, Hv).
  destruct (main_pass_lookup _ _ _ _ _ _ Hm Hk) as (v' & next & Hv' & _ & _ & Hvis).
  rewrite Hv in Hv'. injection Hv' as <-.
  destruct (visit_bracket _ _ _ _ _ Hvis) as (inner & -> & Hin).
  exists inner. split; [done|].
  unfold open_marker, close_marker. destruct (fMarkerID (v_cmd v)); [done|].
  by rewrite app_nil_r.
Qed.

(** ** The two builds of [flush] *)






Lemma main_pass_builds tb buf cur vs :
  main_pass tb buf cur = Some vs →
  count_if is_buildProgramDesc (concat (v_events <$> vs))
  = count_if is_primitive_state buf
  ∧ count_if is_generateGeometry (concat (v_events <$> vs)) = 0.
Proof.
  revert cur vs. induction buf as [|c buf IH]; intros cur vs; simpl.
  - by intros [= <-].
  - intros Hm. destruct (visit tb c cur) as [[evs next]|] eqn:Hv; [|done].
    simpl in Hm. destruct (main_pass tb buf next) as [vs'|] eqn:Hvs; [|done].
    simpl in Hm. injection Hm as <-. csimpl.
    destruct (IH _ _ Hvs) as [Hb Hg]. rewrite !count_if_app, Hb, Hg.
    assert (count_if is_buildProgramDesc evs
            = (if is_primitive_state c then 1 else 0)
            ∧ count_if is_generateGeometry evs = 0) as [-> ->]; [|done].
    clear -Hv. unfold visit, is_primitive_state, as_state, open_marker,
      close_marker in *.
    destruct (fMarkerID c), (body c) as [| |ss|clr| | | | |]; simpl in *;
      simplify_option_eq; try done;
      try (by case_bool_decide);
      unfold has_primitive in *;
      destruct tb, (fPrimitiveProcessor ss); simplify_option_eq; done.
Qed.

(** X12.  In the main loop of [flush] the GPU is asked to build the program
    description once for each state record that carries a primitive
    processor, and never for a state record of a batch; the loop never
    generates geometry, in either build: a [DrawBatch] record only hands
    its recorded number of draws to the batch target. *)
Theorem main_loop_builds_programs_only tb st vs evs :
  flush tb st = Some (vs, evs) →
  count_if is_buildProgramDesc (concat (v_events <$> vs))
  = count_if is_primitive_state (fCmdBuffer st)
  ∧ count_if is_generateGeometry (concat (v_events <$> vs)) = 0
  ∧ (tb = false → count_if is_generateGeometry evs = 0)
  ∧ ∀ k v b,
      vs !! k = Some v → body (v_cmd v) = CDrawBatch b →
      v_events v = open_marker (v_cmd v) ++ [flushNext b] ++ close_marker (v_cmd v).
Proof.
  intros Hf.
  destruct (decide (fCmdBuffer st = [])) as [Hnil|Hne].
  { unfold flush in Hf. rewrite Hnil in Hf. injection Hf as <- <-.
    by rewrite Hnil. }
  destruct (flush_passes _ _ _ _ Hf Hne) as (gen & cur & Hgen & Hm & ->).
  destruct (main_pass_builds _ _ _ _ Hm) as [Hb Hg].
  split; [done|]. split; [done|]. split.
  - intros ->. injection Hgen as <- _. rewrite !count_if_app, Hg. done.
  - intros k v b Hv Hbody.
    assert (fCmdBuffer st !! k = Some (v_cmd v)) as Hk
      by (by rewrite <- (main_pass_cmds _ _ _ _ Hm), list_lookup_fmap, Hv).
    destruct (main_pass_lookup _ _ _ _ _ _ Hm Hk) as (v' & next & Hv' & _ & _ & Hvis).
    rewrite Hv in Hv'. injection Hv' as <-.
    unfold visit in Hvis. rewrite Hbody in Hvis. by injection Hvis as <- _.
Qed.

(** ** Pointers of a reachable recorder *)

(** X13.  In every recorder reachable from a fresh one the two pointers
    never dangle: [fPrevState], when not null, points to a state record,
    the last of the buffer, and is null only when the buffer has no state
    record; [fDrawBatch], when not null, points to a [DrawBatch] record,
    and to the last record whenever that is a [DrawBatch] (the assertion
    of [recordDrawBatch]); and the buffer never ends in a state record. *)
Theorem reachable_pointers_are_valid st :
  reachable st →
  (∀ p, fPrevState st = Some p →
        ∃ c s, fCmdBuffer st !! p = Some c ∧ body c = CSetState s
               ∧ last_state (fCmdBuffer st) = Some s)
  ∧ (fPrevState st = None → states_of (fCmdBuffer st) = [])
  ∧ (∀ d, fDrawBatch st = Some d →
          ∃ c b, fCmdBuffer st !! d = Some c ∧ body c = CDrawBatch b)
  ∧ (∀ c, back st = Some c → type c = kDrawBatch_CmdType →
          fDrawBatch st = Some (length (fCmdBuffer st) - 1))
  ∧ (∀ c, back st = Some c → type c ≠ kSetState_CmdType).
Proof.
  intros Hreach. pose proof (reachable_wf _ Hreach) as Hwf.
  pose proof Hwf as Hwf'. apply wf_spec in Hwf' as [Htail Hopen].
  pose proof Hopen as Hopen'.
  apply wf_open_spec in Hopen' as (Hp & Hb & _ & _).
  split; [|split; [|split; [|split]]].
  - intros p Hsome. rewrite Hsome in Hp.
    by apply (last_state_Some _ _ (eq_sym Hp)).
  - intros Hnone. rewrite Hnone in Hp.
    pose proof (last_state_None _ (eq_sym Hp)) as Hl.
    rewrite last_state_last in Hl. by apply last_None in Hl.
  - intros d Hd.
    destruct (deref_DrawBatch_last st d Hb Hd) as (c & b & Hc & Hbody & _).
    by exists c, b.
  - intros c Hc Hty.
    assert (is_Some (fDrawBatch st)) as [d Hd].
    { rewrite Hb, <- Hty, (last_index_tail (type c) (types st)); [done|].
      unfold types. unfold back in Hc. by rewrite fmap_last, Hc. }
    by destruct (tracked_is_tail st c d Hopen Hc Hty Hd) as [-> _].
  - intros c Hc Hty. rewrite (tail_is_state_back _ _ Hc) in Htail.
    unfold is_state in Htail. by rewrite bool_decide_eq_true_2 in Htail.
Qed.

(** ** Requests made without a pipeline *)

Lemma gen_pass_final buf cur gen final :
  gen_pass buf cur = Some (gen, final) →
  final = match last_state buf with Some s => Some s | None => cur end.
Proof.
  revert cur gen final. induction buf as [|c buf IH]; intros cur gen final; simpl.
  { by intros [= _ <-]. }
  unfold as_state. intros Hg.
  destruct (body c) as [| |ss| | | | | |b];
    try (rewrite (IH _ _ _ Hg); by destruct (last_state buf)).
  - simpl in Hg.
    destruct (gen_pass buf (Some ss)) as [[more fin]|] eqn:Hrest;
      [|by destruct (fPrimitiveProcessor ss)].
    assert (final = fin) as ->
      by (destruct (fPrimitiveProcessor ss); simpl in Hg; by injection Hg).
    rewrite (IH _ _ _ Hrest). by destruct (last_state buf).
  - destruct cur as [s|]; [|done]. simpl in Hg.
    destruct (gen_pass buf (Some s)) as [[more fin]|] eqn:Hrest; [|done].
    simpl in Hg. injection Hg as _ <-. rewrite (IH _ _ _ Hrest).
    by destruct (last_state buf).
Qed.

(** The geometry pass steps over a record that is neither a state nor a
    batch. *)
Lemma gen_pass_snoc buf c cur :
  is_state (type c) = false → is_batch c = false →
  gen_pass (buf ++ [c]) cur = gen_pass buf cur.
Proof.
  intros Hs Hb. revert cur. induction buf as [|d buf IH]; intros cur; simpl.
  - unfold is_state, is_batch, type in *. by destruct (body c).
  - destruct (body d) as [| |ss| | | | | |b]; try by apply IH.
    + by rewrite IH.
    + by rewrite IH.
Qed.

Lemma main_pass_snoc tb buf c cur vs evs next :
  main_pass tb buf cur = Some vs →
  visit tb c (match last_state buf with Some s => Some s | None => cur end)
  = Some (evs, next) →
  main_pass tb (buf ++ [c]) cur
  = Some (vs ++ [{| v_cmd := c;
                    v_state := match last_state buf with
                               | Some s => Some s
                               | None => cur
                               end;
                    v_events := evs |}]).
Proof.
  revert cur vs. induction buf as [|d buf IH]; intros cur vs; simpl.
  - intros [= <-] ->. done.
  - intros Hm Hv. destruct (visit tb d cur) as [[evs' next']|] eqn:Hd; [|done].
    simpl in Hm. destruct (main_pass tb buf next') as [vs'|] eqn:Hvs; [|done].
    simpl in Hm. injection Hm as <-.
    pose proof (visit_next _ _ _ _ _ Hd) as Hn. subst next'.
    assert (match last_state buf with
            | Some s => Some s
            | None => match as_state d with Some s => Some s | None => cur end
            end
            = match match last_state buf with
                    | Some s => Some s
                    | None => as_state d
                    end with
              | Some s => Some s
              | None => cur
              end) as Heq
      by (by destruct (last_state buf), (as_state d)).
    rewrite <- Heq in Hv. simpl. rewrite (IH _ _ Hvs Hv). simpl.
    by rewrite Heq.
Qed.

(** X14.  A stencil-path, clear, clear-stencil-clip, discard or copy-surface
    request resolves no pipeline: it leaves the world and both pointers as
    they are and appends one untraced record, whose address it returns.
    Flushing the new buffer repeats the iterations of the old one and adds
    one, which makes exactly the call the request asked for, with the
    request's arguments; the calls of the whole flush are those of the old
    one with this call put before [postFlush]. *)
Theorem explicit_request_round_trip tb w st req call vs evs :
  explicit_call req = Some call →
  flush tb st = Some (vs, evs) →
  ∃ c,
    record w st req
    = Some (w, with_buffer st (fCmdBuffer st ++ [c]), Some (length (fCmdBuffer st)))
    ∧ fMarkerID c = None
    ∧ request_kind req = Some (type c)
    ∧ flush tb (with_buffer st (fCmdBuffer st ++ [c]))
      = Some (vs ++ [{| v_cmd := c; v_state := last_state (fCmdBuffer st);
                        v_events := [call] |}],
              (if decide (fCmdBuffer st = [])
               then [getVertexAllocPool_unmap; getIndexAllocPool_unmap; preFlush]
               else removelast evs)
              ++ [call; postFlush]).
Proof.
  intros Hcall Hf.
  assert (∃ c, record w st req
               = Some (w, with_buffer st (fCmdBuffer st ++ [c]),
                       Some (length (fCmdBuffer st)))
               ∧ fMarkerID c = None ∧ request_kind req = Some (type c)
               ∧ is_state (type c) = false ∧ is_batch c = false
               ∧ ∀ cur, visit tb c cur = Some ([call], cur))
    as (c & Hrec & Hm & Hk & Hns & Hnb & Hvis).
  { destruct req as [| pb pp path sc ss | | | r col i rt | r i rt | rt
                     | d s' r p' | | ]; try done; simpl in Hcall;
      injection Hcall as <-; eexists; (split; [reflexivity|]);
      repeat split; try done.
    intros cur. unfold visit. simpl. by case_bool_decide.
    intros cur. unfold visit. simpl. by rewrite bool_decide_eq_true_2. }
  exists c. do 3 (split; [done|]).
  destruct (decide (fCmdBuffer st = [])) as [Hnil|Hne].
  - unfold flush in *. rewrite Hnil in *. injection Hf as <- <-.
    assert (gen_pass [c] None = Some ([], None)) as Hg.
    { simpl. unfold is_state, is_batch, type in *. by destruct (body c). }
    cbn [with_buffer fCmdBuffer app main_pass].
    assert ((if tb then gen_pass [c] None else Some ([], None))
            = Some ([], None)) as -> by (by destruct tb).
    simpl. rewrite (Hvis None). done.
  - destruct (flush_passes _ _ _ _ Hf Hne) as (gen & cur & Hgen & Hmain & ->).
    assert (match last_state (fCmdBuffer st) with
            | Some s => Some s
            | None => cur
            end = last_state (fCmdBuffer st)) as Hcur.
    { destruct tb.
      - apply gen_pass_final in Hgen. rewrite Hgen.
        by destruct (last_state (fCmdBuffer st)).
      - injection Hgen as _ <-. by destruct (last_state (fCmdBuffer st)). }
    pose proof (main_pass_snoc tb _ c cur vs [call] _ Hmain (Hvis _)) as Hsnoc.
    rewrite Hcur in Hsnoc.
    unfold flush. simpl.
    destruct (fCmdBuffer st ++ [c]) as [|c0 rest] eqn:Hbuf.
    { by destruct (fCmdBuffer st). }
    rewrite <- Hbuf in Hsnoc |- *. clear Hbuf.
    assert ((if tb then gen_pass (fCmdBuffer st ++ [c]) None else Some ([], None))
            = Some (gen, cur)) as ->.
    { destruct tb; [by rewrite gen_pass_snoc|done]. }
    simpl. rewrite Hsnoc. simpl. f_equal. f_equal.
    rewrite fmap_app, concat_app. simpl.
    replace (gen ++ getVertexAllocPool_unmap :: getIndexAllocPool_unmap
               :: preFlush :: concat (v_events <$> vs) ++ [postFlush])
      with ((gen ++ getVertexAllocPool_unmap :: getIndexAllocPool_unmap
               :: preFlush :: concat (v_events <$> vs)) ++ [postFlush])
      by (by rewrite <- !app_assoc).
    rewrite removelast_last, <- !app_assoc. simpl. by rewrite <- ?app_assoc.
Qed.

(** ** Batches and primitives do not share a state *)

(** X15.  A state recorded for a batch and a state recorded for a
    primitive processor are never taken for equal, whatever their
    pipelines: a drawn request of the one kind that comes while a state
    of the other kind is active appends its own state record and, right
    after it, its own draw record, which it returns; in particular a
    batch is then never combined with an earlier one, and a [DrawPaths]
    request never folds. *)
Theorem draw_of_other_kind_opens_state w st req cand active w' st' r :
  wf st = true →
  candidate w req = Some cand →
  mustSkip (fPipeline cand) = false →
  last_state (fCmdBuffer st) = Some active →
  has_primitive active ≠ has_primitive cand →
  record w st req = Some (w', st', r) →
  ∃ m d,
    fCmdBuffer st'
    = fCmdBuffer st ++ [{| fMarkerID := m; body := CSetState cand |}; d]
    ∧ request_kind req = Some (type d)
    ∧ fMarkerID d = None
    ∧ r = Some (S (length (fCmdBuffer st)))
    ∧ fPrevState st' = Some (length (fCmdBuffer st)).
Proof.
  intros Hwf Hcand Hskip Hactive Hkind Hrec.
  assert (states_equal active cand = false) as Hne.
  { unfold states_equal, has_primitive in *.
    by destruct (fPrimitiveProcessor active), (fPrimitiveProcessor cand). }
  assert (∀ ws wd w1 st1,
            resolved ws wd st cand w1 st1 true →
            ∃ m, st1 = {| fCmdBuffer :=
                            fCmdBuffer st
                            ++ [{| fMarkerID := m; body := CSetState cand |}];
                          fPrevState := Some (length (fCmdBuffer st));
                          fDrawBatch := fDrawBatch st |}) as Hkept.
  { intros ws wd w1 st1 Hr.
    inversion Hr as [|prev ? Hp Heq|wk m ? ? ?]; subst; [|by eexists].
    rewrite Hactive in Hp. injection Hp as <-. by rewrite Hne in Heq. }
  assert (∀ ws wd w1 st1, ¬ resolved ws wd st cand w1 st1 false) as Hdrawn.
  { intros ws wd w1 st1 Hr. inversion Hr as [Hs| |]. by rewrite Hs in Hskip. }
  destruct req as [batch pi| |pp path ss pi|pp pr iv ity tv tty n ss pi| | | | | |];
    try done; simpl in Hcand; injection Hcand as <-; simpl in Hrec.
  - destruct (recordDrawBatch_cases _ _ _ _ _ _ _ Hwf Hrec)
      as (w1 & st1 & [|] & Hr & Hb); [|by destruct (Hdrawn _ _ _ _ Hr)].
    destruct (Hkept _ _ _ _ Hr) as [m ->].
    destruct Hb as (c & Hc & Happend & _).
    unfold back in Hc. simpl in Hc. rewrite last_snoc in Hc. injection Hc as <-.
    destruct Happend as (-> & -> & ->); [by left|].
    eexists m, _. simpl. rewrite <- app_assoc, length_app. simpl.
    repeat split; try done. f_equal. lia.
  - destruct (recordDrawPath_cases _ _ _ _ _ _ _ _ _ Hwf Hrec)
      as (st1 & [|] & Hr & Hb); [|by destruct (Hdrawn _ _ _ _ Hr)].
    destruct (Hkept _ _ _ _ Hr) as [m ->]. destruct Hb as [-> ->].
    eexists m, _. simpl. rewrite <- app_assoc, length_app. simpl.
    repeat split; try done. f_equal. lia.
  - destruct (recordDrawPaths_cases _ _ _ _ _ _ _ _ _ _ _ _ _ _ Hwf Hrec)
      as (w1 & st1 & [|] & Hr & Hb); [|by destruct (Hdrawn _ _ _ _ Hr)].
    destruct (Hkept _ _ _ _ Hr) as [m ->].
    destruct Hb as (c & Hc & -> & Hfold).
    unfold back in Hc. simpl in Hc. rewrite last_snoc in Hc. injection Hc as <-.
    simpl in Hfold. destruct Hfold as [-> ->].
    eexists m, _. simpl. rewrite <- app_assoc, length_app. simpl.
    repeat split; try done. f_equal. lia.
Qed.

End Recording.

(** * The getters of the PDF dictionaries *)

Section GetterFacts.
Context `{NativeObjects}.

(** X16.  The generated getters never call a method through a null
    pointer: every test of the object is guarded by the null test before
    it.  Without a document, a dictionary that lacks the key gives the
    default value (the empty string, resp. 0), and an entry that is a
    reference is read as if it were the value itself.  With a document the
    result is decided by the resolved object alone: the default when the
    resolution gives null or an object of another kind, even a reference,
    whether or not the dictionary has the key. *)
Theorem getters_guard_null this doc :
  let name := match doc with
              | Some d => resolveReference d (get this "O" EmptyString)
              | None => get this "O" EmptyString
              end in
  let number := match doc with
                | Some d => resolveReference d (get this "ColorTransform" EmptyString)
                | None => get this "ColorTransform" EmptyString
                end in
  SkPdfAttributeObjectDictionary_O this doc
  = Some match name with
         | Some o =>
             if isName o || is_null doc && isReference o then nameValue2 o
             else SkString_new
         | None => SkString_new
         end
  ∧ SkPdfDctdecodeFilterDictionary_ColorTransform this doc
    = Some match number with
           | Some o =>
               if isInteger o || is_null doc && isReference o then intValue o
               else 0%Z
           | None => 0%Z
           end
  ∧ (SkPdfAttributeObjectDictionary_has_O this = false →
     SkPdfAttributeObjectDictionary_O this None = Some SkString_new)
  ∧ (SkPdfDctdecodeFilterDictionary_has_ColorTransform this = false →
     SkPdfDctdecodeFilterDictionary_ColorTransform this None = Some 0%Z).
Proof.
  unfold SkPdfAttributeObjectDictionary_O, SkPdfAttributeObjectDictionary_has_O,
    SkPdfDctdecodeFilterDictionary_ColorTransform,
    SkPdfDctdecodeFilterDictionary_has_ColorTransform.
  split; [|split; [|split]].
  - destruct doc as [d|]; simpl.
    + destruct (resolveReference d _) as [o|]; simpl; [|done].
      by destruct (isName o).
    + destruct (get this "O" EmptyString) as [o|]; simpl; [|done].
      by destruct (isName o), (isReference o).
  - destruct doc as [d|]; simpl.
    + destruct (resolveReference d _) as [o|]; simpl; [|done].
      by destruct (isInteger o).
    + destruct (get this "ColorTransform" EmptyString) as [o|]; simpl; [|done].
      by destruct (isInteger o), (isReference o).
  - by destruct (get this "O" EmptyString).
  - by destruct (get this "ColorTransform" EmptyString).
Qed.

End GetterFacts.

(** * The claims on explicit requests *)

Section Examples.
#[local] Existing Instance Demo.collaborators.

(** The example of the specification: three glyphs, then five with the
    same state, fold into one record of eight. *)
Lemma drawPaths_run_folds_witness :
  wf Demo.after_three = true
  ∧ fCmdBuffer Demo.after_three
    = [new_cmd (CSetState (Demo.state 1))]
      ++ [new_cmd (CDrawPaths (Demo.run 3 4096 8192 Demo.IncClamp))]
  ∧ last_state (fCmdBuffer Demo.after_three) = Some (Demo.state 1)
  ∧ foldable_run Demo.pools_after_three (Demo.state 1)
      (Demo.run 3 4096 8192 Demo.IncClamp)
      [Demo.glyphs 5 Demo.IncClamp 1]
  ∧ ∃ w',
      record_all Demo.pools_after_three Demo.after_three
        [Demo.glyphs 5 Demo.IncClamp 1]
      = Some (w', Demo.after_eight, [None]).
Proof.
  assert (foldable_run Demo.pools_after_three (Demo.state 1)
            (Demo.run 3 4096 8192 Demo.IncClamp)
            [Demo.glyphs 5 Demo.IncClamp 1]) as Hrun.
  { repeat split; try reflexivity. right. reflexivity. }
  do 3 (split; [reflexivity|]). split; [exact Hrun|].
  destruct (@drawPaths_run_folds Demo.collaborators [Demo.glyphs 5 Demo.IncClamp 1]
              Demo.pools_after_three Demo.after_three
              [new_cmd (CSetState (Demo.state 1))]
              (new_cmd (CDrawPaths (Demo.run 3 4096 8192 Demo.IncClamp)))
              (Demo.run 3 4096 8192 Demo.IncClamp) (Demo.state 1)
              eq_refl eq_refl eq_refl eq_refl Hrun) as (w' & Hall & _).
  exists w'. exact Hall.
Defined.

(** Against C1 as stated: after three glyphs, a request of five that
    shares the path range, the element types and the stencil settings,
    winds, does not blend and continues the pool, but resolves to pipeline
    2 and not 1, is not folded: a state record and a new [DrawPaths]
    record of count 5 are appended and the new record is returned. *)
Lemma changed_state_is_not_folded :
  record Demo.pools0 empty_recorder (Demo.glyphs 3 Demo.IncClamp 1)
  = Some (Demo.pools_after_three, Demo.after_three, Some 1)
  ∧ shares_and_continues Demo.pools_after_three
      (Demo.run 3 4096 8192 Demo.IncClamp)
      (Demo.glyphs 5 Demo.IncClamp 2)
  ∧ record Demo.pools_after_three Demo.after_three
      (Demo.glyphs 5 Demo.IncClamp 2)
    = Some (Demo.pools_after_eight, Demo.after_three_and_five, Some 3)
  ∧ length (fCmdBuffer Demo.after_three_and_five)
    ≠ length (fCmdBuffer Demo.after_three).
Proof.
  split; [reflexivity|]. split.
  { repeat split; try reflexivity. right. reflexivity. }
  split; [reflexivity|]. simpl. lia.
Qed.

(** The second example of the specification: three glyphs, then five with
    an even-odd fill, leave two records with counts 3 and 5. *)
Lemma even_odd_request_never_folds_witness :
  wf Demo.after_three = true
  ∧ path_fill_type_is_winding (Demo.Invert : GrStencilSettings) = false
  ∧ ∃ w' r,
      record Demo.pools_after_three Demo.after_three
        (Demo.glyphs 5 Demo.Invert 1)
      = Some (w',
              push_back Demo.after_three
                (new_cmd (CDrawPaths (Demo.run 5 4102 8216 Demo.Invert))),
              r).
Proof.
  split; [reflexivity|]. split; [reflexivity|].
  destruct (@even_odd_request_never_folds Demo.collaborators
              Demo.pools_after_three Demo.after_three
              7%Z 100%Z 200%Z Demo.kU16_PathIndexType 300%Z
              Demo.kTranslate_PathTransformType 5%Z Demo.Invert (Demo.info 1)
              eq_refl eq_refl) as (w' & st' & r & Hrec & _ & Hnew).
  destruct (Hnew eq_refl) as (w1 & st1 & resolved & Hsetup & _ & _ & Hst' & _).
  injection Hsetup as <- <-.
  exists w', r. subst st'. exact Hrec.
Defined.

(** Three glyphs and then five with an even-odd fill and the same state:
    two [DrawPaths] records and one state record. *)
Lemma equal_state_is_elided_witness :
  wf empty_recorder = true
  ∧ candidate Demo.pools0 (Demo.glyphs 3 Demo.IncClamp 1)
    = Some (Demo.state 1)
  ∧ mustSkip (fPipeline (Demo.state 1)) = false
  ∧ record Demo.pools0 empty_recorder (Demo.glyphs 3 Demo.IncClamp 1)
    = Some (Demo.pools_after_three, Demo.after_three, Some 1)
  ∧ candidate Demo.pools_after_three (Demo.glyphs 5 Demo.Invert 1)
    = Some (Demo.state 1)
  ∧ ∃ w2 st2 r2,
      record Demo.pools_after_three Demo.after_three
        (Demo.glyphs 5 Demo.Invert 1) = Some (w2, st2, r2)
      ∧ states_of (fCmdBuffer st2) = [Demo.state 1]
      ∧ no_adjacent_states (types st2) = true.
Proof.
  repeat (split; [reflexivity|]).
  destruct (@equal_state_is_elided Demo.collaborators Demo.pools0 empty_recorder
              (Demo.glyphs 3 Demo.IncClamp 1)
              (Demo.glyphs 5 Demo.Invert 1)
              Demo.pools_after_three Demo.after_three (Some 1)
              (Demo.state 1) (Demo.state 1)
              eq_refl eq_refl eq_refl eq_refl eq_refl eq_refl)
    as (P & HP & _ & Helided).
  injection HP as <-.
  destruct (Helided (or_introl eq_refl))
    as (w2 & st2 & r2 & Hrec & _ & _ & _ & Hadj & Hone).
  exists w2, st2, r2. split; [exact Hrec|]. split; [exact (Hone eq_refl)|exact Hadj].
Defined.

Lemma flush_visits_in_order_witness :
  fCmdBuffer Demo.one_batch ≠ []
  ∧ staged false (types Demo.one_batch) = true
  ∧ ∃ vs evs,
      flush false Demo.one_batch = Some (vs, evs)
      ∧ v_cmd <$> vs = fCmdBuffer Demo.one_batch
      ∧ count_if is_gpu_draw evs = 0
      ∧ count_if is_flushNext evs = 1.
Proof.
  assert (fCmdBuffer Demo.one_batch ≠ []) as Hne by discriminate.
  split; [exact Hne|]. split; [reflexivity|].
  destruct (@flush_visits_in_order Demo.collaborators false Demo.one_batch Hne eq_refl)
    as (vs & evs & gen & Hf & Hcmds & _ & _ & _ & Hdraw & Hnext & _).
  exists vs, evs. split; [exact Hf|]. split; [exact Hcmds|].
  split; [exact Hdraw|exact Hnext].
Defined.

(** Against C4 as stated: a buffer with one record of the draw family, a
    [DrawBatch], is flushed without any draw call on the GPU; the record
    goes to the batch target by [flushNext]. *)
Lemma batch_record_makes_no_gpu_draw :
  record Demo.pools0 empty_recorder (DrawBatchReq 500 (Demo.info 3))
  = Some (Demo.pools0, Demo.one_batch, Some 1)
  ∧ fCmdBuffer Demo.one_batch ≠ []
  ∧ flush false Demo.one_batch
    = Some (Demo.one_batch_visits,
            [getVertexAllocPool_unmap; getIndexAllocPool_unmap; preFlush;
             flushNext 500; postFlush])
  ∧ count_if is_gpu_draw
      [getVertexAllocPool_unmap; getIndexAllocPool_unmap; preFlush;
       flushNext 500; postFlush] = 0
  ∧ count_if is_draw_family (fCmdBuffer Demo.one_batch) = 1.
Proof. repeat split; try reflexivity. discriminate. Qed.

Lemma skipped_request_leaves_recorder_witness :
  mustSkip (setupPipeline Demo.pools_after_three (Demo.info 0)).2 = true
  ∧ record Demo.pools_after_three Demo.after_three
      (Demo.glyphs 5 Demo.IncClamp 0)
    = Some (Demo.pools_after_three, Demo.after_three, None).
Proof.
  split; [reflexivity|].
  destruct (@skipped_request_leaves_recorder Demo.collaborators Demo.pools_after_three
              Demo.after_three (Demo.info 0) eq_refl) as (_ & _ & Hprim).
  destruct (Hprim 7%Z) as (_ & _ & Hpaths).
  exact (Hpaths 100%Z 200%Z Demo.kU16_PathIndexType 300%Z
           Demo.kTranslate_PathTransformType 5%Z Demo.IncClamp).
Defined.

(** A second batch that combines with the tracked one: the record of the
    first is returned and the buffer stays as it is.  A batch that the
    tracked one refuses: a third record is appended, tracked and
    returned. *)
Lemma recordDrawBatch_after_resolution_witness :
  wf Demo.one_batch = true
  ∧ setupPipelineAndShouldDraw_batch Demo.pools0 Demo.one_batch 501 (Demo.info 3)
    = Some (Demo.pools0, Demo.one_batch, true)
  ∧ (∃ w' st',
       recordDrawBatch Demo.pools0 Demo.one_batch 501 (Demo.info 3)
       = Some (w', st', Some 1)
       ∧ fCmdBuffer st' = fCmdBuffer Demo.one_batch
       ∧ fDrawBatch st' = Some 1)
  ∧ setupPipelineAndShouldDraw_batch Demo.pools0 Demo.one_batch 700 (Demo.info 3)
    = Some (Demo.pools0, Demo.one_batch, true)
  ∧ (∃ w' st',
       recordDrawBatch Demo.pools0 Demo.one_batch 700 (Demo.info 3)
       = Some (w', st', Some 2)
       ∧ fCmdBuffer st'
         = fCmdBuffer Demo.one_batch
           ++ [{| fMarkerID := None; body := CDrawBatch 700 |}]
       ∧ fDrawBatch st' = Some 2)
  ∧ wf Demo.after_three = true
  ∧ setupPipelineAndShouldDraw_batch Demo.pools_after_three Demo.after_three 500
      (Demo.info 3)
    = Some (Demo.pools_after_three,
            {| fCmdBuffer := fCmdBuffer Demo.after_three
                             ++ [new_cmd (CSetState Demo.batch_state)];
               fPrevState := Some 2; fDrawBatch := None |}, true)
  ∧ (∃ w' st',
       recordDrawBatch Demo.pools_after_three Demo.after_three 500 (Demo.info 3)
       = Some (w', st', Some 3)
       ∧ fCmdBuffer st'
         = fCmdBuffer Demo.after_three
           ++ [new_cmd (CSetState Demo.batch_state);
               {| fMarkerID := None; body := CDrawBatch 500 |}]
       ∧ fDrawBatch st' = Some 3).
Proof.
  assert (fDrawBatch Demo.one_batch ≠ None) as Htracked by discriminate.
  split; [reflexivity|]. split; [reflexivity|]. split.
  { destruct (@recordDrawBatch_after_resolution Demo.collaborators Demo.pools0
                Demo.one_batch 501%Z (Demo.info 3) Demo.pools0 Demo.one_batch
                eq_refl eq_refl)
      as (tail & w' & st' & r & Htail & Hrec & _ & _ & Hcombine).
    injection Htail as Htail. subst tail.
    destruct (Hcombine eq_refl Htracked) as (tracked & _ & _ & Hbody & _ & Hif).
    injection Hbody as Hbody. subst tracked.
    destruct Hif as (Hbuf & Hd & Hr). subst r.
    exists w', st'. split; [exact Hrec|]. split; [exact Hbuf|exact Hd]. }
  split; [reflexivity|]. split.
  { destruct (@recordDrawBatch_after_resolution Demo.collaborators Demo.pools0
                Demo.one_batch 700%Z (Demo.info 3) Demo.pools0 Demo.one_batch
                eq_refl eq_refl)
      as (tail & w' & st' & r & Htail & Hrec & _ & _ & Hcombine).
    injection Htail as Htail. subst tail.
    destruct (Hcombine eq_refl Htracked) as (tracked & _ & _ & Hbody & _ & Hif).
    injection Hbody as Hbody. subst tracked.
    destruct Hif as (Hbuf & Hd & Hr). subst r.
    exists w', st'. split; [exact Hrec|]. split; [exact Hbuf|exact Hd]. }
  split; [reflexivity|]. split; [reflexivity|].
  destruct (@recordDrawBatch_after_resolution Demo.collaborators
              Demo.pools_after_three Demo.after_three 500%Z (Demo.info 3)
              Demo.pools_after_three
              {| fCmdBuffer := fCmdBuffer Demo.after_three
                               ++ [new_cmd (CSetState Demo.batch_state)];
                 fPrevState := Some 2; fDrawBatch := None |}
              eq_refl eq_refl)
    as (tail & w' & st' & r & _ & Hrec & _ & Happend & _).
  destruct (Happend (or_intror eq_refl)) as (_ & Hbuf & Hd & Hr). subst r.
  exists w', st'. split; [exact Hrec|]. split; [exact Hbuf|exact Hd].
Defined.

Lemma state_is_resolved_before_draw_witness :
  wf Demo.after_three = true
  ∧ ∃ vs evs,
      flush false Demo.after_three = Some (vs, evs)
      ∧ ∀ k v, vs !! k = Some v → needs_state (type (v_cmd v)) = true →
          ∃ s, v_state v = Some s
               ∧ last_state (take k (fCmdBuffer Demo.after_three)) = Some s.
Proof.
  split; [reflexivity|].
  destruct (@state_is_resolved_before_draw Demo.collaborators false Demo.after_three eq_refl)
    as (_ & _ & _ & Hflush).
  exact Hflush.
Defined.

(** Against C7 as stated: a [recordStencilPath] request on a fresh recorder
    appends its record and resolves no state: the buffer holds no state
    record, [fPrevState] stays null, and [flush] reaches the record with no
    active state. *)
Lemma stencil_path_resolves_no_state :
  record Demo.pools0 empty_recorder Demo.stencil_request
  = Some (Demo.pools0, Demo.one_stencil, Some 0)
  ∧ states_of (fCmdBuffer Demo.one_stencil) = []
  ∧ fPrevState Demo.one_stencil = None
  ∧ flush false Demo.one_stencil
    = Some ([{| v_cmd := new_cmd (CStencilPath Demo.stencil_record);
                v_state := None;
                v_events := [gpu_stencilPath Demo.stencil_record] |}],
            [getVertexAllocPool_unmap; getIndexAllocPool_unmap; preFlush;
             gpu_stencilPath Demo.stencil_record; postFlush]).
Proof. repeat split; reflexivity. Qed.

Lemma discard_record_dispatches_discard_witness :
  staged false (types Demo.after_three) = true
  ∧ ∃ st' vs evs v,
      recordDiscard Demo.pools_after_three Demo.after_three Demo.target
      = Some (Demo.pools_after_three, st', Some 2)
      ∧ flush false st' = Some (vs, evs)
      ∧ vs !! 2 = Some v
      ∧ v_events v = [gpu_discard Demo.target].
Proof.
  split; [reflexivity|].
  destruct (@discard_record_dispatches_discard Demo.collaborators false Demo.pools_after_three
              Demo.after_three Demo.target eq_refl)
    as (st' & vs & evs & v & Hrec & _ & Hf & Hv & Hev & _).
  exists st', vs, evs, v.
  split; [exact Hrec|]. split; [exact Hf|]. split; [exact Hv|exact Hev].
Defined.

(** A clear of the whole target, 640 by 480, recorded after three glyphs. *)
Lemma clear_without_rect_covers_target_witness :
  staged false (types Demo.after_three) = true
  ∧ (255%Z : Z) ≠ GrColor_ILLEGAL
  ∧ ∃ st' vs evs v,
      recordClear Demo.pools_after_three Demo.after_three None 255 true Demo.target
      = Some (Demo.pools_after_three, st', Some 2)
      ∧ fCmdBuffer st' !! 2
        = Some {| fMarkerID := None;
                  body := CClear
                    {| cl_renderTarget := Demo.target; fColor := 255;
                       fRect := Some {| fLeft := 0; fTop := 0;
                                        fRight := 640; fBottom := 480 |};
                       fCanIgnoreRect := Some true |} |}
      ∧ flush false st' = Some (vs, evs)
      ∧ vs !! 2 = Some v
      ∧ v_events v
        = [gpu_clear (Some {| fLeft := 0; fTop := 0; fRight := 640; fBottom := 480 |})
             255 (Some true) Demo.target].
Proof.
  assert ((255%Z : Z) ≠ GrColor_ILLEGAL) as Hcolor by discriminate.
  split; [reflexivity|]. split; [exact Hcolor|].
  destruct (@clear_without_rect_covers_target Demo.collaborators false
              Demo.pools_after_three Demo.after_three 255%Z true Demo.target)
    as (st' & Hrec & Hbuf & _ & _ & Hflush).
  destruct (Hflush eq_refl Hcolor) as (vs & evs & v & Hf & Hv & Hev).
  exists st', vs, evs, v.
  split; [exact Hrec|]. split; [rewrite Hbuf; reflexivity|].
  split; [exact Hf|]. split; [exact Hv|exact Hev].
Defined.

Lemma clear_with_sentinel_is_discard_witness :
  staged false (types Demo.after_three) = true
  ∧ ∃ st' vs evs v,
      recordClear Demo.pools_after_three Demo.after_three None 16777215 true
        Demo.target
      = Some (Demo.pools_after_three, st', Some 2)
      ∧ flush false st' = Some (vs, evs)
      ∧ vs !! 2 = Some v
      ∧ v_events v = [gpu_discard Demo.target].
Proof.
  split; [reflexivity|].
  destruct (@clear_with_sentinel_is_discard Demo.collaborators false Demo.pools_after_three
              Demo.after_three None true Demo.target eq_refl)
    as (st' & c & clr & vs & evs & v & Hrec & _ & _ & _ & _ & Hf & Hv & _ & Hev).
  exists st', vs, evs, v.
  split; [exact Hrec|]. split; [exact Hf|]. split; [exact Hv|exact Hev].
Defined.

(** ** The further properties on explicit requests *)

(** A buffer of two records is not flushed in silence. *)
Lemma flush_is_silent_iff_empty_witness :
  ∃ vs evs,
    flush false Demo.one_batch = Some (vs, evs)
    ∧ (evs = [] ↔ fCmdBuffer Demo.one_batch = [])
    ∧ (vs = [] ↔ fCmdBuffer Demo.one_batch = []).
Proof.
  eexists _, _. split; [reflexivity|].
  exact (proj2 (@flush_is_silent_iff_empty Demo.collaborators false Demo.one_batch)
           _ _ eq_refl).
Defined.

(** Three glyphs after a [reset] of a recorder that held the very same
    state. *)
Lemma first_draw_after_reset_keeps_its_state_witness :
  candidate Demo.pools0 (Demo.glyphs 3 Demo.IncClamp 1) = Some (Demo.state 1)
  ∧ mustSkip (fPipeline (Demo.state 1)) = false
  ∧ ∃ w' st',
      record Demo.pools0 (reset Demo.after_three) (Demo.glyphs 3 Demo.IncClamp 1)
      = Some (w', st', Some 1)
      ∧ fPrevState st' = Some 0.
Proof.
  do 2 (split; [reflexivity|]).
  destruct (@first_draw_after_reset_keeps_its_state Demo.collaborators Demo.pools0
              Demo.after_three (Demo.glyphs 3 Demo.IncClamp 1) (Demo.state 1)
              eq_refl eq_refl) as (w' & st' & m & d & Hrec & _ & _ & Hp).
  exists w', st'. split; [exact Hrec|exact Hp].
Defined.

(** Five glyphs with pipeline 2 after three with pipeline 1 add the state
    of pipeline 2. *)
Lemma state_records_emitted_witness :
  wf Demo.after_three = true
  ∧ Demo.glyphs 5 Demo.IncClamp 2 ≠ ResetReq
  ∧ record Demo.pools_after_three Demo.after_three (Demo.glyphs 5 Demo.IncClamp 2)
    = Some (Demo.pools_after_eight, Demo.after_three_and_five, Some 3)
  ∧ states_of (fCmdBuffer Demo.after_three_and_five)
    = states_of (fCmdBuffer Demo.after_three)
      ++ match candidate Demo.pools_after_three (Demo.glyphs 5 Demo.IncClamp 2) with
         | Some cand => emitted_state (fCmdBuffer Demo.after_three) cand
         | None => []
         end.
Proof.
  assert (Demo.glyphs 5 Demo.IncClamp 2 ≠ ResetReq) as Hne by discriminate.
  split; [reflexivity|]. split; [exact Hne|]. split; [reflexivity|].
  exact (@state_records_emitted Demo.collaborators Demo.pools_after_three
           Demo.after_three (Demo.glyphs 5 Demo.IncClamp 2)
           Demo.pools_after_eight Demo.after_three_and_five (Some 3)
           eq_refl Hne eq_refl).
Defined.

Lemma record_is_append_only_witness :
  wf Demo.after_three = true
  ∧ Demo.glyphs 5 Demo.IncClamp 1 ≠ ResetReq
  ∧ record Demo.pools_after_three Demo.after_three (Demo.glyphs 5 Demo.IncClamp 1)
    = Some (Demo.pools_after_eight, Demo.after_eight, None)
  ∧ length (fCmdBuffer Demo.after_three) ≤ length (fCmdBuffer Demo.after_eight).
Proof.
  assert (Demo.glyphs 5 Demo.IncClamp 1 ≠ ResetReq) as Hne by discriminate.
  split; [reflexivity|]. split; [exact Hne|]. split; [reflexivity|].
  exact (proj1 (@record_is_append_only Demo.collaborators Demo.pools_after_three
                  Demo.after_three (Demo.glyphs 5 Demo.IncClamp 1)
                  Demo.pools_after_eight Demo.after_eight None
                  eq_refl Hne eq_refl)).
Defined.

Lemma returned_command_is_last_witness :
  wf Demo.after_three = true
  ∧ record Demo.pools_after_three Demo.after_three (Demo.glyphs 5 Demo.IncClamp 2)
    = Some (Demo.pools_after_eight, Demo.after_three_and_five, Some 3)
  ∧ 4 = length (fCmdBuffer Demo.after_three_and_five).
Proof.
  split; [reflexivity|]. split; [reflexivity|].
  exact (proj1 (@returned_command_is_last Demo.collaborators Demo.pools_after_three
                  Demo.after_three (Demo.glyphs 5 Demo.IncClamp 2)
                  Demo.pools_after_eight Demo.after_three_and_five 3
                  eq_refl eq_refl)).
Defined.

(** Five more glyphs with the same state fold, and null is returned. *)
Lemma drawPaths_returns_null_iff_folded_witness :
  wf Demo.after_three = true
  ∧ mustSkip (setupPipeline Demo.pools_after_three (Demo.info 1)).2 = false
  ∧ recordDrawPaths Demo.pools_after_three Demo.after_three 7%Z 100 200
      Demo.kU16_PathIndexType 300 Demo.kTranslate_PathTransformType 5
      Demo.IncClamp (Demo.info 1)
    = Some (Demo.pools_after_eight, Demo.after_eight, None)
  ∧ ∃ pre tail previous active,
      fCmdBuffer Demo.after_three = pre ++ [tail]
      ∧ body tail = CDrawPaths previous
      ∧ last_state (fCmdBuffer Demo.after_three) = Some active
      ∧ foldable Demo.pools_after_three active previous
          (Demo.glyphs 5 Demo.IncClamp 1).
Proof.
  do 3 (split; [reflexivity|]).
  exact (proj1 (@drawPaths_returns_null_iff_folded Demo.collaborators
                  Demo.pools_after_three Demo.after_three 7%Z 100%Z 200%Z
                  Demo.kU16_PathIndexType 300%Z Demo.kTranslate_PathTransformType
                  5%Z Demo.IncClamp (Demo.info 1)
                  Demo.pools_after_eight Demo.after_eight None
                  eq_refl eq_refl eq_refl) eq_refl).
Defined.

(** Batch 501 combines with the tracked batch 500. *)
Lemma drawBatch_keeps_buffer_iff_combined_witness :
  wf Demo.one_batch = true
  ∧ mustSkip (setupPipeline Demo.pools0 (Demo.info 3)).2 = false
  ∧ recordDrawBatch Demo.pools0 Demo.one_batch 501 (Demo.info 3)
    = Some (Demo.pools0, Demo.one_batch, Some 1)
  ∧ ∃ active tail tracked,
      last_state (fCmdBuffer Demo.one_batch) = Some active
      ∧ back Demo.one_batch = Some tail
      ∧ body tail = CDrawBatch tracked.
Proof.
  do 3 (split; [reflexivity|]).
  destruct (proj1 (proj1 (@drawBatch_keeps_buffer_iff_combined Demo.collaborators
                            Demo.pools0 Demo.one_batch 501%Z (Demo.info 3)
                            Demo.pools0 Demo.one_batch (Some 1)
                            eq_refl eq_refl eq_refl)) eq_refl)
    as (active & tail & tracked & Hactive & _ & Hback & Hbody & _).
  exists active, tail, tracked.
  split; [exact Hactive|]. split; [exact Hback|exact Hbody].
Defined.

Lemma recorded_drawPath_is_dispatched_witness :
  wf empty_recorder = true
  ∧ mustSkip (setupPipeline Demo.pools0 (Demo.info 1)).2 = false
  ∧ ∃ w' st' p vs evs v active,
      recordDrawPath Demo.pools0 empty_recorder 7%Z 55 Demo.IncClamp (Demo.info 1)
      = Some (w', st', Some p)
      ∧ flush true st' = Some (vs, evs)
      ∧ vs !! p = Some v
      ∧ v_events v
        = [gpu_drawPath active
             {| dp_path := 55; dp_fStencilSettings := Demo.IncClamp |}].
Proof.
  do 2 (split; [reflexivity|]).
  destruct (@recorded_drawPath_is_dispatched Demo.collaborators true Demo.pools0
              empty_recorder 7%Z 55%Z Demo.IncClamp (Demo.info 1) eq_refl eq_refl)
    as (w' & st' & p & vs & evs & v & active & Hrec & Hf & Hv & Hev & _).
  exists w', st', p, vs, evs, v, active.
  split; [exact Hrec|]. split; [exact Hf|]. split; [exact Hv|exact Hev].
Defined.


Lemma trace_markers_are_balanced_witness :
  ∃ vs evs,
    flush true Demo.after_three = Some (vs, evs)
    ∧ count_if is_add_marker evs = count_if isTraced (fCmdBuffer Demo.after_three)
    ∧ count_if is_remove_marker evs
      = count_if isTraced (fCmdBuffer Demo.after_three).
Proof.
  eexists _, _. split; [reflexivity|].
  destruct (@trace_markers_are_balanced Demo.collaborators true Demo.after_three
              _ _ eq_refl) as (Hadd & Hremove & _).
  split; [exact Hadd|exact Hremove].
Defined.


Lemma main_loop_builds_programs_only_witness :
  ∃ vs evs,
    flush true Demo.after_three = Some (vs, evs)
    ∧ count_if is_buildProgramDesc (concat (v_events <$> vs)) = 1
    ∧ count_if is_generateGeometry (concat (v_events <$> vs)) = 0.
Proof.
  eexists _, _. split; [reflexivity|].
  destruct (@main_loop_builds_programs_only Demo.collaborators true Demo.after_three
              _ _ eq_refl) as (Hbuild & Hgen & _).
  split; [exact Hbuild|exact Hgen].
Defined.

(** The recorder after three glyphs is reachable from a fresh one. *)
Lemma reachable_pointers_are_valid_witness :
  reachable Demo.after_three
  ∧ ∀ c, back Demo.after_three = Some c → type c ≠ kSetState_CmdType.
Proof.
  assert (reachable Demo.after_three) as Hreach.
  { apply (@reachable_record Demo.collaborators Demo.pools0 empty_recorder
             (Demo.glyphs 3 Demo.IncClamp 1) Demo.pools_after_three
             Demo.after_three (Some 1) (@reachable_empty Demo.collaborators)).
    reflexivity. }
  split; [exact Hreach|].
  destruct (@reachable_pointers_are_valid Demo.collaborators Demo.after_three Hreach)
    as (_ & _ & _ & _ & Htail).
  exact Htail.
Defined.

(** A stencil path recorded after one batch. *)
Lemma explicit_request_round_trip_witness :
  explicit_call Demo.stencil_request = Some (gpu_stencilPath Demo.stencil_record)
  ∧ ∃ vs evs c,
      flush true Demo.one_batch = Some (vs, evs)
      ∧ record Demo.pools0 Demo.one_batch Demo.stencil_request
        = Some (Demo.pools0,
                with_buffer Demo.one_batch (fCmdBuffer Demo.one_batch ++ [c]),
                Some 2)
      ∧ fMarkerID c = None.
Proof.
  split; [reflexivity|]. eexists _, _.
  destruct (@explicit_request_round_trip Demo.collaborators true Demo.pools0
              Demo.one_batch Demo.stencil_request
              (gpu_stencilPath Demo.stencil_record) _ _ eq_refl eq_refl)
    as (c & Hrec & Hm & _).
  exists c. split; [reflexivity|]. split; [exact Hrec|exact Hm].
Defined.

(** Glyphs drawn with pipeline 3 while the batch state of pipeline 3 is
    active. *)
Lemma draw_of_other_kind_opens_state_witness :
  wf Demo.one_batch = true
  ∧ candidate Demo.pools0 (Demo.glyphs 3 Demo.IncClamp 3) = Some (Demo.state 3)
  ∧ mustSkip (fPipeline (Demo.state 3)) = false
  ∧ last_state (fCmdBuffer Demo.one_batch) = Some Demo.batch_state
  ∧ has_primitive Demo.batch_state ≠ has_primitive (Demo.state 3)
  ∧ ∃ w' st' r m d,
      record Demo.pools0 Demo.one_batch (Demo.glyphs 3 Demo.IncClamp 3)
      = Some (w', st', r)
      ∧ fCmdBuffer st'
        = fCmdBuffer Demo.one_batch
          ++ [{| fMarkerID := m; body := CSetState (Demo.state 3) |}; d]
      ∧ r = Some 3.
Proof.
  assert (has_primitive Demo.batch_state ≠ has_primitive (Demo.state 3)) as Hkind
    by discriminate.
  do 4 (split; [reflexivity|]). split; [exact Hkind|].
  eexists _, _, _.
  destruct (@draw_of_other_kind_opens_state Demo.collaborators Demo.pools0
              Demo.one_batch (Demo.glyphs 3 Demo.IncClamp 3) (Demo.state 3)
              Demo.batch_state _ _ _ eq_refl eq_refl eq_refl eq_refl Hkind eq_refl)
    as (m & d & Hbuf & _ & _ & Hr & _).
  exists m, d. split; [reflexivity|]. split; [exact Hbuf|exact Hr].
Defined.

End Examples.

Section GetterExamples.
#[local] Existing Instance PdfDemo.objects.

(** A dictionary without the key, read without a document. *)
Lemma getters_guard_null_witness :
  SkPdfAttributeObjectDictionary_has_O PdfDemo.without_key = false
  ∧ SkPdfDctdecodeFilterDictionary_has_ColorTransform PdfDemo.without_key = false
  ∧ SkPdfAttributeObjectDictionary_O PdfDemo.without_key None = Some SkString_new
  ∧ SkPdfDctdecodeFilterDictionary_ColorTransform PdfDemo.without_key None
    = Some 0%Z.
Proof.
  do 2 (split; [reflexivity|]).
  pose proof (@getters_guard_null PdfDemo.objects PdfDemo.without_key None) as Hg.
  cbv zeta in Hg. destruct Hg as (_ & _ & Hname & Hnumber).
  split; [exact (Hname eq_refl)|exact (Hnumber eq_refl)].
Defined.

End GetterExamples.
